(** * The highlight overlay of playwright-core: update engine, tooltip
      placement and per-frame loop

    Shallow embedding of
    [packages/playwright-core/src/server/injected/highlight.ts] and proofs
    of its specification.

    Modelling choices.
    - An element handle is a natural number; reference identity of two
      handles is equality of the numbers.  [createElement] hands out the
      next free number.
    - A JavaScript number is an integer ([Z]): geometry is taken free of
      NaN and of rounding.  Number-to-string conversion is decimal.
    - The DOM is a store from handles to the properties the class writes
      (tag, text content, inline style), the ordered child list of the
      glass pane's shadow root and the child list of the document element.
    - What the layout engine answers (bounding boxes, offset sizes) is a
      parameter of each call, as is what a selector matches.
    - Every method runs in a small monad that threads the world, may throw
      and logs each DOM call it makes, in order.
    - The action point, [isInstalled] and the event listeners of the glass
      pane touch neither the registry nor the loop and are left out.

    The file has three parts: the embedding of the class, the vocabulary
    of the properties, and the properties with their proofs. *)

From stdpp Require Import base option list gmap strings pretty.
From Stdlib Require Import ZArith Lia.

Local Open Scope Z_scope.

(** ** Data model *)

Definition Element := nat.

Module DOMRect.
(** The fields of a [DOMRect] the class reads. *)
Record t := mk {
  x : Z; y : Z; width : Z; height : Z;
  top : Z; right : Z; bottom : Z; left : Z
}.
End DOMRect.

Record HighlightEntry := {
  targetElement : Element;
  highlightElement : Element;
  tooltipElement : option Element;
  box : option DOMRect.t;
  tooltipTop : option Z;
  tooltipLeft : option Z;
  tooltipText : option string
}.

Module HighlightOptions.
Record t := mk {
  tooltipText : option string;
  color : option string
}.
End HighlightOptions.

(** What the store keeps of an element. *)
Record ElementData := {
  tagName : string;
  textContent : string;
  style : gmap string string
}.

Record Document := {
  nodes : gmap Element ElementData;
  nextElement : Element;
  shadowChildren : list Element;
  rootChildren : list Element
}.

(** The mutable fields of the class.  [_glassPaneShadow] is the shadow root
    whose child list is [shadowChildren]. *)
Record Highlight := {
  _glassPaneElement : Element;
  _highlightEntries : list HighlightEntry;
  _actionPointElement : Element;
  _isUnderTest : bool;
  _rafRequest : option nat;
  _language : string
}.

Record World := {
  document : Document;
  this : Highlight;
  console : list string
}.

(** What the layout engine answers when asked. *)
Record Layout := {
  boundingClientRect : Element -> DOMRect.t;
  layoutWidth : Element -> Z;
  layoutHeight : Element -> Z
}.

(** The DOM calls of the class, as they are logged.  [AppendChild] appends
    to the shadow root of the glass pane, [AppendToDocumentElement] to the
    document element; [RemoveElement] detaches from either. *)
Inductive DomOp :=
| CreateElement (tag : string) (e : Element)
| AppendChild (e : Element)
| AppendToDocumentElement (e : Element)
| RemoveElement (e : Element)
| SetTextContent (e : Element) (text : string)
| SetStyle (e : Element) (prop value : string)
| GetBoundingClientRect (e : Element)
| GetOffsetWidth (e : Element)
| GetOffsetHeight (e : Element).

Definition isRead (op : DomOp) : bool :=
  match op with
  | GetBoundingClientRect _ | GetOffsetWidth _ | GetOffsetHeight _ => true
  | _ => false
  end.

Definition isWrite (op : DomOp) : bool := negb (isRead op).

Definition isStyleWrite (op : DomOp) : bool :=
  match op with SetStyle _ _ _ => true | _ => false end.

(** A write that is not a style write: creation, append, removal, text. *)
Definition isStructureWrite (op : DomOp) : bool :=
  isWrite op && negb (isStyleWrite op).

(** ** The monad: world passing, exceptions, a log of DOM calls *)

Definition M (A : Type) : Type := World -> option (A * World * list DomOp).

Definition ret {A} (a : A) : M A := fun w => Some (a, w, []).

Definition bind {A B} (m : M A) (f : A -> M B) : M B :=
  fun w =>
    match m w with
    | None => None
    | Some (a, w1, t1) =>
        match f a w1 with
        | None => None
        | Some (b, w2, t2) => Some (b, w2, t1 ++ t2)
        end
    end.

Definition throw {A} : M A := fun _ => None.

#[global] Instance M_ret : MRet M := @ret.
#[global] Instance M_bind : MBind M := fun A B f m => bind m f.

(** ** DOM primitives *)

Definition emptyData (tag : string) : ElementData :=
  {| tagName := tag; textContent := ""; style := ∅ |}.

Definition getData (d : Document) (e : Element) : ElementData :=
  default (emptyData "") (nodes d !! e).

Definition setNodes (f : gmap Element ElementData -> gmap Element ElementData)
    (d : Document) : Document :=
  {| nodes := f (nodes d); nextElement := nextElement d;
     shadowChildren := shadowChildren d; rootChildren := rootChildren d |}.

Definition without (e : Element) (l : list Element) : list Element :=
  filter (fun c => c <> e) l.

(** The effect of a logged call on the document. *)
Definition applyOp (op : DomOp) (d : Document) : Document :=
  match op with
  | CreateElement tag e =>
      {| nodes := <[e := emptyData tag]> (nodes d); nextElement := S e;
         shadowChildren := shadowChildren d; rootChildren := rootChildren d |}
  | AppendChild e =>
      {| nodes := nodes d; nextElement := nextElement d;
         shadowChildren := without e (shadowChildren d) ++ [e];
         rootChildren := without e (rootChildren d) |}
  | AppendToDocumentElement e =>
      {| nodes := nodes d; nextElement := nextElement d;
         shadowChildren := without e (shadowChildren d);
         rootChildren := without e (rootChildren d) ++ [e] |}
  | RemoveElement e =>
      {| nodes := nodes d; nextElement := nextElement d;
         shadowChildren := without e (shadowChildren d);
         rootChildren := without e (rootChildren d) |}
  | SetTextContent e text =>
      setNodes (fun n => <[e := {| tagName := tagName (getData d e);
                                   textContent := text;
                                   style := style (getData d e) |}]> n) d
  | SetStyle e prop value =>
      setNodes (fun n => <[e := {| tagName := tagName (getData d e);
                                   textContent := textContent (getData d e);
                                   style := <[prop := value]> (style (getData d e)) |}]> n) d
  | GetBoundingClientRect _ | GetOffsetWidth _ | GetOffsetHeight _ => d
  end.

Definition applyOps (ops : list DomOp) (d : Document) : Document :=
  fold_left (fun d op => applyOp op d) ops d.

Definition setDocument (d : Document) (w : World) : World :=
  {| document := d; this := this w; console := console w |}.

Definition setThis (h : Highlight) (w : World) : World :=
  {| document := document w; this := h; console := console w |}.

(** Perform one DOM call: change the document and log the call. *)
Definition perform (op : DomOp) : M unit :=
  fun w => Some (tt, setDocument (applyOp op (document w)) w, [op]).

Definition createElement (tag : string) : M Element :=
  fun w =>
    let e := nextElement (document w) in
    Some (e, setDocument (applyOp (CreateElement tag e) (document w)) w,
          [CreateElement tag e]).

Definition appendChild (e : Element) : M unit := perform (AppendChild e).
Definition remove (e : Element) : M unit := perform (RemoveElement e).
Definition setTextContent (e : Element) (s : string) : M unit :=
  perform (SetTextContent e s).
Definition setStyle (e : Element) (prop value : string) : M unit :=
  perform (SetStyle e prop value).

Definition getBoundingClientRect (L : Layout) (e : Element) : M DOMRect.t :=
  fun w => Some (boundingClientRect L e, w, [GetBoundingClientRect e]).
Definition offsetWidth (L : Layout) (e : Element) : M Z :=
  fun w => Some (layoutWidth L e, w, [GetOffsetWidth e]).
Definition offsetHeight (L : Layout) (e : Element) : M Z :=
  fun w => Some (layoutHeight L e, w, [GetOffsetHeight e]).

Definition getThis : M Highlight := fun w => Some (this w, w, []).

Definition withEntries (entries : list HighlightEntry) (h : Highlight) : Highlight :=
  {| _glassPaneElement := _glassPaneElement h;
     _highlightEntries := entries;
     _actionPointElement := _actionPointElement h;
     _isUnderTest := _isUnderTest h;
     _rafRequest := _rafRequest h;
     _language := _language h |}.

Definition setEntries (entries : list HighlightEntry) : M unit :=
  fun w => Some (tt, setThis (withEntries entries (this w)) w, []).

Definition consoleError (s : string) : M unit :=
  fun w => Some (tt, {| document := document w; this := this w;
                        console := console w ++ [s] |}, []).

(** ** Conversions of JavaScript *)

(** [if (s)] on a [string | undefined]. *)
Definition truthy (s : option string) : bool :=
  match s with
  | Some t => if decide (t = "") then false else true
  | None => false
  end.

(** [n + 'px'] on a [number | undefined]. *)
Definition px (n : option Z) : string :=
  match n with
  | Some z => pretty z +:+ "px"
  | None => "undefinedpx"
  end.

(** ** Tooltip placement *)

Record Anchor := { anchorLeft : Z; anchorTop : Z }.

Definition tooltipPosition (L : Layout) (box : DOMRect.t)
    (tooltipElement : Element) : M Anchor :=
  tooltipWidth ← offsetWidth L tooltipElement;
  tooltipHeight ← offsetHeight L tooltipElement;
  h ← getThis;
  totalWidth ← offsetWidth L (_glassPaneElement h);
  totalHeight ← offsetHeight L (_glassPaneElement h);
  let anchorLeft0 := DOMRect.left box in
  let anchorLeft1 :=
    if decide (anchorLeft0 + tooltipWidth > totalWidth - 5)
    then totalWidth - tooltipWidth - 5 else anchorLeft0 in
  let anchorTop0 := DOMRect.bottom box + 5 in
  let anchorTop1 :=
    if decide (anchorTop0 + tooltipHeight > totalHeight - 5) then
      (* If can't fit below, either position above... *)
      if decide (DOMRect.top box > tooltipHeight + 5)
      then DOMRect.top box - tooltipHeight - 5
      (* Or on top in case of large element *)
      else totalHeight - 5 - tooltipHeight
    else anchorTop0 in
  mret {| anchorLeft := anchorLeft1; anchorTop := anchorTop1 |}.

(** ** The registry: clear, up-to-date check, rebuild *)

Definition _createHighlightElement : M Element := createElement "x-pw-highlight".

Fixpoint removeEntries (entries : list HighlightEntry) : M unit :=
  match entries with
  | [] => mret tt
  | entry :: rest =>
      remove (highlightElement entry);;
      match tooltipElement entry with
      | Some tooltip => remove tooltip
      | None => mret tt
      end;;
      removeEntries rest
  end.

Definition clearHighlight : M unit :=
  h ← getThis;
  removeEntries (_highlightEntries h);;
  setEntries [].

(** [box.top !== oldBox.top || box.right !== oldBox.right || ...] *)
Definition edgesDiffer (box oldBox : DOMRect.t) : Prop :=
  DOMRect.top box <> DOMRect.top oldBox \/
  DOMRect.right box <> DOMRect.right oldBox \/
  DOMRect.bottom box <> DOMRect.bottom oldBox \/
  DOMRect.left box <> DOMRect.left oldBox.

#[global] Instance edgesDiffer_dec box oldBox : Decision (edgesDiffer box oldBox).
Proof. unfold edgesDiffer. apply _. Defined.

(** The loop of [_highlightIsUpToDate]; [elements] is the part of the
    argument from index [i] on, [entries] the registry from index [i] on.
    Past the end of [elements] the handle is [undefined], which differs
    from every target. *)
Fixpoint upToDateLoop (L : Layout) (text : option string)
    (elements : list Element) (entries : list HighlightEntry) : M bool :=
  match entries with
  | [] => mret true
  | entry :: restEntries =>
      if decide (text <> tooltipText entry) then mret false else
      match elements with
      | [] => mret false
      | element :: restElements =>
          if decide (element <> targetElement entry) then mret false else
          match box entry with
          | None => mret false
          | Some oldBox =>
              box ← getBoundingClientRect L element;
              if decide (edgesDiffer box oldBox) then mret false
              else upToDateLoop L text restElements restEntries
          end
      end
  end.

Definition _highlightIsUpToDate (L : Layout) (elements : list Element)
    (text : option string) : M bool :=
  h ← getThis;
  if decide (length elements <> length (_highlightEntries h)) then mret false
  else upToDateLoop L text elements (_highlightEntries h).

Definition pushEntry (entry : HighlightEntry) : M unit :=
  h ← getThis;
  setEntries (_highlightEntries h ++ [entry]).

(** [elements.length > 1 ? ` [${i + 1} of ${elements.length}]` : ''] *)
Definition suffix (N i : nat) : string :=
  if decide (1 < N)%nat
  then " [" +:+ pretty (i + 1)%nat +:+ " of " +:+ pretty N +:+ "]"
  else "".

(** The first loop of [_innerUpdateHighlight]; [elements] is the part of
    the argument from index [i] on and [N] its whole length. *)
Fixpoint buildLoop (options : HighlightOptions.t) (N i : nat)
    (elements : list Element) : M unit :=
  match elements with
  | [] => mret tt
  | element :: rest =>
      highlightElement ← _createHighlightElement;
      appendChild highlightElement;;
      tooltipElement ←
        (if truthy (HighlightOptions.tooltipText options) then
           tooltipElement ← createElement "x-pw-tooltip";
           appendChild tooltipElement;;
           setTextContent tooltipElement
             (default "" (HighlightOptions.tooltipText options) +:+ suffix N i);;
           setStyle tooltipElement "top" "0";;
           setStyle tooltipElement "left" "0";;
           setStyle tooltipElement "display" "flex";;
           mret (Some tooltipElement)
         else mret None);
      pushEntry {| targetElement := element;
                   tooltipElement := tooltipElement;
                   highlightElement := highlightElement;
                   box := None; tooltipTop := None; tooltipLeft := None;
                   tooltipText := HighlightOptions.tooltipText options |};;
      buildLoop options N (S i) rest
  end.

(** One iteration of the second loop: the entry as it is after it. *)
Definition measureEntry (L : Layout) (entry : HighlightEntry) : M HighlightEntry :=
  box ← getBoundingClientRect L (targetElement entry);
  match tooltipElement entry with
  | None =>
      mret {| targetElement := targetElement entry;
              highlightElement := highlightElement entry;
              tooltipElement := tooltipElement entry;
              box := Some box;
              tooltipTop := tooltipTop entry; tooltipLeft := tooltipLeft entry;
              tooltipText := tooltipText entry |}
  | Some tooltip =>
      (* Position tooltip, if any. *)
      anchor ← tooltipPosition L box tooltip;
      mret {| targetElement := targetElement entry;
              highlightElement := highlightElement entry;
              tooltipElement := tooltipElement entry;
              box := Some box;
              tooltipTop := Some (anchorTop anchor);
              tooltipLeft := Some (anchorLeft anchor);
              tooltipText := tooltipText entry |}
  end.

Fixpoint measureLoop (L : Layout) (entries : list HighlightEntry)
    : M (list HighlightEntry) :=
  match entries with
  | [] => mret []
  | entry :: rest =>
      entry' ← measureEntry L entry;
      rest' ← measureLoop L rest;
      mret (entry' :: rest')
  end.

Definition quote : string := String (Ascii.ascii_of_nat 34) EmptyString.

(** [JSON.stringify({ x: box.x, y: box.y, width: box.width, height: box.height })] *)
Definition boxJSON (box : DOMRect.t) : string :=
  "{" +:+ quote +:+ "x" +:+ quote +:+ ":" +:+ pretty (DOMRect.x box) +:+
  "," +:+ quote +:+ "y" +:+ quote +:+ ":" +:+ pretty (DOMRect.y box) +:+
  "," +:+ quote +:+ "width" +:+ quote +:+ ":" +:+ pretty (DOMRect.width box) +:+
  "," +:+ quote +:+ "height" +:+ quote +:+ ":" +:+ pretty (DOMRect.height box) +:+
  "}".

(** The third loop.  [entry.box!] is unchecked: reading [box.x] of an
    absent box throws. *)
Fixpoint paintLoop (color : string) (isUnderTest : bool)
    (entries : list HighlightEntry) : M unit :=
  match entries with
  | [] => mret tt
  | entry :: rest =>
      match tooltipElement entry with
      | Some tooltip =>
          setStyle tooltip "top" (px (tooltipTop entry));;
          setStyle tooltip "left" (px (tooltipLeft entry))
      | None => mret tt
      end;;
      setStyle (highlightElement entry) "backgroundColor" color;;
      box ← match box entry with Some b => mret b | None => throw end;
      setStyle (highlightElement entry) "left" (px (Some (DOMRect.x box)));;
      setStyle (highlightElement entry) "top" (px (Some (DOMRect.y box)));;
      setStyle (highlightElement entry) "width" (px (Some (DOMRect.width box)));;
      setStyle (highlightElement entry) "height" (px (Some (DOMRect.height box)));;
      setStyle (highlightElement entry) "display" "block";;
      (if isUnderTest
       then consoleError ("Highlight box for test: " +:+ boxJSON box)
       else mret tt);;
      paintLoop color isUnderTest rest
  end.

(** [let color = options.color; if (!color) color = ...] *)
Definition resolveColor (elements : list Element) (options : HighlightOptions.t)
    : string :=
  if truthy (HighlightOptions.color options)
  then default "" (HighlightOptions.color options)
  else if decide (1 < length elements)%nat then "#f6b26b7f" else "#6fa8dc7f".

(** [_innerUpdateHighlight] past the up-to-date check: steps 1 to 3. *)
Definition rebuild (L : Layout) (elements : list Element)
    (options : HighlightOptions.t) : M unit :=
  let color := resolveColor elements options in
  (* 1. Destroy the layout *)
  clearHighlight;;
  buildLoop options (length elements) 0 elements;;
  (* 2. Trigger layout while positioning tooltips and computing bounding boxes. *)
  h ← getThis;
  measured ← measureLoop L (_highlightEntries h);
  setEntries measured;;
  (* 3. Destroy the layout again. *)
  h ← getThis;
  paintLoop color (_isUnderTest h) (_highlightEntries h).

Definition _innerUpdateHighlight (L : Layout) (elements : list Element)
    (options : HighlightOptions.t) : M unit :=
  upToDate ← _highlightIsUpToDate L elements (HighlightOptions.tooltipText options);
  if (upToDate : bool) then mret tt else rebuild L elements options.

Definition updateHighlight (L : Layout) (elements : list Element)
    (options : HighlightOptions.t) : M unit :=
  _innerUpdateHighlight L elements options.

Definition maskElements (L : Layout) (elements : list Element)
    (color : option string) : M unit :=
  _innerUpdateHighlight L elements
    {| HighlightOptions.tooltipText := None;
       HighlightOptions.color :=
         Some (if truthy color then default "" color else "#F0F") |}.

(** [this._highlightEntries[0]?.box] *)
Definition firstBox : M (option DOMRect.t) :=
  h ← getThis;
  mret (match _highlightEntries h return option DOMRect.t with
        | [] => None
        | entry :: _ => box entry
        end).

(** ** Construction and the remaining methods *)

(** The DOM calls of the constructor that reach the store: listeners, the
    [hidden] attribute and [attachShadow] itself leave it as it is. *)
Definition constructorOps (highlightCSS : string) (glass : Element) : list DomOp :=
  [ CreateElement "x-pw-glass" glass;
    SetStyle glass "position" "fixed";
    SetStyle glass "top" "0";
    SetStyle glass "right" "0";
    SetStyle glass "bottom" "0";
    SetStyle glass "left" "0";
    SetStyle glass "zIndex" "2147483646";
    SetStyle glass "pointerEvents" "none";
    SetStyle glass "display" "flex";
    SetStyle glass "backgroundColor" "transparent";
    CreateElement "x-pw-action-point" (S glass);
    AppendChild (S glass);
    CreateElement "style" (S (S glass));
    SetTextContent (S (S glass)) highlightCSS;
    AppendChild (S (S glass)) ].

(** [new Highlight(injectedScript)] on page [d]: the shadow root starts
    empty. *)
Definition constructor (isUnderTest : bool) (highlightCSS : string)
    (d : Document) : World :=
  let glass := nextElement d in
  {| document :=
       applyOps (constructorOps highlightCSS glass)
         {| nodes := nodes d; nextElement := nextElement d;
            shadowChildren := []; rootChildren := rootChildren d |};
     this := {| _glassPaneElement := glass;
                _highlightEntries := [];
                _actionPointElement := S glass;
                _isUnderTest := isUnderTest;
                _rafRequest := None;
                _language := "javascript" |};
     console := [] |}.

Definition install : M unit :=
  h ← getThis;
  perform (AppendToDocumentElement (_glassPaneElement h)).

Definition setLanguage (language : string) : M unit :=
  fun w =>
    Some (tt,
          setThis {| _glassPaneElement := _glassPaneElement (this w);
                     _highlightEntries := _highlightEntries (this w);
                     _actionPointElement := _actionPointElement (this w);
                     _isUnderTest := _isUnderTest (this w);
                     _rafRequest := _rafRequest (this w);
                     _language := language |} w,
          []).

(** [this._rafRequest = request] *)
Definition setRafRequest (request : option nat) (w : World) : World :=
  setThis {| _glassPaneElement := _glassPaneElement (this w);
             _highlightEntries := _highlightEntries (this w);
             _actionPointElement := _actionPointElement (this w);
             _isUnderTest := _isUnderTest (this w);
             _rafRequest := request;
             _language := _language (this w) |} w.

(** ** Installation and the action point *)

(** The child that follows the first occurrence of [e] in [children]. *)
Fixpoint nextIn (e : Element) (children : list Element) : option Element :=
  match children with
  | [] => None
  | c :: rest => if decide (c = e) then head rest else nextIn e rest
  end.

(** [e.parentElement === document.documentElement] *)
Definition parentIsDocumentElement (d : Document) (e : Element) : bool :=
  bool_decide (e ∈ rootChildren d).

(** [e.nextElementSibling], among the children of the document element or
    of the surface. *)
Definition nextElementSibling (d : Document) (e : Element) : option Element :=
  if parentIsDocumentElement d e then nextIn e (rootChildren d)
  else nextIn e (shadowChildren d).

(** [isInstalled()] *)
Definition isInstalled : M bool :=
  h ← getThis;
  ((fun w =>
      Some (if parentIsDocumentElement (document w) (_glassPaneElement h)
            then match nextElementSibling (document w) (_glassPaneElement h) with
                 | Some _ => false
                 | None => true
                 end
            else false,
            w, [])) : M bool).

(** Another script appending [e] to the document element. *)
Definition foreignAppend (e : Element) (w : World) : World :=
  setDocument (applyOp (AppendToDocumentElement e) (document w)) w.

(** The overlay together with the [hidden] property of its action point,
    which the store of tags, texts and styles does not hold. *)
Record Overlay := {
  overlayWorld : World;
  actionPointHidden : bool
}.

(** What the methods of the action point write: a logged DOM call, or
    [e.hidden = value]. *)
Inductive PointOp :=
| DomCall (op : DomOp)
| SetHidden (e : Element) (value : bool).

(** [new Highlight(injectedScript)]: the constructor sets the [hidden]
    attribute of the action point. *)
Definition newOverlay (isUnderTest : bool) (highlightCSS : string) (d : Document)
    : Overlay :=
  {| overlayWorld := constructor isUnderTest highlightCSS d;
     actionPointHidden := true |}.

(** [showActionPoint(x, y)] *)
Definition showActionPoint (x y : Z) (o : Overlay)
    : option (unit * Overlay * list PointOp) :=
  let point := _actionPointElement (this (overlayWorld o)) in
  match ((setStyle point "top" (px (Some y));;
          setStyle point "left" (px (Some x))) : M unit) (overlayWorld o) with
  | None => None
  | Some (_, w, ops) =>
      Some (tt, {| overlayWorld := w; actionPointHidden := false |},
            map DomCall ops ++ [SetHidden point false])
  end.

(** [hideActionPoint()] *)
Definition hideActionPoint (o : Overlay) : option (unit * Overlay * list PointOp) :=
  Some (tt, {| overlayWorld := overlayWorld o; actionPointHidden := true |},
        [SetHidden (_actionPointElement (this (overlayWorld o))) true]).

(** ** The life of an overlay *)

(** A call of a method of the class other than the loop's. *)
Inductive methodStep : World -> World -> Prop :=
| step_updateHighlight L elements options w w' ops :
    updateHighlight L elements options w = Some (tt, w', ops) -> methodStep w w'
| step_maskElements L elements color w w' ops :
    maskElements L elements color w = Some (tt, w', ops) -> methodStep w w'
| step_clearHighlight w w' ops :
    clearHighlight w = Some (tt, w', ops) -> methodStep w w'
| step_install w w' ops :
    install w = Some (tt, w', ops) -> methodStep w w'
| step_setLanguage language w w' ops :
    setLanguage language w = Some (tt, w', ops) -> methodStep w w'
| step_appendChild element w w' ops :
    appendChild element w = Some (tt, w', ops) -> methodStep w w'.

(** The worlds an overlay goes through: from its construction on, method
    calls, the loop's assignments to [_rafRequest] and [uninstall]'s
    removal of the glass pane. *)
Inductive reachable : World -> Prop :=
| reachable_constructor isUnderTest highlightCSS d :
    reachable (constructor isUnderTest highlightCSS d)
| reachable_method w w' :
    reachable w -> methodStep w w' -> reachable w'
| reachable_rafRequest w request :
    reachable w -> reachable (setRafRequest request w)
| reachable_remove w w' ops :
    reachable w -> remove (_glassPaneElement (this w)) w = Some (tt, w', ops) ->
    reachable w'.

(** ** The per-frame loop *)

Section Loop.

(** Code of the repository outside this file: the selector type, its
    stringifier and the locator generator (language first). *)
Variable ParsedSelector : Type.
Variable stringifySelector : ParsedSelector -> string.
Variable asLocator : string -> string -> string.

(** The page at the time of a call: its layout and what
    [injectedScript.querySelectorAll(selector, documentElement)] matches. *)
Record Page := {
  layout : Layout;
  querySelectorAll : ParsedSelector -> list Element
}.

(** The window's animation frames, as the HTML standard has them: the
    ordered map of pending callbacks of this overlay, by handle, and the
    callback identifier, which only grows.  A callback
    [() => this.runHighlightOnRaf(selector)] is kept as its selector. *)
Record Window := {
  animationFrameCallbacks : list (nat * ParsedSelector);
  animationFrameCallbackIdentifier : nat
}.

(** [updateCalls] records each call of [updateHighlight] made by the loop. *)
Record Tab := {
  world : World;
  window : Window;
  updateCalls : list (list Element * HighlightOptions.t)
}.

Definition requestAnimationFrame (callback : ParsedSelector) (win : Window)
    : nat * Window :=
  let handle := S (animationFrameCallbackIdentifier win) in
  (handle,
   {| animationFrameCallbacks := animationFrameCallbacks win ++ [(handle, callback)];
      animationFrameCallbackIdentifier := handle |}).

Definition cancelAnimationFrame (handle : nat) (win : Window) : Window :=
  {| animationFrameCallbacks :=
       filter (fun c => fst c <> handle) (animationFrameCallbacks win);
     animationFrameCallbackIdentifier := animationFrameCallbackIdentifier win |}.

(** [if (this._rafRequest) cancelAnimationFrame(this._rafRequest)] *)
Definition cancelRafRequest (h : Highlight) (win : Window) : Window :=
  match _rafRequest h with
  | Some request =>
      if decide (request <> 0%nat) then cancelAnimationFrame request win else win
  | None => win
  end.

Definition loopOptions (h : Highlight) (selector : ParsedSelector)
    : HighlightOptions.t :=
  {| HighlightOptions.tooltipText :=
       Some (asLocator (_language h) (stringifySelector selector));
     HighlightOptions.color := None |}.

Definition runHighlightOnRaf (page : Page) (selector : ParsedSelector) (tab : Tab)
    : option Tab :=
  let win := cancelRafRequest (this (world tab)) (window tab) in
  let elements := querySelectorAll page selector in
  let options := loopOptions (this (world tab)) selector in
  match updateHighlight (layout page) elements options (world tab) with
  | None => None
  | Some (_, w, _) =>
      let (request, win') := requestAnimationFrame selector win in
      Some {| world := setRafRequest (Some request) w;
              window := win';
              updateCalls := updateCalls tab ++ [(elements, options)] |}
  end.

Definition uninstall (tab : Tab) : option Tab :=
  let win := cancelRafRequest (this (world tab)) (window tab) in
  match remove (_glassPaneElement (this (world tab))) (world tab) with
  | None => None
  | Some (_, w, _) =>
      Some {| world := w; window := win; updateCalls := updateCalls tab |}
  end.

Fixpoint callbackOf (handle : nat) (callbacks : list (nat * ParsedSelector))
    : option ParsedSelector :=
  match callbacks with
  | [] => None
  | (h, callback) :: rest =>
      if decide (h = handle) then Some callback else callbackOf handle rest
  end.

(** The browser running the animation frame callbacks: each handle that
    was pending when the frame began and is still in the map is removed
    from it and its callback invoked. *)
Fixpoint runCallbacks (page : Page) (handles : list nat) (tab : Tab) : option Tab :=
  match handles with
  | [] => Some tab
  | handle :: rest =>
      match callbackOf handle (animationFrameCallbacks (window tab)) with
      | None => runCallbacks page rest tab
      | Some selector =>
          match runHighlightOnRaf page selector
                  {| world := world tab;
                     window := cancelAnimationFrame handle (window tab);
                     updateCalls := updateCalls tab |} with
          | None => None
          | Some tab' => runCallbacks page rest tab'
          end
      end
  end.

Definition animationFrame (page : Page) (tab : Tab) : option Tab :=
  runCallbacks page (map fst (animationFrameCallbacks (window tab))) tab.

(** What can happen to a tab: a [start], an animation frame, [uninstall],
    another method of the class, or another script asking for a frame
    (which uses up a handle). *)
Inductive tabStep : Tab -> Tab -> Prop :=
| tab_start page selector tab tab' :
    runHighlightOnRaf page selector tab = Some tab' -> tabStep tab tab'
| tab_frame page tab tab' :
    animationFrame page tab = Some tab' -> tabStep tab tab'
| tab_uninstall tab tab' :
    uninstall tab = Some tab' -> tabStep tab tab'
| tab_method tab w' :
    methodStep (world tab) w' ->
    tabStep tab {| world := w'; window := window tab;
                   updateCalls := updateCalls tab |}
| tab_foreign tab :
    tabStep tab
      {| world := world tab;
         window :=
           {| animationFrameCallbacks := animationFrameCallbacks (window tab);
              animationFrameCallbackIdentifier :=
                S (animationFrameCallbackIdentifier (window tab)) |};
         updateCalls := updateCalls tab |}.

Inductive tabReachable : Tab -> Prop :=
| tab_new isUnderTest highlightCSS d identifier :
    tabReachable
      {| world := constructor isUnderTest highlightCSS d;
         window := {| animationFrameCallbacks := [];
                      animationFrameCallbackIdentifier := identifier |};
         updateCalls := [] |}
| tab_step tab tab' : tabReachable tab -> tabStep tab tab' -> tabReachable tab'.

(** The loop's invariant: no callback is pending, or exactly one, whose
    handle is the one [_rafRequest] holds. *)
Definition singleCallback (tab : Tab) : Prop :=
  animationFrameCallbacks (window tab) = [] \/
  exists handle selector,
    animationFrameCallbacks (window tab) = [(handle, selector)] /\
    _rafRequest (this (world tab)) = Some handle /\ handle <> 0%nat.

End Loop.

Arguments layout {ParsedSelector}.
Arguments querySelectorAll {ParsedSelector}.
Arguments animationFrameCallbacks {ParsedSelector}.
Arguments animationFrameCallbackIdentifier {ParsedSelector}.
Arguments world {ParsedSelector}.
Arguments window {ParsedSelector}.
Arguments updateCalls {ParsedSelector}.
Arguments requestAnimationFrame {ParsedSelector}.
Arguments cancelAnimationFrame {ParsedSelector}.
Arguments cancelRafRequest {ParsedSelector}.
Arguments uninstall {ParsedSelector}.
Arguments callbackOf {ParsedSelector}.
Arguments tabStep {ParsedSelector}.
Arguments tabReachable {ParsedSelector}.
Arguments singleCallback {ParsedSelector}.


(** * Vocabulary of the properties *)

(** ** The calls and the result of each pass

    Each loop of the class is matched by the list of DOM calls it makes and
    by the entries it leaves; the [_run] lemmas below prove the match. *)

(** The calls of [clearHighlight] for one entry. *)
Definition entryRemoveOps (entry : HighlightEntry) : list DomOp :=
  RemoveElement (highlightElement entry) ::
  match tooltipElement entry with
  | Some tooltip => [RemoveElement tooltip]
  | None => []
  end.

Definition removeOps (entries : list HighlightEntry) : list DomOp :=
  flat_map entryRemoveOps entries.

Arguments applyOp : simpl never.

(** [box] and [oldBox] agree on top, right, bottom and left. *)
Definition sameEdges (box oldBox : DOMRect.t) : Prop :=
  DOMRect.top box = DOMRect.top oldBox /\
  DOMRect.right box = DOMRect.right oldBox /\
  DOMRect.bottom box = DOMRect.bottom oldBox /\
  DOMRect.left box = DOMRect.left oldBox.

(** What one iteration of the check asks of position [i]. *)
Definition entryUpToDate (L : Layout) (text : option string)
    (element : Element) (entry : HighlightEntry) : Prop :=
  text = tooltipText entry /\
  element = targetElement entry /\
  exists oldBox, box entry = Some oldBox /\
                 sameEdges (boundingClientRect L element) oldBox.

(** The five conditions (a) to (e) of the up-to-date check. *)
Definition UpToDate (L : Layout) (elements : list Element)
    (text : option string) (entries : list HighlightEntry) : Prop :=
  length elements = length entries /\
  (forall entry, entry ∈ entries -> text = tooltipText entry) /\
  (forall i element entry,
      elements !! i = Some element -> entries !! i = Some entry ->
      element = targetElement entry) /\
  (forall entry, entry ∈ entries -> is_Some (box entry)) /\
  (forall i element entry oldBox,
      elements !! i = Some element -> entries !! i = Some entry ->
      box entry = Some oldBox ->
      sameEdges (boundingClientRect L element) oldBox).

(** Kinds of traces. *)
Definition allReads (t : list DomOp) : Prop := Forall (fun op => isRead op = true) t.

Definition allWrites (t : list DomOp) : Prop := Forall (fun op => isWrite op = true) t.

Definition allStyleWrites (t : list DomOp) : Prop :=
  Forall (fun op => isStyleWrite op = true) t.

(** The entry the build pass pushes for [element] when the allocation
    counter is [n]. *)
Definition builtEntry (options : HighlightOptions.t) (element n : Element)
    : HighlightEntry :=
  {| targetElement := element;
     highlightElement := n;
     tooltipElement :=
       if truthy (HighlightOptions.tooltipText options) then Some (S n) else None;
     box := None; tooltipTop := None; tooltipLeft := None;
     tooltipText := HighlightOptions.tooltipText options |}.

(** The allocation counter after one iteration that started at [n]. *)
Definition afterEntry (options : HighlightOptions.t) (n : Element) : Element :=
  if truthy (HighlightOptions.tooltipText options) then S (S n) else S n.

Fixpoint builtEntries (options : HighlightOptions.t) (n : Element)
    (elements : list Element) : list HighlightEntry :=
  match elements with
  | [] => []
  | element :: rest =>
      builtEntry options element n :: builtEntries options (afterEntry options n) rest
  end.

(** [options.tooltipText + suffix] *)
Definition tooltipTextOf (options : HighlightOptions.t) (N i : nat) : string :=
  default "" (HighlightOptions.tooltipText options) +:+ suffix N i.

(** The calls of one iteration of the build pass. *)
Definition entryBuildOps (options : HighlightOptions.t) (N i : nat) (n : Element)
    : list DomOp :=
  [CreateElement "x-pw-highlight" n; AppendChild n] ++
  (if truthy (HighlightOptions.tooltipText options) then
     [CreateElement "x-pw-tooltip" (S n); AppendChild (S n);
      SetTextContent (S n) (tooltipTextOf options N i);
      SetStyle (S n) "top" "0"; SetStyle (S n) "left" "0";
      SetStyle (S n) "display" "flex"]
   else []).

Fixpoint buildOps (options : HighlightOptions.t) (N i : nat) (n : Element)
    (elements : list Element) : list DomOp :=
  match elements with
  | [] => []
  | _ :: rest =>
      entryBuildOps options N i n ++
      buildOps options N (S i) (afterEntry options n) rest
  end.

Arguments suffix : simpl never.

(** The anchor [tooltipPosition] returns, from the sizes of the tooltip and
    of the glass pane. *)
Definition anchorAt (L : Layout) (glass : Element) (box : DOMRect.t)
    (tooltip : Element) : Anchor :=
  {| anchorLeft :=
       if decide (DOMRect.left box + layoutWidth L tooltip > layoutWidth L glass - 5)
       then layoutWidth L glass - layoutWidth L tooltip - 5
       else DOMRect.left box;
     anchorTop :=
       if decide (DOMRect.bottom box + 5 + layoutHeight L tooltip
                  > layoutHeight L glass - 5)
       then if decide (DOMRect.top box > layoutHeight L tooltip + 5)
            then DOMRect.top box - layoutHeight L tooltip - 5
            else layoutHeight L glass - 5 - layoutHeight L tooltip
       else DOMRect.bottom box + 5 |}.

(** The entry as the measure pass leaves it. *)
Definition measuredEntry (L : Layout) (glass : Element) (entry : HighlightEntry)
    : HighlightEntry :=
  let box := boundingClientRect L (targetElement entry) in
  {| targetElement := targetElement entry;
     highlightElement := highlightElement entry;
     tooltipElement := tooltipElement entry;
     box := Some box;
     tooltipTop :=
       match tooltipElement entry with
       | Some tooltip => Some (anchorTop (anchorAt L glass box tooltip))
       | None => tooltipTop entry
       end;
     tooltipLeft :=
       match tooltipElement entry with
       | Some tooltip => Some (anchorLeft (anchorAt L glass box tooltip))
       | None => tooltipLeft entry
       end;
     tooltipText := tooltipText entry |}.

(** The reads of one iteration of the measure pass. *)
Definition entryMeasureOps (glass : Element) (entry : HighlightEntry) : list DomOp :=
  GetBoundingClientRect (targetElement entry) ::
  match tooltipElement entry with
  | Some tooltip =>
      [GetOffsetWidth tooltip; GetOffsetHeight tooltip;
       GetOffsetWidth glass; GetOffsetHeight glass]
  | None => []
  end.

Definition measureOps (glass : Element) (entries : list HighlightEntry) : list DomOp :=
  flat_map (entryMeasureOps glass) entries.

(** The style writes of one iteration of the paint pass. *)
Definition entryPaintOps (color : string) (entry : HighlightEntry) : list DomOp :=
  match tooltipElement entry with
  | Some tooltip =>
      [SetStyle tooltip "top" (px (tooltipTop entry));
       SetStyle tooltip "left" (px (tooltipLeft entry))]
  | None => []
  end ++
  SetStyle (highlightElement entry) "backgroundColor" color ::
  match box entry with
  | Some box =>
      [SetStyle (highlightElement entry) "left" (px (Some (DOMRect.x box)));
       SetStyle (highlightElement entry) "top" (px (Some (DOMRect.y box)));
       SetStyle (highlightElement entry) "width" (px (Some (DOMRect.width box)));
       SetStyle (highlightElement entry) "height" (px (Some (DOMRect.height box)));
       SetStyle (highlightElement entry) "display" "block"]
  | None => []
  end.

Definition paintOps (color : string) (entries : list HighlightEntry) : list DomOp :=
  flat_map (entryPaintOps color) entries.

(** What the paint pass prints under test. *)
Definition entryLog (entry : HighlightEntry) : list string :=
  match box entry with
  | Some box => ["Highlight box for test: " +:+ boxJSON box]
  | None => []
  end.

Definition paintLog (isUnderTest : bool) (entries : list HighlightEntry) : list string :=
  if isUnderTest then flat_map entryLog entries else [].

(** Every entry has a recorded box. *)
Definition measured (entries : list HighlightEntry) : Prop :=
  Forall (fun entry => is_Some (box entry)) entries.

Arguments px : simpl never.

Arguments boxJSON : simpl never.

(** The registry, the calls and the world of a whole rebuild. *)
Definition rebuiltEntries (L : Layout) (elements : list Element)
    (options : HighlightOptions.t) (w : World) : list HighlightEntry :=
  map (measuredEntry L (_glassPaneElement (this w)))
      (builtEntries options (nextElement (document w)) elements).

Definition rebuildOps (L : Layout) (elements : list Element)
    (options : HighlightOptions.t) (w : World) : list DomOp :=
  removeOps (_highlightEntries (this w)) ++
  buildOps options (length elements) 0 (nextElement (document w)) elements ++
  measureOps (_glassPaneElement (this w))
    (builtEntries options (nextElement (document w)) elements) ++
  paintOps (resolveColor elements options) (rebuiltEntries L elements options w).

Definition rebuilt (L : Layout) (elements : list Element)
    (options : HighlightOptions.t) (w : World) : World :=
  {| document := applyOps (rebuildOps L elements options w) (document w);
     this := withEntries (rebuiltEntries L elements options w) (this w);
     console :=
       console w ++
       paintLog (_isUnderTest (this w)) (rebuiltEntries L elements options w) |}.

(** ** No-ops and changes *)

(** A trace without a DOM write. *)
Definition noMutation (ops : list DomOp) : Prop :=
  Forall (fun op => isWrite op = false) ops.

(** The geometry of [elements] is the same under both layouts. *)
Definition sameGeometry (L L' : Layout) (elements : list Element) : Prop :=
  forall element, element ∈ elements ->
    sameEdges (boundingClientRect L' element) (boundingClientRect L element).

(** What changed between a call [(L, elements, text)] and the next call
    [(L', elements', text')]: the element count, the element at some
    position, the tooltip text, or an edge of some element's box. *)
Definition requestChanged (L : Layout) (elements : list Element)
    (text : option string) (L' : Layout) (elements' : list Element)
    (text' : option string) : Prop :=
  length elements' <> length elements \/
  (exists i : nat, i < length elements /\ elements' !! i <> elements !! i)%nat \/
  text' <> text \/
  (exists element, element ∈ elements' /\
     ~ sameEdges (boundingClientRect L' element) (boundingClientRect L element)).

(** ** Colors, removals, phases, texts *)

(** [e.style.backgroundColor] *)
Definition backgroundColor (d : Document) (e : Element) : option string :=
  style (getData d e) !! "backgroundColor".

(** A call that keeps a box painted in [color]: a style write of another
    property, or of this very color. *)
Definition keepsColor (color : string) (op : DomOp) : Prop :=
  match op with
  | SetStyle _ prop value => prop <> "backgroundColor" \/ value = color
  | _ => False
  end.

Ltac Forall_list :=
  simpl; repeat first [apply Forall_nil_2 | apply Forall_cons_2].

(** A call that paints no box in another color than [color]. *)
Definition paintsColor (color : string) (op : DomOp) : Prop :=
  match op with
  | SetStyle _ prop value => prop = "backgroundColor" -> value = color
  | _ => True
  end.

(** The color [maskElements] passes on: [color ? color : '#F0F']. *)
Definition maskColor (color : option string) : string :=
  if truthy color then default "" color else "#F0F".

(** A removal. *)
Definition isRemove (op : DomOp) : Prop :=
  match op with RemoveElement _ => True | _ => False end.

(** The elements whose bounding box a trace reads, in order. *)
Definition boxReads (ops : list DomOp) : list Element :=
  omap (fun op => match op with GetBoundingClientRect e => Some e | _ => None end) ops.

(** The calls of the first phase: removals of the previous elements,
    creations and appends, and the text and initial style of a tooltip. *)
Definition isBuildWrite (op : DomOp) : Prop :=
  match op with
  | RemoveElement _ | CreateElement _ _ | AppendChild _ | SetTextContent _ _ => True
  | SetStyle _ prop value =>
      (prop = "top" /\ value = "0") \/ (prop = "left" /\ value = "0") \/
      (prop = "display" /\ value = "flex")
  | _ => False
  end.

(** The partition with every style write after the reads: writes that are
    not style writes (creation and append, and also removal and text),
    then geometry reads, then style writes. *)
Definition strictPhases (ops : list DomOp) : Prop :=
  exists creates reads styles,
    ops = creates ++ reads ++ styles /\
    Forall (fun op => isStructureWrite op = true) creates /\
    allReads reads /\ allStyleWrites styles.

(** A decision procedure for [strictPhases]. *)
Fixpoint fromReads (ops : list DomOp) : bool :=
  match ops with
  | [] => true
  | op :: rest => (isRead op && fromReads rest) || forallb isStyleWrite ops
  end.

Fixpoint fromCreates (ops : list DomOp) : bool :=
  match ops with
  | [] => true
  | op :: rest => (isStructureWrite op && fromCreates rest) || fromReads ops
  end.

(** Every tooltip of the registry shows the entry's text, followed by its
    position among the entries when there are several. *)
Definition tooltipsRendered (w : World) : Prop :=
  forall (i : nat) entry t,
    _highlightEntries (this w) !! i = Some entry ->
    tooltipText entry = Some t -> t <> "" ->
    exists tooltip,
      tooltipElement entry = Some tooltip /\
      textContent (getData (document w) tooltip)
      = t +:+ suffix (length (_highlightEntries (this w))) i.

(** ** Ownership, styles and output *)

(** An integer that a JavaScript number holds exactly, so that [n + 'px']
    is its decimal notation followed by [px]. *)
Definition safeInteger (n : Z) : Prop :=
  -9007199254740992 < n < 9007199254740992.

(** The elements an entry owns: its highlight element and its tooltip
    element, if any. *)
Definition entryElements (entry : HighlightEntry) : list Element :=
  highlightElement entry :: option_list (tooltipElement entry).

Definition ownedElements (entries : list HighlightEntry) : list Element :=
  flat_map entryElements entries.

(** The element a DOM call is made on. *)
Definition opElement (op : DomOp) : Element :=
  match op with
  | CreateElement _ e | AppendChild e | AppendToDocumentElement e
  | RemoveElement e | SetTextContent e _ | SetStyle e _ _
  | GetBoundingClientRect e | GetOffsetWidth e | GetOffsetHeight e => e
  end.

(** The element whose tag, text or style a DOM call sets, if any. *)
Definition dataWrite (op : DomOp) : option Element :=
  match op with
  | CreateElement _ e | SetTextContent e _ | SetStyle e _ _ => Some e
  | _ => None
  end.

(** How many elements a build pass for [elements] creates. *)
Definition allocated (options : HighlightOptions.t) (elements : list Element) : nat :=
  (if truthy (HighlightOptions.tooltipText options) then 2 else 1) * length elements.

(** A call that detaches no element. *)
Definition noDetach (op : DomOp) : Prop :=
  match op with
  | RemoveElement _ | AppendToDocumentElement _ => False
  | _ => True
  end.

(** A call that leaves the child lists as they are. *)
Definition keepsChildren (op : DomOp) : Prop :=
  match op with
  | RemoveElement _ | AppendToDocumentElement _ | AppendChild _ => False
  | _ => True
  end.

(** What the overlay owns: the action point follows the glass pane, both
    and the style element are allocated, and the elements of the registry
    are distinct, were allocated after them and are children of the
    surface. *)
Definition overlayOwns (w : World) : Prop :=
  _actionPointElement (this w) = S (_glassPaneElement (this w)) /\
  (S (S (_glassPaneElement (this w))) < nextElement (document w))%nat /\
  NoDup (ownedElements (_highlightEntries (this w))) /\
  (forall e, e ∈ ownedElements (_highlightEntries (this w)) ->
     (S (S (_glassPaneElement (this w))) < e < nextElement (document w))%nat) /\
  (forall e, e ∈ ownedElements (_highlightEntries (this w)) ->
     e ∈ shadowChildren (document w)).

(** [e.style[prop]] *)
Definition styleOf (d : Document) (e : Element) (prop : string) : option string :=
  style (getData d e) !! prop.

(** A call that leaves [e.style[prop]] as it is. *)
Definition keepsStyle (e : Element) (prop : string) (op : DomOp) : Prop :=
  match op with
  | CreateElement _ e' => e' <> e
  | SetStyle e' prop' _ => e' <> e \/ prop' <> prop
  | _ => True
  end.

(** The styles an entry's elements carry once painted. *)
Definition entryPainted (d : Document) (entry : HighlightEntry) : Prop :=
  exists b,
    box entry = Some b /\
    styleOf d (highlightElement entry) "left" = Some (px (Some (DOMRect.x b))) /\
    styleOf d (highlightElement entry) "top" = Some (px (Some (DOMRect.y b))) /\
    styleOf d (highlightElement entry) "width" = Some (px (Some (DOMRect.width b))) /\
    styleOf d (highlightElement entry) "height" = Some (px (Some (DOMRect.height b))) /\
    styleOf d (highlightElement entry) "display" = Some "block" /\
    forall tooltip, tooltipElement entry = Some tooltip ->
      styleOf d tooltip "top" = Some (px (tooltipTop entry)) /\
      styleOf d tooltip "left" = Some (px (tooltipLeft entry)) /\
      styleOf d tooltip "display" = Some "flex".

Definition registryPainted (w : World) : Prop :=
  forall entry, entry ∈ _highlightEntries (this w) -> entryPainted (document w) entry.

(** One text for the whole registry, a tooltip exactly for a non-empty
    text. *)
Definition entriesUniform (entries : list HighlightEntry) : Prop :=
  exists text,
    Forall (fun entry =>
              tooltipText entry = text /\
              (is_Some (tooltipElement entry) <-> truthy text = true)) entries.

(** The line the paint pass prints for [element] under test. *)
Definition boxLine (L : Layout) (element : Element) : string :=
  "Highlight box for test: " +:+ boxJSON (boundingClientRect L element).

(** A call that creates a tooltip or sets a text. *)
Definition isTooltipOp (op : DomOp) : Prop :=
  match op with
  | CreateElement tag _ => tag = "x-pw-tooltip"
  | SetTextContent _ _ => True
  | _ => False
  end.

(** ** The loop on a page that does not change *)

Section LoopVocabulary.

Context {ParsedSelector : Type}.

Variable stringifySelector : ParsedSelector -> string.

Variable asLocator : string -> string -> string.

(** [n] animation frames in a row on the same page. *)
Fixpoint frames (page : Page ParsedSelector) (n : nat) (tab : Tab ParsedSelector)
    : option (Tab ParsedSelector) :=
  match n with
  | O => Some tab
  | S k =>
      match animationFrame ParsedSelector stringifySelector asLocator page tab with
      | None => None
      | Some tab' => frames page k tab'
      end
  end.

(** The loop tracks [selector] on [page] and has nothing to do. *)
Definition steady (page : Page ParsedSelector) (selector : ParsedSelector)
    (tab : Tab ParsedSelector) : Prop :=
  (exists handle,
     animationFrameCallbacks (window tab) = [(handle, selector)] /\
     _rafRequest (this (world tab)) = Some handle /\ handle <> 0%nat) /\
  UpToDate (layout page) (querySelectorAll page selector)
    (HighlightOptions.tooltipText
       (loopOptions ParsedSelector stringifySelector asLocator
          (this (world tab)) selector))
    (_highlightEntries (this (world tab))).

End LoopVocabulary.

(** ** Concrete inputs *)

Definition emptyDocument : Document :=
  {| nodes := ∅; nextElement := 100%nat; shadowChildren := []; rootChildren := [] |}.

Definition rectOf (x y width height : Z) : DOMRect.t :=
  DOMRect.mk x y width height y (x + width) (y + height) x.

(** A page 800 by 600 (the glass pane is element 100) whose element [e]
    is a 30 by 10 box at (e, 20), with tooltips 50 by 16. *)
Definition exampleLayout : Layout :=
  {| boundingClientRect := fun e => rectOf (Z.of_nat e) 20 30 10;
     layoutWidth := fun e => if decide (e = 100%nat) then 800 else 50;
     layoutHeight := fun e => if decide (e = 100%nat) then 600 else 16 |}.

Definition exampleWorld : World := constructor true "css" emptyDocument.

Definition fooOptions : HighlightOptions.t := HighlightOptions.mk (Some "foo") None.

Definition redOptions : HighlightOptions.t :=
  HighlightOptions.mk (Some "foo") (Some "red").

Definition blueOptions : HighlightOptions.t :=
  HighlightOptions.mk (Some "foo") (Some "blue").

(** The claim of C5 as it is worded, at one call: after the call every
    box of the registry carries the resolved color. *)
Definition paintsEveryBox (L : Layout) (elements : list Element)
    (options : HighlightOptions.t) (w : World) : Prop :=
  exists w' ops,
    updateHighlight L elements options w = Some (tt, w', ops) /\
    forall entry, entry ∈ _highlightEntries (this w') ->
      backgroundColor (document w') (highlightElement entry)
      = Some (resolveColor elements options).

(** The claim of C3 as it is worded, at one call. *)
Definition strictThreePhases (L : Layout) (elements : list Element)
    (options : HighlightOptions.t) (w : World) : Prop :=
  (forall element, element ∈ elements ->
     element ∉ map targetElement (_highlightEntries (this w))) ->
  exists w' ops,
    updateHighlight L elements options w = Some (tt, w', ops) /\
    boxReads ops = elements /\
    strictPhases ops.

(** The example world after [updateHighlight([1], {tooltipText: 'foo',
    color: 'red'})]. *)
Definition exampleWorld1 : World := rebuilt exampleLayout [1%nat] redOptions exampleWorld.

Definition exampleTab : Tab string :=
  {| world := exampleWorld;
     window := {| animationFrameCallbacks := [];
                  animationFrameCallbackIdentifier := 7 |};
     updateCalls := [] |}.

Definition exampleLocator (language selector : string) : string :=
  language +:+ ":" +:+ selector.

(** A page on which the selector [s] matches the elements 1 .. length s. *)
Definition examplePage : Page string :=
  {| layout := exampleLayout;
     querySelectorAll := fun selector => seq 1 (String.length selector) |}.

(** An entry that was never measured. *)
Definition unmeasuredEntry : HighlightEntry :=
  {| targetElement := 1%nat; highlightElement := 103%nat; tooltipElement := None;
     box := None; tooltipTop := None; tooltipLeft := None; tooltipText := None |}.

(** A page whose document element has the children 1 and 2. *)
Definition examplePageDocument : Document :=
  {| nodes := ∅; nextElement := 100%nat; shadowChildren := [];
     rootChildren := [1%nat; 2%nat] |}.

(** The overlay of [exampleWorld1], its action point still hidden. *)
Definition exampleOverlay1 : Overlay :=
  {| overlayWorld := exampleWorld1; actionPointHidden := true |}.

(** The new tab after [install()]. *)
Definition exampleTabInstalled : Tab string :=
  {| world :=
       setDocument (applyOp (AppendToDocumentElement 100%nat) (document exampleWorld))
         exampleWorld;
     window := window exampleTab;
     updateCalls := updateCalls exampleTab |}.

(** The installed tab after [runHighlightOnRaf] for the selector [a]: one
    entry in the registry and one callback pending. *)
Definition exampleTabRunning : Tab string :=
  default exampleTabInstalled
    (runHighlightOnRaf string id exampleLocator examplePage "a" exampleTabInstalled).

(** The entry of [exampleWorld1]. *)
Definition exampleEntry1 : HighlightEntry :=
  measuredEntry exampleLayout 100%nat (builtEntry redOptions 1%nat 103%nat).

(** * Properties *)

(** ** Running the monad *)

Lemma bind_run {A B} (m : M A) (f : A -> M B) w a w1 t1 :
  m w = Some (a, w1, t1) ->
  (m ≫= f) w =
  match f a w1 with
  | Some (b, w2, t2) => Some (b, w2, t1 ++ t2)
  | None => None
  end.
Proof. intros H. unfold mbind, M_bind, bind. rewrite H. reflexivity. Qed.

(** ** Tooltip placement (C2) *)

(** C2.  For every target box, tooltip size (w, h) and surface size (W, H),
    [tooltipPosition] reads the four sizes, changes nothing, and returns
    anchorLeft = box.left when box.left + w <= W - 5 and W - w - 5
    otherwise; anchorTop = box.bottom + 5 when box.bottom + 5 + h <= H - 5,
    otherwise box.top - h - 5 when box.top > h + 5 and H - 5 - h when
    box.top <= h + 5.  In particular anchorLeft = W - w - 5 when
    box.left + w exceeds W, and anchorTop = H - 5 - h when the tooltip fits
    neither below nor above. *)
Theorem tooltipPosition_placement (L : Layout) (box : DOMRect.t)
    (tooltip : Element) (world : World) :
  let w := layoutWidth L tooltip in
  let h := layoutHeight L tooltip in
  let W := layoutWidth L (_glassPaneElement (this world)) in
  let H := layoutHeight L (_glassPaneElement (this world)) in
  exists a : Anchor,
    tooltipPosition L box tooltip world =
      Some (a, world,
            [GetOffsetWidth tooltip; GetOffsetHeight tooltip;
             GetOffsetWidth (_glassPaneElement (this world));
             GetOffsetHeight (_glassPaneElement (this world))]) /\
    anchorLeft a =
      (if decide (DOMRect.left box + w <= W - 5)
       then DOMRect.left box else W - w - 5) /\
    anchorTop a =
      (if decide ((DOMRect.bottom box + 5) + h <= H - 5)
       then DOMRect.bottom box + 5
       else if decide (DOMRect.top box > h + 5)
            then DOMRect.top box - h - 5
            else H - 5 - h) /\
    (DOMRect.left box + w > W -> anchorLeft a = W - w - 5) /\
    ((DOMRect.bottom box + 5) + h > H - 5 -> DOMRect.top box <= h + 5 ->
     anchorTop a = H - 5 - h).
Proof.
  intros w h W H.
  eexists. split; [reflexivity|]. cbn [anchorLeft anchorTop].
  fold w h W H.
  repeat split; intros; repeat case_decide; lia.
Qed.

(** ** The trace and the result of each loop *)

Lemma applyOps_app ops1 ops2 d :
  applyOps (ops1 ++ ops2) d = applyOps ops2 (applyOps ops1 d).
Proof. apply fold_left_app. Qed.

Lemma applyOps_cons op ops d :
  applyOps (op :: ops) d = applyOps ops (applyOp op d).
Proof. reflexivity. Qed.

Lemma removeEntries_run entries : forall w,
  removeEntries entries w =
  Some (tt, setDocument (applyOps (removeOps entries) (document w)) w,
        removeOps entries).
Proof.
  induction entries as [|entry rest IH]; intros w.
  - destruct w; reflexivity.
  - simpl. unfold mbind, M_bind, bind. simpl.
    destruct (tooltipElement entry) as [tooltip|] eqn:Ht; simpl;
      rewrite IH; unfold entryRemoveOps; rewrite ?Ht; reflexivity.
Qed.

Lemma clearHighlight_run w :
  clearHighlight w =
  Some (tt,
        setThis (withEntries [] (this w))
          (setDocument
             (applyOps (removeOps (_highlightEntries (this w))) (document w)) w),
        removeOps (_highlightEntries (this w))).
Proof.
  unfold clearHighlight, mbind, M_bind, bind. simpl.
  rewrite removeEntries_run. simpl. rewrite app_nil_r. reflexivity.
Qed.

(** *** The up-to-date check *)

Lemma edgesDiffer_sameEdges box oldBox :
  ~ edgesDiffer box oldBox <-> sameEdges box oldBox.
Proof. unfold edgesDiffer, sameEdges. lia. Qed.

Lemma UpToDate_Forall2 L elements text entries :
  UpToDate L elements text entries <->
  Forall2 (entryUpToDate L text) elements entries.
Proof.
  rewrite Forall2_same_length_lookup. unfold UpToDate, entryUpToDate. split.
  - intros (Hlen & Htext & Htarget & Hbox & Hedges). split; [done|].
    intros i element entry Hel Hen.
    assert (entry ∈ entries) as Hin by (eapply list_elem_of_lookup_2; eauto).
    destruct (Hbox entry Hin) as [oldBox HoldBox]. eauto 10.
  - intros (Hlen & Hall). split; [done|]. split_and!.
    + intros entry [i Hi]%list_elem_of_lookup_1.
      destruct (lookup_lt_is_Some_2 elements i) as [element Hel].
      { rewrite Hlen. eapply lookup_lt_Some; eauto. }
      destruct (Hall i element entry Hel Hi) as (? & _); done.
    + intros i element entry Hel Hen. destruct (Hall i element entry Hel Hen) as (_ & ? & _); done.
    + intros entry [i Hi]%list_elem_of_lookup_1.
      destruct (lookup_lt_is_Some_2 elements i) as [element Hel].
      { rewrite Hlen. eapply lookup_lt_Some; eauto. }
      destruct (Hall i element entry Hel Hi) as (_ & _ & oldBox & -> & _); eauto.
    + intros i element entry oldBox Hel Hen HoldBox.
      destruct (Hall i element entry Hel Hen) as (_ & _ & oldBox' & HoldBox' & ?).
      congruence.
Qed.

Lemma false_true_iff (P : Prop) : ~ P -> (false = true <-> P).
Proof. intros HP. split; [done | intros; by destruct HP]. Qed.

Lemma upToDateLoop_run L text : forall entries elements w,
  length elements = length entries ->
  exists b t,
    upToDateLoop L text elements entries w = Some (b, w, t) /\
    allReads t /\
    (b = true <-> Forall2 (entryUpToDate L text) elements entries).
Proof.
  induction entries as [|entry rest IH]; intros elements w Hlen.
  - destruct elements; [|done]. exists true, [].
    split_and!; [done | constructor | split; [constructor | done]].
  - destruct elements as [|element restElements]; [done|].
    injection Hlen as Hlen. simpl.
    case_decide as Htext.
    { exists false, []. split_and!; [done | constructor |].
      apply false_true_iff.
      intros (Hx & _)%Forall2_cons_1. unfold entryUpToDate in Hx. tauto. }
    case_decide as Htarget.
    { exists false, []. split_and!; [done | constructor |].
      apply false_true_iff.
      intros (Hx & _)%Forall2_cons_1. unfold entryUpToDate in Hx. tauto. }
    destruct (box entry) as [oldBox|] eqn:Hbox.
    2:{ exists false, []. split_and!; [done | constructor |].
        apply false_true_iff.
        intros ((_ & _ & ? & ? & _) & _)%Forall2_cons_1. congruence. }
    unfold mbind, M_bind, bind. simpl.
    case_decide as Hedges.
    { exists false, [GetBoundingClientRect element].
      split_and!; [done | by repeat constructor |].
      apply false_true_iff.
      intros ((_ & _ & old & Hold & Hsame) & _)%Forall2_cons_1.
      replace old with oldBox in Hsame by congruence.
      by apply edgesDiffer_sameEdges in Hsame. }
    destruct (IH restElements w Hlen) as (b & t & Hrun & Hreads & Hb).
    rewrite Hrun. exists b, (GetBoundingClientRect element :: t).
    split_and!; [done | by constructor |]. split.
    + intros Hbt. constructor; [|by apply Hb].
      unfold entryUpToDate. split_and!.
      * by destruct (decide (text = tooltipText entry)); [|destruct Htext].
      * by destruct (decide (element = targetElement entry)); [|destruct Htarget].
      * exists oldBox. split; [done|]. by apply edgesDiffer_sameEdges.
    + intros (_ & Hrest)%Forall2_cons_1. by apply Hb.
Qed.

Lemma _highlightIsUpToDate_run L elements text w :
  exists b t,
    _highlightIsUpToDate L elements text w = Some (b, w, t) /\
    allReads t /\
    (b = true <-> UpToDate L elements text (_highlightEntries (this w))).
Proof.
  unfold _highlightIsUpToDate, mbind, M_bind, bind. simpl.
  case_decide as Hlen.
  - exists false, []. split_and!; [done | constructor |].
    apply false_true_iff. intros (? & _). done.
  - assert (length elements = length (_highlightEntries (this w))) as Hlen'.
    { destruct (decide (length elements = length (_highlightEntries (this w)))); [done|].
      by destruct Hlen. }
    destruct (upToDateLoop_run L text _ _ w Hlen') as (b & t & Hrun & Hreads & Hb).
    rewrite Hrun. exists b, t. split_and!; [done | done |].
    rewrite UpToDate_Forall2. done.
Qed.

(** When no requested element is a registry target, the check answers
    without measuring anything. *)
Lemma _highlightIsUpToDate_fresh L elements text w :
  (forall element, element ∈ elements ->
     element ∉ map targetElement (_highlightEntries (this w))) ->
  exists b, _highlightIsUpToDate L elements text w = Some (b, w, []).
Proof.
  intros Hfresh. unfold _highlightIsUpToDate, mbind, M_bind, bind. simpl.
  case_decide as Hlen; [by exists false|].
  destruct (_highlightEntries (this w)) as [|entry rest];
    [exists true; by destruct elements|].
  destruct elements as [|element restElements]; [done|].
  simpl. case_decide; [by exists false|].
  case_decide as Htarget; [by exists false|].
  exfalso. apply (Hfresh element); [by left|].
  simpl. rewrite Htarget. by left.
Qed.

(** *** The build pass *)

Lemma buildLoop_run options N : forall elements i w,
  buildLoop options N i elements w =
  Some (tt,
        setThis
          (withEntries
             (_highlightEntries (this w) ++
              builtEntries options (nextElement (document w)) elements)
             (this w))
          (setDocument
             (applyOps (buildOps options N i (nextElement (document w)) elements)
                (document w)) w),
        buildOps options N i (nextElement (document w)) elements).
Proof.
  induction elements as [|element rest IH]; intros i w.
  - simpl. rewrite app_nil_r. by destruct w as [? [] ?].
  - simpl. unfold mbind, M_bind, bind, _createHighlightElement. simpl.
    unfold builtEntry, afterEntry, entryBuildOps, tooltipTextOf.
    destruct (truthy (HighlightOptions.tooltipText options)) eqn:Htruthy; simpl;
      rewrite IH; simpl; rewrite <- app_assoc; reflexivity.
Qed.

(** *** The measure pass *)

Lemma tooltipPosition_run L box tooltip w :
  tooltipPosition L box tooltip w =
  Some (anchorAt L (_glassPaneElement (this w)) box tooltip, w,
        [GetOffsetWidth tooltip; GetOffsetHeight tooltip;
         GetOffsetWidth (_glassPaneElement (this w));
         GetOffsetHeight (_glassPaneElement (this w))]).
Proof. reflexivity. Qed.

Lemma measureEntry_run L entry w :
  measureEntry L entry w =
  Some (measuredEntry L (_glassPaneElement (this w)) entry, w,
        entryMeasureOps (_glassPaneElement (this w)) entry).
Proof.
  unfold measureEntry, measuredEntry, entryMeasureOps, mbind, M_bind, bind. simpl.
  destruct (tooltipElement entry); reflexivity.
Qed.

Lemma measureLoop_run L : forall entries w,
  measureLoop L entries w =
  Some (map (measuredEntry L (_glassPaneElement (this w))) entries, w,
        measureOps (_glassPaneElement (this w)) entries).
Proof.
  induction entries as [|entry rest IH]; intros w; [reflexivity|].
  simpl. unfold mbind, M_bind, bind.
  rewrite measureEntry_run, IH. simpl. rewrite app_nil_r. reflexivity.
Qed.

(** *** The paint pass *)

Lemma paintLoop_run color isUnderTest : forall entries w,
  measured entries ->
  paintLoop color isUnderTest entries w =
  Some (tt,
        {| document := applyOps (paintOps color entries) (document w);
           this := this w;
           console := console w ++ paintLog isUnderTest entries |},
        paintOps color entries).
Proof.
  induction entries as [|entry rest IH]; intros w Hboxes.
  - simpl. unfold paintLog. destruct isUnderTest; simpl; rewrite app_nil_r; by destruct w.
  - apply Forall_cons_1 in Hboxes as [[b Hb] Hrest].
    simpl. unfold mbind, M_bind, bind, entryPaintOps, paintLog, entryLog.
    rewrite Hb.
    destruct (tooltipElement entry), isUnderTest; simpl;
      rewrite (IH _ Hrest); simpl; unfold paintLog, entryLog;
      rewrite ?Hb, <- ?app_assoc; reflexivity.
Qed.

(** *** The whole rebuild and the whole update *)

Lemma applyOps_reads t d : allReads t -> applyOps t d = d.
Proof.
  intros Hreads. revert d.
  induction Hreads as [|op t Hop _ IH]; intros d; [done|].
  rewrite applyOps_cons, IH. by destruct op.
Qed.

Lemma removeOps_writes entries : allWrites (removeOps entries).
Proof.
  apply Forall_flat_map, Forall_forall. intros entry _. unfold entryRemoveOps.
  destruct (tooltipElement entry); by repeat constructor.
Qed.

Lemma buildOps_writes options N : forall elements i n,
  allWrites (buildOps options N i n elements).
Proof.
  induction elements as [|element rest IH]; intros i n; [constructor|].
  cbn [buildOps]. apply Forall_app. split; [|apply IH].
  unfold entryBuildOps. destruct (truthy _); by repeat constructor.
Qed.

Lemma measureOps_reads glass entries : allReads (measureOps glass entries).
Proof.
  apply Forall_flat_map, Forall_forall. intros entry _. unfold entryMeasureOps.
  destruct (tooltipElement entry); by repeat constructor.
Qed.

Lemma paintOps_styleWrites color entries : allStyleWrites (paintOps color entries).
Proof.
  apply Forall_flat_map, Forall_forall. intros entry _. unfold entryPaintOps.
  destruct (tooltipElement entry), (box entry); by repeat constructor.
Qed.

Lemma nextElement_removeOps entries d :
  nextElement (applyOps (removeOps entries) d) = nextElement d.
Proof.
  revert d. induction entries as [|entry rest IH]; intros d; [done|].
  unfold removeOps. simpl. fold (removeOps rest).
  destruct (tooltipElement entry); simpl; rewrite ?applyOps_cons, IH; done.
Qed.

Lemma measuredEntry_measured L glass entries :
  measured (map (measuredEntry L glass) entries).
Proof. apply Forall_map, Forall_forall. intros entry _. simpl. eauto. Qed.

Lemma rebuild_run L elements options w :
  rebuild L elements options w =
  Some (tt, rebuilt L elements options w, rebuildOps L elements options w).
Proof.
  unfold rebuild.
  erewrite bind_run by apply clearHighlight_run.
  erewrite bind_run by apply buildLoop_run.
  erewrite bind_run by reflexivity.
  erewrite bind_run by apply measureLoop_run.
  erewrite bind_run by reflexivity.
  erewrite bind_run by reflexivity.
  rewrite paintLoop_run by apply measuredEntry_measured.
  simpl. rewrite nextElement_removeOps.
  unfold rebuilt, rebuildOps, rebuiltEntries.
  rewrite !applyOps_app, (applyOps_reads (measureOps _ _)) by apply measureOps_reads.
  reflexivity.
Qed.

(** The update in one equation: the check's reads, then either nothing or
    the rebuild. *)
Lemma _innerUpdateHighlight_run L elements options w :
  exists (b : bool) (reads : list DomOp),
    _highlightIsUpToDate L elements (HighlightOptions.tooltipText options) w
      = Some (b, w, reads) /\
    allReads reads /\
    (b = true <->
     UpToDate L elements (HighlightOptions.tooltipText options)
       (_highlightEntries (this w))) /\
    _innerUpdateHighlight L elements options w =
      Some (tt,
            (if b then w else rebuilt L elements options w),
            reads ++ (if b then [] else rebuildOps L elements options w)).
Proof.
  destruct (_highlightIsUpToDate_run L elements
              (HighlightOptions.tooltipText options) w)
    as (b & reads & Hrun & Hreads & Hb).
  exists b, reads. split_and!; [done..|].
  unfold _innerUpdateHighlight. erewrite bind_run by apply Hrun.
  destruct b; [reflexivity|]. by rewrite rebuild_run.
Qed.

(** ** The registry after an update (C6, C9) *)

Lemma sameEdges_refl box : sameEdges box box.
Proof. by unfold sameEdges. Qed.

Lemma rebuiltEntries_Forall2 L options glass : forall elements n,
  Forall2 (entryUpToDate L (HighlightOptions.tooltipText options)) elements
    (map (measuredEntry L glass) (builtEntries options n elements)).
Proof.
  induction elements as [|element rest IH]; intros n; [constructor|].
  simpl. constructor; [|apply IH].
  unfold entryUpToDate. simpl. split_and!; [done..|].
  eexists. split; [done|]. apply sameEdges_refl.
Qed.

Lemma rebuilt_UpToDate L elements options w :
  UpToDate L elements (HighlightOptions.tooltipText options)
    (_highlightEntries (this (rebuilt L elements options w))).
Proof. apply UpToDate_Forall2, rebuiltEntries_Forall2. Qed.

(** Whatever path the update took, the registry it leaves passes the
    check for the same request. *)
Lemma update_UpToDate L elements options w w' ops :
  _innerUpdateHighlight L elements options w = Some (tt, w', ops) ->
  UpToDate L elements (HighlightOptions.tooltipText options)
    (_highlightEntries (this w')).
Proof.
  destruct (_innerUpdateHighlight_run L elements options w)
    as (b & reads & _ & _ & Hb & Hrun).
  rewrite Hrun. intros [= <- _]. destruct b.
  - by apply Hb.
  - apply rebuilt_UpToDate.
Qed.

Lemma UpToDate_targets L elements text entries :
  UpToDate L elements text entries -> map targetElement entries = elements.
Proof.
  rewrite UpToDate_Forall2. induction 1 as [|element entry ?? (_ & -> & _) _ IH]; [done|].
  simpl. by rewrite IH.
Qed.

Lemma UpToDate_measured L elements text entries :
  UpToDate L elements text entries -> measured entries.
Proof.
  intros (_ & _ & _ & Hbox & _). by apply Forall_forall.
Qed.

(** C6.  After every completed update call the registry has as many
    entries as the call had elements, the i-th entry's targetElement is
    elements[i], and no entry has a target that was not in the call; on the
    short-circuit path and on the rebuild path alike.  The call always
    completes. *)
Theorem update_registry_targets (L : Layout) (elements : list Element)
    (options : HighlightOptions.t) (w : World) :
  exists w' ops,
    updateHighlight L elements options w = Some (tt, w', ops) /\
    length (_highlightEntries (this w')) = length elements /\
    (forall i : nat,
        targetElement <$> _highlightEntries (this w') !! i = elements !! i) /\
    (forall entry, entry ∈ _highlightEntries (this w') ->
                   targetElement entry ∈ elements).
Proof.
  destruct (_innerUpdateHighlight_run L elements options w)
    as (b & reads & _ & _ & _ & Hrun).
  eexists _, _. split; [exact Hrun|].
  pose proof (UpToDate_targets _ _ _ _ (update_UpToDate _ _ _ _ _ _ Hrun)) as Ht.
  split_and!.
  - by rewrite <- Ht at 2; rewrite length_map.
  - intros i. by rewrite <- Ht at 2; rewrite list_lookup_fmap.
  - intros entry Hin. rewrite <- Ht. by apply list_elem_of_fmap_2.
Qed.

Lemma firstBox_run w :
  firstBox w =
  Some (match _highlightEntries (this w) with
        | [] => None
        | entry :: _ => box entry
        end, w, []).
Proof. reflexivity. Qed.

(** C9.  [firstBox] returns the recorded box of the first entry when the
    registry is non-empty and that entry has one, and none when the
    registry is empty or the first entry is unmeasured; it changes nothing.
    After every completed update call every entry has a recorded box, and
    the call always completes: the paint pass never reads an absent box. *)
Theorem firstBox_and_boxes_recorded (L : Layout) (elements : list Element)
    (options : HighlightOptions.t) (w : World) :
  (exists result, firstBox w = Some (result, w, []) /\
     (_highlightEntries (this w) = [] -> result = None) /\
     (forall entry rest, _highlightEntries (this w) = entry :: rest ->
        result = box entry)) /\
  (exists w' ops,
     updateHighlight L elements options w = Some (tt, w', ops) /\
     (forall entry, entry ∈ _highlightEntries (this w') -> is_Some (box entry)) /\
     (exists result, firstBox w' = Some (result, w', []) /\
        (elements <> [] -> is_Some result))) /\
  (forall color isUnderTest entries world,
     (forall entry, entry ∈ entries -> is_Some (box entry)) ->
     is_Some (paintLoop color isUnderTest entries world)).
Proof.
  split_and!.
  - eexists. split; [apply firstBox_run|]. split.
    + by intros ->.
    + by intros entry rest ->.
  - destruct (_innerUpdateHighlight_run L elements options w)
      as (b & reads & _ & _ & _ & Hrun).
    eexists _, _. split; [exact Hrun|].
    pose proof (update_UpToDate _ _ _ _ _ _ Hrun) as Hup.
    pose proof (UpToDate_measured _ _ _ _ Hup) as Hm.
    split; [by apply Forall_forall|].
    eexists. split; [apply firstBox_run|]. intros Hne.
    destruct Hup as (Hlen & _).
    destruct (_highlightEntries (this (if b then w else rebuilt L elements options w)))
      as [|entry rest]; [by destruct elements|].
    by apply Forall_cons_1 in Hm as [? _].
  - intros color isUnderTest entries world Hboxes.
    rewrite paintLoop_run by by apply Forall_forall. eauto.
Qed.

(** ** When an update is a no-op (C1, C10) *)

Lemma allReads_noMutation ops : allReads ops <-> noMutation ops.
Proof.
  unfold allReads, noMutation, isWrite. apply Forall_iff. intros op.
  by destruct (isRead op).
Qed.

Lemma sameEdges_trans b1 b2 b3 :
  sameEdges b1 b2 -> sameEdges b2 b3 -> sameEdges b1 b3.
Proof. unfold sameEdges. lia. Qed.

Lemma sameEdges_sym b1 b2 : sameEdges b1 b2 -> sameEdges b2 b1.
Proof. unfold sameEdges. lia. Qed.

Lemma UpToDate_sameGeometry L L' elements text entries :
  sameGeometry L L' elements ->
  UpToDate L elements text entries -> UpToDate L' elements text entries.
Proof.
  intros Hgeo (Hlen & Htext & Htarget & Hbox & Hedges).
  split_and!; [done..|].
  intros i element entry oldBox Hel Hen Hold.
  eapply sameEdges_trans; [|by eapply Hedges].
  apply Hgeo. by eapply list_elem_of_lookup_2.
Qed.

Lemma removeOps_nonempty entries :
  entries <> [] -> exists op, op ∈ removeOps entries /\ isWrite op = true.
Proof.
  destruct entries as [|entry rest]; [done|]. intros _.
  exists (RemoveElement (highlightElement entry)). split; [|done].
  unfold removeOps. simpl. by left.
Qed.

Lemma buildOps_nonempty options N i n elements :
  elements <> [] ->
  exists op, op ∈ buildOps options N i n elements /\ isWrite op = true.
Proof.
  destruct elements as [|element rest]; [done|]. intros _.
  exists (CreateElement "x-pw-highlight" n). split; [|done].
  simpl. by left.
Qed.

Lemma rebuildOps_mutation L elements options w :
  _highlightEntries (this w) <> [] \/ elements <> [] ->
  ~ noMutation (rebuildOps L elements options w).
Proof.
  intros Hne Hno. unfold rebuildOps in Hno.
  assert (exists op, op ∈ rebuildOps L elements options w /\ isWrite op = true)
    as (op & Hin & Hw).
  { unfold rebuildOps. destruct Hne as [Hne|Hne].
    - destruct (removeOps_nonempty _ Hne) as (op & Hin & Hw).
      exists op. split; [|done]. apply elem_of_app. by left.
    - destruct (buildOps_nonempty options (length elements) 0
                  (nextElement (document w)) _ Hne) as (op & Hin & Hw).
      exists op. split; [|done]. apply elem_of_app. right.
      apply elem_of_app. by left. }
  unfold noMutation in Hno. rewrite Forall_forall in Hno.
  specialize (Hno op Hin). congruence.
Qed.

Lemma UpToDate_nil L text : UpToDate L [] text [].
Proof. apply UpToDate_Forall2. constructor. Qed.

Lemma not_UpToDate_nonempty L elements text entries :
  ~ UpToDate L elements text entries -> entries <> [] \/ elements <> [].
Proof.
  intros Hnot. destruct entries; [|by left]. destruct elements; [|by right].
  destruct Hnot. apply UpToDate_nil.
Qed.

Lemma withEntries_same h : withEntries (_highlightEntries h) h = h.
Proof. by destruct h. Qed.

(** Tearing down and rebuilding nothing: with an empty registry and no
    element the rebuild performs no call and leaves the world as it is. *)
Lemma rebuilt_nil L options w :
  _highlightEntries (this w) = [] ->
  rebuilt L [] options w = w /\ rebuildOps L [] options w = [].
Proof.
  intros Hnil.
  assert (withEntries [] (this w) = this w) as Hthis
    by (rewrite <- Hnil; apply withEntries_same).
  unfold rebuilt, rebuildOps, rebuiltEntries. rewrite Hnil. simpl.
  split; [|done]. rewrite Hthis. unfold paintLog.
  destruct w as [d h c]. simpl. destruct (_isUnderTest h); by rewrite app_nil_r.
Qed.

Lemma changed_not_UpToDate L elements text L' elements' text' entries :
  requestChanged L elements text L' elements' text' ->
  elements <> [] \/ elements' <> [] ->
  UpToDate L elements text entries ->
  ~ UpToDate L' elements' text' entries.
Proof.
  intros Hchanged Hne Hup Hup'.
  pose proof Hup as (Hlen & Htext & Htarget & Hbox & Hedges).
  pose proof Hup' as (Hlen' & Htext' & Htarget' & Hbox' & Hedges').
  destruct Hchanged as [Hc|[(i & Hi & Hc)|[Hc|(element & Hin & Hc)]]].
  - congruence.
  - apply Hc. rewrite <- (UpToDate_targets _ _ _ _ Hup).
    by rewrite <- (UpToDate_targets _ _ _ _ Hup').
  - destruct entries as [|entry rest].
    + destruct Hne as [Hne|Hne]; [by destruct elements | by destruct elements'].
    + apply Hc. rewrite (Htext entry), (Htext' entry); [done | by left..].
  - apply list_elem_of_lookup_1 in Hin as [i Hi].
    destruct (lookup_lt_is_Some_2 entries i) as [entry Hen].
    { rewrite <- Hlen'. by eapply lookup_lt_Some. }
    assert (element = targetElement entry) as Het by by eapply Htarget'.
    assert (elements !! i = Some element) as Hi'.
    { rewrite <- (UpToDate_targets _ _ _ _ Hup), list_lookup_fmap, Hen. simpl.
      by rewrite Het. }
    destruct (Hbox entry) as [oldBox Hold]; [by eapply list_elem_of_lookup_2|].
    apply Hc. eapply sameEdges_trans; [by eapply Hedges'|].
    apply sameEdges_sym. by eapply Hedges.
Qed.

(** C1.  Every update call completes, the document after it is the
    document before it with the logged calls applied, and the call
    performs no DOM mutation and leaves the registry unchanged if and only
    if the five conditions of the up-to-date check hold: equal lengths,
    the requested tooltip text on every entry, reference-identical targets
    position by position, a recorded box on every entry, and freshly
    measured top, right, bottom and left equal to the recorded ones; then
    the whole world is unchanged.
    Consequently a second update with the same elements, the same options
    and unchanged geometry is a no-op, and after a change of the element
    count, of the element at a position, of the tooltip text or of an edge
    of an element's box, the next call ends in the world, and with the
    sequence of DOM calls, of a full teardown and rebuild.  (With the
    registry and both element lists empty the check answers true; tearing
    down and rebuilding nothing is then the same as doing nothing.) *)
Theorem update_noop_iff_upToDate (L : Layout) (elements : list Element)
    (options : HighlightOptions.t) (w : World) :
  exists w' ops,
    updateHighlight L elements options w = Some (tt, w', ops) /\
    document w' = applyOps ops (document w) /\
    (noMutation ops /\ _highlightEntries (this w') = _highlightEntries (this w)
     <-> UpToDate L elements (HighlightOptions.tooltipText options)
           (_highlightEntries (this w))) /\
    (UpToDate L elements (HighlightOptions.tooltipText options)
       (_highlightEntries (this w)) -> w' = w) /\
    (forall L', sameGeometry L L' elements ->
       exists reads,
         updateHighlight L' elements options w' = Some (tt, w', reads) /\
         noMutation reads) /\
    (forall L' elements' options',
       requestChanged L elements (HighlightOptions.tooltipText options)
         L' elements' (HighlightOptions.tooltipText options') ->
       exists reads,
         allReads reads /\
         updateHighlight L' elements' options' w' =
           Some (tt, rebuilt L' elements' options' w',
                 reads ++ rebuildOps L' elements' options' w') /\
         (elements <> [] \/ elements' <> [] ->
          _highlightIsUpToDate L' elements'
            (HighlightOptions.tooltipText options') w' = Some (false, w', reads) /\
          ~ noMutation (reads ++ rebuildOps L' elements' options' w'))).
Proof.
  destruct (_innerUpdateHighlight_run L elements options w)
    as (b & reads & Hcheck & Hreads & Hb & Hrun).
  eexists _, _. split; [exact Hrun|].
  pose proof (update_UpToDate _ _ _ _ _ _ Hrun) as Hafter.
  split_and!.
  - rewrite applyOps_app, (applyOps_reads reads) by done. by destruct b.
  - split.
    + intros (Hno & Hsame). apply Hb. destruct b; [done|]. exfalso.
      apply Forall_app in Hno as [_ Hno].
      apply (rebuildOps_mutation L elements options w); [|done].
      eapply not_UpToDate_nonempty. intros Hup. by apply Hb in Hup.
    + intros Hup. apply Hb in Hup as ->. split; [|done].
      rewrite app_nil_r. by apply allReads_noMutation.
  - intros Hup. by apply Hb in Hup as ->.
  - intros L' Hgeo.
    destruct (_innerUpdateHighlight_run L' elements options
                (if b then w else rebuilt L elements options w))
      as (b' & reads' & _ & Hreads' & Hb' & Hrun').
    assert (b' = true) as ->.
    { apply Hb'. by eapply UpToDate_sameGeometry. }
    exists reads'. rewrite app_nil_r in Hrun'. split; [exact Hrun'|].
    by apply allReads_noMutation.
  - intros L' elements' options' Hchanged.
    destruct (_innerUpdateHighlight_run L' elements' options'
                (if b then w else rebuilt L elements options w))
      as (b' & reads' & Hcheck' & Hreads' & Hb' & Hrun').
    exists reads'. split; [done|].
    destruct (decide (elements = [] /\ elements' = [])) as [[-> ->]|Hne].
    + assert (_highlightEntries
                (this (if b then w else rebuilt L [] options w)) = []) as Hnil.
      { destruct Hafter as (Hlen & _). by apply nil_length_inv. }
      destruct (rebuilt_nil L' options' _ Hnil) as [-> ->].
      split; [|by intros [|]].
      assert (b' = true) as ->.
      { apply Hb'. rewrite Hnil. apply UpToDate_nil. }
      exact Hrun'.
    + assert (elements <> [] \/ elements' <> []) as Hne'.
      { destruct elements; [|by left]. destruct elements'; [|by right].
        by destruct Hne. }
      assert (b' = false) as ->.
      { destruct b'; [|done]. exfalso.
        eapply changed_not_UpToDate; [exact Hchanged | exact Hne' | exact Hafter |].
        by apply Hb'. }
      split; [exact Hrun'|]. intros _. split; [exact Hcheck'|].
      intros Hno. apply Forall_app in Hno as [_ Hno].
      apply (rebuildOps_mutation L' elements' options' _) in Hno; [done|].
      destruct Hne' as [?|?]; [left | by right].
      destruct Hafter as (Hlen & _). intros Hnil. rewrite Hnil in Hlen.
      by destruct elements.
Qed.

(** ** What the logged calls do to the store *)

Lemma getData_SetStyle e prop value d e' :
  getData (applyOp (SetStyle e prop value) d) e' =
  if decide (e = e')
  then {| tagName := tagName (getData d e);
          textContent := textContent (getData d e);
          style := <[prop := value]> (style (getData d e)) |}
  else getData d e'.
Proof.
  unfold applyOp, setNodes, getData at 1. simpl. rewrite lookup_insert.
  by case_decide.
Qed.

Lemma getData_SetTextContent e text d e' :
  getData (applyOp (SetTextContent e text) d) e' =
  if decide (e = e')
  then {| tagName := tagName (getData d e);
          textContent := text;
          style := style (getData d e) |}
  else getData d e'.
Proof.
  unfold applyOp, setNodes, getData at 1. simpl. rewrite lookup_insert.
  by case_decide.
Qed.

Lemma getData_CreateElement tag e d e' :
  getData (applyOp (CreateElement tag e) d) e' =
  if decide (e = e') then emptyData tag else getData d e'.
Proof.
  unfold applyOp, getData at 1. simpl. rewrite lookup_insert.
  by case_decide.
Qed.

Lemma getData_AppendChild e d e' :
  getData (applyOp (AppendChild e) d) e' = getData d e'.
Proof. reflexivity. Qed.

(** Style writes leave every text content as it is. *)
Lemma textContent_styleWrites ops : forall d e,
  allStyleWrites ops ->
  textContent (getData (applyOps ops d) e) = textContent (getData d e).
Proof.
  induction ops as [|op ops IH]; intros d e Hall; [done|].
  apply Forall_cons_1 in Hall as [Hop Hall].
  rewrite applyOps_cons, IH by done.
  destruct op; try discriminate.
  rewrite getData_SetStyle. by case_decide; subst.
Qed.

Lemma backgroundColor_keepsColor color ops : forall d e,
  Forall (keepsColor color) ops ->
  backgroundColor d e = Some color ->
  backgroundColor (applyOps ops d) e = Some color.
Proof.
  induction ops as [|op ops IH]; intros d e Hall Hbg; [done|].
  apply Forall_cons_1 in Hall as [Hop Hall].
  rewrite applyOps_cons. apply IH; [done|].
  destruct op; try done. unfold backgroundColor in *.
  rewrite getData_SetStyle. case_decide; [subst; simpl|done].
  rewrite lookup_insert. case_decide; [|done].
  destruct Hop; congruence.
Qed.

Lemma entryPaintOps_keepsColor color entry :
  Forall (keepsColor color) (entryPaintOps color entry).
Proof.
  unfold entryPaintOps.
  destruct (tooltipElement entry), (box entry);
    Forall_list; simpl; first [by left | by right].
Qed.

Lemma paintOps_keepsColor color entries :
  Forall (keepsColor color) (paintOps color entries).
Proof.
  apply Forall_flat_map, Forall_forall. intros entry _.
  apply entryPaintOps_keepsColor.
Qed.

Lemma entryPaintOps_backgroundColor color entry d :
  backgroundColor (applyOps (entryPaintOps color entry) d) (highlightElement entry)
  = Some color.
Proof.
  unfold entryPaintOps.
  set (post := match box entry with Some _ => _ | None => _ end).
  rewrite applyOps_app, applyOps_cons.
  apply backgroundColor_keepsColor.
  - subst post. destruct (box entry); Forall_list; simpl; by left.
  - unfold backgroundColor. rewrite getData_SetStyle.
    case_decide; [|done]. simpl. by rewrite lookup_insert_eq.
Qed.

(** After the paint pass every box of the registry carries the color. *)
Lemma paintOps_backgroundColor color : forall entries d entry,
  entry ∈ entries ->
  backgroundColor (applyOps (paintOps color entries) d) (highlightElement entry)
  = Some color.
Proof.
  induction entries as [|first rest IH]; intros d entry Hin;
    [by apply elem_of_nil in Hin|].
  unfold paintOps. simpl. fold (paintOps color rest). rewrite applyOps_app.
  apply elem_of_cons in Hin as [->|Hin]; [|by apply IH].
  apply backgroundColor_keepsColor; [apply paintOps_keepsColor|].
  apply entryPaintOps_backgroundColor.
Qed.

(** ** The color of the boxes (C5, C10) *)

Lemma keepsColor_paintsColor color ops :
  Forall (keepsColor color) ops -> Forall (paintsColor color) ops.
Proof.
  intros Hall. eapply Forall_impl; [exact Hall|].
  intros [] Hop; try done. simpl in *. intros ->. by destruct Hop.
Qed.

Lemma allReads_paintsColor color ops : allReads ops -> Forall (paintsColor color) ops.
Proof. intros Hall. eapply Forall_impl; [exact Hall|]. by intros []. Qed.

Lemma removeOps_paintsColor color entries :
  Forall (paintsColor color) (removeOps entries).
Proof.
  apply Forall_flat_map, Forall_forall. intros entry _. unfold entryRemoveOps.
  destruct (tooltipElement entry); by Forall_list.
Qed.

Lemma buildOps_paintsColor color options N : forall elements i n,
  Forall (paintsColor color) (buildOps options N i n elements).
Proof.
  induction elements as [|element rest IH]; intros i n; [constructor|].
  cbn [buildOps]. apply Forall_app. split; [|apply IH].
  unfold entryBuildOps. destruct (truthy _); by Forall_list.
Qed.

Lemma rebuildOps_paintsColor L elements options w :
  Forall (paintsColor (resolveColor elements options))
    (rebuildOps L elements options w).
Proof.
  unfold rebuildOps. rewrite !Forall_app. split_and!.
  - apply removeOps_paintsColor.
  - apply buildOps_paintsColor.
  - apply allReads_paintsColor, measureOps_reads.
  - apply keepsColor_paintsColor, paintOps_keepsColor.
Qed.

Lemma rebuilt_backgroundColor L elements options w entry :
  entry ∈ _highlightEntries (this (rebuilt L elements options w)) ->
  backgroundColor (document (rebuilt L elements options w)) (highlightElement entry)
  = Some (resolveColor elements options).
Proof.
  simpl. intros Hin. unfold rebuildOps.
  rewrite !app_assoc, applyOps_app. by apply paintOps_backgroundColor.
Qed.

Lemma truthy_Some c : c <> "" -> truthy (Some c) = true.
Proof. intros Hc. simpl. by case_decide. Qed.

(** C5, amended.  Every update call completes, and every background color
    it paints on a visual box is options.color when that option is
    supplied (present and not the empty string, which JavaScript takes as
    absent); otherwise '#f6b26b7f' when more than one element is passed and
    '#6fa8dc7f' when zero or one is.  When the call rebuilds (the registry
    is not up to date for the elements and the tooltip text), every box of
    the registry carries that color afterwards; when the registry is up to
    date the call writes nothing and leaves the world, and with it the
    color of every box, as it was.  [maskElements(elements, color)] is the
    same routine with no tooltip text and the supplied color, '#F0F' when
    unspecified, whatever the number of elements. *)
Theorem update_paints_resolved_color (L : Layout) (elements : list Element)
    (options : HighlightOptions.t) (w : World) :
  let painted := resolveColor elements options in
  (exists w' ops,
     updateHighlight L elements options w = Some (tt, w', ops) /\
     (forall e value, SetStyle e "backgroundColor" value ∈ ops -> value = painted) /\
     (~ UpToDate L elements (HighlightOptions.tooltipText options)
          (_highlightEntries (this w)) ->
      forall entry, entry ∈ _highlightEntries (this w') ->
        backgroundColor (document w') (highlightElement entry) = Some painted) /\
     (UpToDate L elements (HighlightOptions.tooltipText options)
        (_highlightEntries (this w)) ->
      w' = w /\ noMutation ops)) /\
  (forall c, HighlightOptions.color options = Some c -> c <> "" -> painted = c) /\
  (HighlightOptions.color options = None \/ HighlightOptions.color options = Some "" ->
     (1 < length elements -> painted = "#f6b26b7f")%nat /\
     (length elements <= 1 -> painted = "#6fa8dc7f")%nat) /\
  (forall color : option string,
     maskElements L elements color w =
       updateHighlight L elements
         {| HighlightOptions.tooltipText := None;
            HighlightOptions.color := Some (maskColor color) |} w /\
     resolveColor elements
       {| HighlightOptions.tooltipText := None;
          HighlightOptions.color := Some (maskColor color) |} = maskColor color /\
     (forall c, color = Some c -> c <> "" -> maskColor color = c) /\
     (color = None -> maskColor color = "#F0F")).
Proof.
  intros painted. split_and!.
  - destruct (_innerUpdateHighlight_run L elements options w)
      as (b & reads & _ & Hreads & Hb & Hrun).
    eexists _, _. split; [exact Hrun|]. split; [|split].
    + intros e value Hin.
      assert (Forall (paintsColor painted)
                (reads ++ (if b then [] else rebuildOps L elements options w)))
        as Hall.
      { apply Forall_app. split; [by apply allReads_paintsColor|].
        destruct b; [constructor | apply rebuildOps_paintsColor]. }
      rewrite Forall_forall in Hall. by apply (Hall _ Hin).
    + intros Hnot entry Hin. destruct b; [by destruct Hnot; apply Hb|].
      by apply rebuilt_backgroundColor.
    + intros Hup. assert (b = true) as -> by by apply Hb.
      split; [done|]. rewrite app_nil_r. by apply allReads_noMutation.
  - intros c Hc Hne. subst painted. unfold resolveColor.
    by rewrite Hc, truthy_Some.
  - intros Hnone. subst painted. unfold resolveColor.
    assert (truthy (HighlightOptions.color options) = false) as ->
      by (by destruct Hnone as [->| ->]).
    split; intros Hlen; case_decide; (done || lia).
  - intros color. split_and!.
    + reflexivity.
    + unfold resolveColor, maskColor. simpl.
      destruct color as [c|]; simpl; [|done].
      repeat (case_decide; simpl; try done).
    + intros c -> Hc. unfold maskColor. by rewrite truthy_Some.
    + by intros ->.
Qed.

(** C10.  When two consecutive update calls have the same elements, the
    same tooltip text and, for every element, the same measured top,
    right, bottom and left, the second call performs no teardown, no
    rebuild and no DOM mutation whatever its color option is: the world
    after it is the world before it, and boxes painted by the first call
    keep the first call's color. *)
Theorem update_ignores_color_change (L L' : Layout) (elements : list Element)
    (options options' : HighlightOptions.t) (w w1 : World) (ops1 : list DomOp) :
  HighlightOptions.tooltipText options' = HighlightOptions.tooltipText options ->
  sameGeometry L L' elements ->
  updateHighlight L elements options w = Some (tt, w1, ops1) ->
  exists reads,
    updateHighlight L' elements options' w1 = Some (tt, w1, reads) /\
    noMutation reads /\
    _highlightIsUpToDate L' elements (HighlightOptions.tooltipText options') w1
      = Some (true, w1, reads) /\
    (~ UpToDate L elements (HighlightOptions.tooltipText options)
         (_highlightEntries (this w)) ->
     forall entry, entry ∈ _highlightEntries (this w1) ->
       backgroundColor (document w1) (highlightElement entry)
       = Some (resolveColor elements options)).
Proof.
  intros Htext Hgeo Hrun.
  pose proof (update_UpToDate _ _ _ _ _ _ Hrun) as Hafter.
  destruct (_innerUpdateHighlight_run L' elements options' w1)
    as (b' & reads' & Hcheck' & Hreads' & Hb' & Hrun').
  assert (b' = true) as ->.
  { apply Hb'. rewrite Htext. by eapply UpToDate_sameGeometry. }
  exists reads'. rewrite app_nil_r in Hrun'.
  split_and!; [done | by apply allReads_noMutation | done |].
  intros Hnot entry Hin.
  destruct (_innerUpdateHighlight_run L elements options w)
    as (b & reads & _ & _ & Hb & Hrun0).
  unfold updateHighlight in Hrun. rewrite Hrun0 in Hrun.
  destruct b; [by destruct Hnot; apply Hb|].
  injection Hrun as <- _. by apply rebuilt_backgroundColor.
Qed.

(** ** Clearing the registry (C8) *)

Lemma removeOps_isRemove entries : Forall isRemove (removeOps entries).
Proof.
  apply Forall_flat_map, Forall_forall. intros entry _. unfold entryRemoveOps.
  destruct (tooltipElement entry); by Forall_list.
Qed.

Lemma elem_of_without (e c : Element) (l : list Element) :
  c ∈ without e l <-> c <> e /\ c ∈ l.
Proof. unfold without. by rewrite list_elem_of_filter. Qed.

(** Removals only shrink the child list of the shadow root. *)
Lemma shadowChildren_removes ops : forall d c,
  Forall isRemove ops ->
  c ∈ shadowChildren (applyOps ops d) -> c ∈ shadowChildren d.
Proof.
  induction ops as [|op ops IH]; intros d c Hall Hin; [done|].
  apply Forall_cons_1 in Hall as [Hop Hall].
  rewrite applyOps_cons in Hin. apply IH in Hin; [|done].
  destruct op; try done. simpl in Hin. by apply elem_of_without in Hin as [_ ?].
Qed.

Lemma shadowChildren_removed ops : forall d e,
  Forall isRemove ops ->
  RemoveElement e ∈ ops -> e ∉ shadowChildren (applyOps ops d).
Proof.
  induction ops as [|op ops IH]; intros d e Hall Hin;
    [by apply elem_of_nil in Hin|].
  apply Forall_cons_1 in Hall as [Hop Hall].
  rewrite applyOps_cons. apply elem_of_cons in Hin as [<-|Hin]; [|by apply IH].
  intros Hc. apply shadowChildren_removes in Hc; [|done].
  simpl in Hc. by apply elem_of_without in Hc as [? _].
Qed.

Lemma shadowChildren_kept ops : forall d c,
  Forall isRemove ops ->
  c ∈ shadowChildren d -> RemoveElement c ∉ ops ->
  c ∈ shadowChildren (applyOps ops d).
Proof.
  induction ops as [|op ops IH]; intros d c Hall Hin Hnot; [done|].
  apply Forall_cons_1 in Hall as [Hop Hall].
  rewrite applyOps_cons. apply IH; [done| |].
  - destruct op; try done. simpl. apply elem_of_without. split; [|done].
    intros ->. apply Hnot. by left.
  - intros Hc. apply Hnot. by right.
Qed.

Lemma removeOps_entry entries entry :
  entry ∈ entries ->
  RemoveElement (highlightElement entry) ∈ removeOps entries /\
  (forall tooltip, tooltipElement entry = Some tooltip ->
     RemoveElement tooltip ∈ removeOps entries).
Proof.
  intros Hin. unfold removeOps.
  split; [|intros tooltip Ht]; apply list_elem_of_In, in_flat_map;
    exists entry; (split; [by apply list_elem_of_In|]);
    unfold entryRemoveOps; [by left|]. rewrite Ht. right. by left.
Qed.

(** C8.  [clear] always completes; it removes every visual-box and tooltip
    element of the registry from the surface (and no other child of it) and
    leaves the registry empty; a second clear right after performs no DOM
    call and changes nothing, and so does a clear on an empty registry. *)
Theorem clearHighlight_removes_all (w : World) :
  exists w',
    clearHighlight w = Some (tt, w', removeOps (_highlightEntries (this w))) /\
    _highlightEntries (this w') = [] /\
    (forall entry, entry ∈ _highlightEntries (this w) ->
       (highlightElement entry ∉ shadowChildren (document w')) /\
       (forall tooltip, tooltipElement entry = Some tooltip ->
          tooltip ∉ shadowChildren (document w'))) /\
    (forall c, c ∈ shadowChildren (document w) ->
       RemoveElement c ∉ removeOps (_highlightEntries (this w)) ->
       c ∈ shadowChildren (document w')) /\
    clearHighlight w' = Some (tt, w', []) /\
    (_highlightEntries (this w) = [] ->
       w' = w /\ removeOps (_highlightEntries (this w)) = []).
Proof.
  eexists. split; [apply clearHighlight_run|]. split_and!.
  - reflexivity.
  - intros entry Hin. apply removeOps_entry in Hin as [Hhe Hte]. simpl. split.
    + apply shadowChildren_removed; [apply removeOps_isRemove | done].
    + intros tooltip Ht.
      apply shadowChildren_removed; [apply removeOps_isRemove | by apply Hte].
  - intros c Hin Hnot. simpl.
    apply shadowChildren_kept; [apply removeOps_isRemove | done | done].
  - rewrite clearHighlight_run. reflexivity.
  - intros Hnil. rewrite Hnil. split; [|done]. simpl.
    assert (withEntries [] (this w) = this w) as ->
      by (rewrite <- Hnil; apply withEntries_same).
    by destruct w.
Qed.

(** ** The order of writes and reads (C3) *)

Lemma boxReads_app ops1 ops2 : boxReads (ops1 ++ ops2) = boxReads ops1 ++ boxReads ops2.
Proof. apply omap_app. Qed.

Lemma boxReads_writes ops : allWrites ops -> boxReads ops = [].
Proof.
  induction 1 as [|op ops Hop _ IH]; [done|].
  unfold boxReads in *. by destruct op.
Qed.

Lemma allStyleWrites_allWrites ops : allStyleWrites ops -> allWrites ops.
Proof. intros Hall. eapply Forall_impl; [exact Hall|]. by intros []. Qed.

Lemma boxReads_measureOps glass entries :
  boxReads (measureOps glass entries) = map targetElement entries.
Proof.
  induction entries as [|entry rest IH]; [done|].
  unfold measureOps. simpl. fold (measureOps glass rest).
  rewrite boxReads_app, IH. unfold entryMeasureOps.
  by destruct (tooltipElement entry).
Qed.

Lemma builtEntries_targets options : forall elements n,
  map targetElement (builtEntries options n elements) = elements.
Proof.
  induction elements as [|element rest IH]; intros n; [done|].
  simpl. by rewrite IH.
Qed.

Lemma removeOps_isBuildWrite entries : Forall isBuildWrite (removeOps entries).
Proof.
  eapply Forall_impl; [apply removeOps_isRemove|]. by intros [].
Qed.

Lemma buildOps_isBuildWrite options N : forall elements i n,
  Forall isBuildWrite (buildOps options N i n elements).
Proof.
  induction elements as [|element rest IH]; intros i n; [constructor|].
  cbn [buildOps]. apply Forall_app. split; [|apply IH].
  unfold entryBuildOps. destruct (truthy _); Forall_list; simpl; tauto.
Qed.

Lemma fromReads_styles styles : allStyleWrites styles -> fromReads styles = true.
Proof.
  intros Hall. destruct styles as [|op rest]; [done|].
  cbn [fromReads]. apply orb_true_iff. right.
  apply forallb_forall. intros x Hx.
  unfold allStyleWrites in Hall. rewrite Forall_forall in Hall.
  by apply Hall, list_elem_of_In.
Qed.

Lemma fromReads_app reads styles :
  allReads reads -> allStyleWrites styles -> fromReads (reads ++ styles) = true.
Proof.
  intros Hreads Hstyles. induction Hreads as [|op rest Hop _ IH];
    [by apply fromReads_styles|].
  simpl. by rewrite Hop, IH.
Qed.

Lemma fromCreates_fromReads ops : fromReads ops = true -> fromCreates ops = true.
Proof.
  destruct ops as [|op rest]; [done|]. intros H.
  cbn [fromCreates]. rewrite H. apply orb_true_r.
Qed.

Lemma strictPhases_fromCreates ops : strictPhases ops -> fromCreates ops = true.
Proof.
  intros (creates & reads & styles & -> & Hcreates & Hreads & Hstyles).
  induction Hcreates as [|op rest Hop _ IH].
  - simpl. by apply fromCreates_fromReads, fromReads_app.
  - simpl. by rewrite Hop, IH.
Qed.

(** C3, as amended.  An update call none of whose targets is in the
    registry completes, and its DOM calls fall into three consecutive
    phases: writes only (removal of the previous entries' elements,
    creation and append of the new ones and, when tooltip text is
    requested, the tooltip's text and its initial top, left and display
    styles), then geometry reads only, then style writes only.  The
    bounding boxes read are those of the targets, one read per position,
    in order, so no write stands between two reads. *)
Theorem update_three_phases (L : Layout) (elements : list Element)
    (options : HighlightOptions.t) (w : World) :
  (forall element, element ∈ elements ->
     element ∉ map targetElement (_highlightEntries (this w))) ->
  exists w' writes reads paint,
    updateHighlight L elements options w =
      Some (tt, w', writes ++ reads ++ paint) /\
    allWrites writes /\ Forall isBuildWrite writes /\
    allReads reads /\
    allStyleWrites paint /\
    boxReads (writes ++ reads ++ paint) = elements /\
    boxReads reads = elements.
Proof.
  intros Hfresh.
  destruct (_highlightIsUpToDate_fresh L elements
              (HighlightOptions.tooltipText options) w Hfresh) as [b Hcheck].
  unfold updateHighlight, _innerUpdateHighlight.
  erewrite bind_run by exact Hcheck. destruct b.
  - exists w, [], [], []. destruct elements as [|element rest].
    + split_and!; (done || constructor).
    + exfalso.
      destruct (_highlightIsUpToDate_run L (element :: rest)
                  (HighlightOptions.tooltipText options) w)
        as (b & reads & Hrun & _ & Hb & _).
      rewrite Hcheck in Hrun. simplify_eq. specialize (Hb eq_refl).
      apply UpToDate_targets in Hb.
      apply (Hfresh element); [by left|]. rewrite Hb. by left.
  - rewrite rebuild_run. unfold rebuildOps.
    exists (rebuilt L elements options w),
      (removeOps (_highlightEntries (this w)) ++
       buildOps options (length elements) 0 (nextElement (document w)) elements),
      (measureOps (_glassPaneElement (this w))
         (builtEntries options (nextElement (document w)) elements)),
      (paintOps (resolveColor elements options)
         (rebuiltEntries L elements options w)).
    assert (allWrites
              (removeOps (_highlightEntries (this w)) ++
               buildOps options (length elements) 0 (nextElement (document w))
                 elements)) as Hwrites
      by (apply Forall_app; split; [apply removeOps_writes | apply buildOps_writes]).
    split_and!.
    + simpl. by rewrite <- app_assoc.
    + done.
    + apply Forall_app. split;
        [apply removeOps_isBuildWrite | apply buildOps_isBuildWrite].
    + apply measureOps_reads.
    + apply paintOps_styleWrites.
    + rewrite boxReads_app, (boxReads_writes _ Hwrites), boxReads_app,
        boxReads_measureOps, builtEntries_targets.
      rewrite (boxReads_writes (paintOps _ _))
        by apply allStyleWrites_allWrites, paintOps_styleWrites.
      simpl. by rewrite app_nil_r.
    + by rewrite boxReads_measureOps, builtEntries_targets.
Qed.

(** ** The text of the tooltips (C4) *)

Lemma append_empty (s : string) : s +:+ "" = s.
Proof.
  induction s as [|a s IH]; [done|].
  change (String a (s +:+ "") = String a s). by rewrite IH.
Qed.

Lemma getData_entryBuildOps options N i n d e :
  (e < n)%nat ->
  getData (applyOps (entryBuildOps options N i n) d) e = getData d e.
Proof.
  intros Hlt. unfold entryBuildOps.
  destruct (truthy _); simpl; unfold applyOps; simpl;
    repeat first [rewrite getData_SetStyle | rewrite getData_SetTextContent
                 | rewrite getData_AppendChild | rewrite getData_CreateElement];
    repeat case_decide; (done || lia).
Qed.

(** The build pass leaves the elements allocated before it as they are. *)
Lemma getData_buildOps options N : forall elements i n d e,
  (e < n)%nat ->
  getData (applyOps (buildOps options N i n elements) d) e = getData d e.
Proof.
  induction elements as [|element rest IH]; intros i n d e Hlt; [done|].
  cbn [buildOps]. rewrite applyOps_app, IH.
  - by apply getData_entryBuildOps.
  - unfold afterEntry. destruct (truthy _); lia.
Qed.

Lemma textContent_entryBuildOps options N i n d :
  truthy (HighlightOptions.tooltipText options) = true ->
  textContent (getData (applyOps (entryBuildOps options N i n) d) (S n))
  = tooltipTextOf options N i.
Proof.
  intros Htruthy. unfold entryBuildOps. rewrite Htruthy.
  simpl. unfold applyOps. simpl.
  rewrite !getData_SetStyle. repeat (case_decide; [|done]). simpl.
  rewrite getData_SetTextContent. by case_decide.
Qed.

Lemma textContent_buildOps options N :
  truthy (HighlightOptions.tooltipText options) = true ->
  forall elements i n d (k : nat) entry,
    builtEntries options n elements !! k = Some entry ->
    exists tooltip,
      tooltipElement entry = Some tooltip /\
      textContent (getData (applyOps (buildOps options N i n elements) d) tooltip)
      = tooltipTextOf options N (i + k).
Proof.
  intros Htruthy.
  induction elements as [|element rest IH]; intros i n d k entry Hk; [done|].
  cbn [buildOps]. rewrite applyOps_app. destruct k as [|k].
  - injection Hk as <-. exists (S n). split.
    + unfold builtEntry. simpl. by rewrite Htruthy.
    + rewrite getData_buildOps by (unfold afterEntry; rewrite Htruthy; lia).
      rewrite Nat.add_0_r. by apply textContent_entryBuildOps.
  - simpl in Hk.
    destruct (IH (S i) (afterEntry options n)
                (applyOps (entryBuildOps options N i n) d) k entry Hk)
      as (tooltip & Ht & Htext).
    exists tooltip. split; [done|]. rewrite Htext. f_equal. lia.
Qed.

Lemma builtEntries_length options : forall elements n,
  length (builtEntries options n elements) = length elements.
Proof.
  induction elements as [|element rest IH]; intros n; [done|].
  simpl. by rewrite IH.
Qed.

Lemma builtEntries_tooltipText options : forall elements n (k : nat) entry,
  builtEntries options n elements !! k = Some entry ->
  tooltipText entry = HighlightOptions.tooltipText options.
Proof.
  induction elements as [|element rest IH]; intros n k entry Hk; [done|].
  destruct k as [|k]; simpl in Hk; [by injection Hk as <-|]. by eapply IH.
Qed.

Lemma rebuilt_tooltipsRendered L elements options w :
  tooltipsRendered (rebuilt L elements options w).
Proof.
  intros i entry t Hi Ht Hne. simpl in *. unfold rebuiltEntries in *.
  rewrite length_map, builtEntries_length.
  rewrite list_lookup_fmap in Hi.
  destruct (builtEntries options (nextElement (document w)) elements !! i)
    as [built|] eqn:Hbuilt; [|done].
  injection Hi as <-. simpl in Ht.
  rewrite (builtEntries_tooltipText _ _ _ _ _ Hbuilt) in Ht.
  assert (truthy (HighlightOptions.tooltipText options) = true) as Htruthy
    by (rewrite Ht; by apply truthy_Some).
  destruct (textContent_buildOps options (length elements) Htruthy elements 0
              (nextElement (document w))
              (applyOps (removeOps (_highlightEntries (this w))) (document w))
              i built Hbuilt) as (tooltip & Htooltip & Htext).
  exists tooltip. split; [done|].
  unfold rebuildOps. rewrite !applyOps_app.
  rewrite textContent_styleWrites by apply paintOps_styleWrites.
  rewrite (applyOps_reads (measureOps _ _)) by apply measureOps_reads.
  rewrite Htext. unfold tooltipTextOf. by rewrite Ht.
Qed.

Lemma tooltipsRendered_ext w w' :
  _highlightEntries (this w') = _highlightEntries (this w) ->
  (forall e, textContent (getData (document w') e)
             = textContent (getData (document w) e)) ->
  tooltipsRendered w -> tooltipsRendered w'.
Proof.
  intros Hentries Htext Hw i entry t Hi Ht Hne. rewrite Hentries in *.
  destruct (Hw i entry t Hi Ht Hne) as (tooltip & ? & ?).
  exists tooltip. by rewrite Htext.
Qed.

Lemma update_tooltipsRendered L elements options w w' ops :
  _innerUpdateHighlight L elements options w = Some (tt, w', ops) ->
  tooltipsRendered w -> tooltipsRendered w'.
Proof.
  destruct (_innerUpdateHighlight_run L elements options w)
    as (b & reads & _ & _ & _ & Hrun).
  rewrite Hrun. intros [= <- _] Hw. destruct b; [done|].
  apply rebuilt_tooltipsRendered.
Qed.

Lemma methodStep_tooltipsRendered w w' :
  methodStep w w' -> tooltipsRendered w -> tooltipsRendered w'.
Proof.
  intros [L elements options ? ? ops Hrun | L elements color ? ? ops Hrun
         | ? ? ops Hrun | ? ? ops Hrun | language ? ? ops Hrun
         | element ? ? ops Hrun] Hw.
  - by eapply update_tooltipsRendered.
  - by eapply update_tooltipsRendered.
  - rewrite clearHighlight_run in Hrun. injection Hrun as <- _. by intros i.
  - injection Hrun as <- _. by eapply tooltipsRendered_ext.
  - injection Hrun as <- _. by eapply tooltipsRendered_ext.
  - injection Hrun as <- _. by eapply tooltipsRendered_ext.
Qed.

Lemma reachable_tooltipsRendered w : reachable w -> tooltipsRendered w.
Proof.
  induction 1 as [| w w' _ IH Hstep | w request _ IH | w w' ops _ IH Hrun].
  - by intros i.
  - by eapply methodStep_tooltipsRendered.
  - by eapply tooltipsRendered_ext.
  - injection Hrun as <- _. by eapply tooltipsRendered_ext.
Qed.

(** C4.  For every update call on an overlay with tooltip text t
    requested (t not empty), the call completes and every position has an
    entry with a tooltip element; with N > 1 elements the j-th entry
    (counting from 1) shows exactly t followed by " [j of N]", with
    N <= 1 exactly t.  So N = 1 and "foo" give "foo", and the second of
    three entries shows "foo [2 of 3]". *)
Theorem update_tooltip_text (L : Layout) (elements : list Element)
    (options : HighlightOptions.t) (t : string) (w : World) :
  reachable w ->
  HighlightOptions.tooltipText options = Some t -> t <> "" ->
  let N := length elements in
  exists w' ops,
    updateHighlight L elements options w = Some (tt, w', ops) /\
    (forall j : nat, (1 <= j <= N)%nat ->
       exists entry tooltip,
         _highlightEntries (this w') !! (j - 1)%nat = Some entry /\
         tooltipElement entry = Some tooltip /\
         ((1 < N)%nat ->
          textContent (getData (document w') tooltip)
          = t +:+ " [" +:+ pretty j +:+ " of " +:+ pretty N +:+ "]") /\
         ((N <= 1)%nat -> textContent (getData (document w') tooltip) = t)) /\
    "foo" +:+ suffix 1 0 = "foo" /\
    "foo" +:+ suffix 3 1 = "foo [2 of 3]".
Proof.
  intros Hreach Ht Hne N.
  destruct (_innerUpdateHighlight_run L elements options w)
    as (b & reads & _ & _ & _ & Hrun).
  eexists _, _. split; [exact Hrun|]. split; [|by vm_compute].
  pose proof (update_UpToDate _ _ _ _ _ _ Hrun) as (Hlen & Htext & _).
  pose proof (update_tooltipsRendered _ _ _ _ _ _ Hrun
                (reachable_tooltipsRendered _ Hreach)) as Hrendered.
  set (w' := if b then w else rebuilt L elements options w) in *.
  intros j Hj.
  destruct (lookup_lt_is_Some_2 (_highlightEntries (this w')) (j - 1)%nat)
    as [entry Hentry]; [fold N in Hlen; lia|].
  assert (tooltipText entry = Some t) as Hentry_text.
  { rewrite <- Ht. symmetry. apply Htext. by eapply list_elem_of_lookup_2. }
  destruct (Hrendered _ _ _ Hentry Hentry_text Hne) as (tooltip & Htooltip & Hshown).
  exists entry, tooltip. split_and!; [done..| |].
  - intros HN. rewrite Hshown, <- Hlen. fold N. unfold suffix.
    case_decide; [|lia]. by replace (j - 1 + 1)%nat with j by lia.
  - intros HN. rewrite Hshown, <- Hlen. fold N. unfold suffix.
    case_decide; [lia|]. apply append_empty.
Qed.

(** ** The per-frame loop (C7) *)

Section LoopProperties.

Context {ParsedSelector : Type}.

Variable stringifySelector : ParsedSelector -> string.

Variable asLocator : string -> string -> string.

Abbreviation start := (runHighlightOnRaf ParsedSelector stringifySelector asLocator).

Abbreviation frame := (animationFrame ParsedSelector stringifySelector asLocator).

Abbreviation optionsOf := (loopOptions ParsedSelector stringifySelector asLocator).

Lemma cancelRafRequest_single (tab : Tab ParsedSelector) :
  singleCallback tab ->
  animationFrameCallbacks (cancelRafRequest (this (world tab)) (window tab)) = [].
Proof.
  unfold cancelRafRequest.
  intros [Hnil | (handle & selector & Hone & Hraf & Hne)].
  - destruct (_rafRequest _); [case_decide|]; simpl; by rewrite ?Hnil.
  - rewrite Hraf. case_decide; [|done]. simpl. rewrite Hone.
    rewrite filter_cons_False; [done|]. simpl. by intros [].
Qed.

Lemma cancelRafRequest_identifier h (win : Window ParsedSelector) :
  animationFrameCallbackIdentifier (cancelRafRequest h win)
  = animationFrameCallbackIdentifier win.
Proof.
  unfold cancelRafRequest. destruct (_rafRequest h); [case_decide|]; done.
Qed.

Lemma start_run page selector (tab : Tab ParsedSelector) :
  singleCallback tab ->
  exists w ops,
    updateHighlight (layout page) (querySelectorAll page selector)
      (optionsOf (this (world tab)) selector) (world tab) = Some (tt, w, ops) /\
    start page selector tab =
      Some {| world :=
                setRafRequest
                  (Some (S (animationFrameCallbackIdentifier (window tab)))) w;
              window :=
                {| animationFrameCallbacks :=
                     [(S (animationFrameCallbackIdentifier (window tab)), selector)];
                   animationFrameCallbackIdentifier :=
                     S (animationFrameCallbackIdentifier (window tab)) |};
              updateCalls :=
                updateCalls tab ++
                [(querySelectorAll page selector,
                  optionsOf (this (world tab)) selector)] |}.
Proof.
  intros Hsingle.
  destruct (_innerUpdateHighlight_run (layout page) (querySelectorAll page selector)
              (optionsOf (this (world tab)) selector) (world tab))
    as (b & reads & _ & _ & _ & Hrun).
  eexists _, _. split; [exact Hrun|].
  unfold runHighlightOnRaf, updateHighlight. rewrite Hrun.
  unfold requestAnimationFrame.
  by rewrite (cancelRafRequest_single _ Hsingle), cancelRafRequest_identifier.
Qed.

Lemma start_singleCallback page selector (tab tab' : Tab ParsedSelector) :
  singleCallback tab -> start page selector tab = Some tab' -> singleCallback tab'.
Proof.
  intros Hsingle Hstart.
  destruct (start_run page selector tab Hsingle) as (w & ops & _ & Hrun).
  rewrite Hrun in Hstart. injection Hstart as <-. right. by eexists _, _.
Qed.

Lemma frame_run page (tab : Tab ParsedSelector) :
  singleCallback tab ->
  frame page tab =
  match animationFrameCallbacks (window tab) with
  | [] => Some tab
  | (handle, selector) :: _ =>
      start page selector
        {| world := world tab;
           window := cancelAnimationFrame handle (window tab);
           updateCalls := updateCalls tab |}
  end.
Proof.
  unfold animationFrame.
  intros [Hnil | (handle & selector & Hone & Hraf & Hne)].
  - by rewrite Hnil.
  - rewrite Hone. simpl. rewrite Hone. simpl.
    case_decide; [|done]. by destruct (start _ _ _).
Qed.

Lemma cancelled_singleCallback handle (tab : Tab ParsedSelector) :
  singleCallback tab ->
  match animationFrameCallbacks (window tab) with
  | [] => True
  | (h, _) :: _ => h = handle
  end ->
  animationFrameCallbacks (cancelAnimationFrame handle (window tab)) = [].
Proof.
  intros [Hnil | (h & selector & Hone & _ & _)].
  - intros _. simpl. by rewrite Hnil.
  - rewrite Hone. intros ->. simpl. rewrite Hone.
    rewrite filter_cons_False; [done|]. simpl. by intros [].
Qed.

Lemma methodStep_rafRequest : forall w0 w1,
  methodStep w0 w1 -> _rafRequest (this w1) = _rafRequest (this w0).
Proof.
  intros w0 w1 [L elements options w w' ops Hrun | L elements color w w' ops Hrun
               | w w' ops Hrun | w w' ops Hrun | language w w' ops Hrun
               | element w w' ops Hrun].
  - destruct (_innerUpdateHighlight_run L elements options w)
      as (b & reads & _ & _ & _ & Hrun').
    unfold updateHighlight in Hrun. rewrite Hrun' in Hrun.
    injection Hrun as <- _. by destruct b.
  - unfold maskElements in Hrun.
    destruct (_innerUpdateHighlight_run L elements
                {| HighlightOptions.tooltipText := None;
                   HighlightOptions.color :=
                     Some (if truthy color then default "" color else "#F0F") |} w)
      as (b & reads & _ & _ & _ & Hrun').
    rewrite Hrun' in Hrun. injection Hrun as <- _. by destruct b.
  - rewrite clearHighlight_run in Hrun. by injection Hrun as <- _.
  - by injection Hrun as <- _.
  - by injection Hrun as <- _.
  - by injection Hrun as <- _.
Qed.

Lemma tabStep_singleCallback : forall tab0 tab1,
  tabStep stringifySelector asLocator tab0 tab1 -> singleCallback tab0 -> singleCallback tab1.
Proof.
  intros tab0 tab1
    [page selector tab tab' Hstart | page tab tab' Hframe | tab tab' Huninstall
    | tab w' Hmethod | tab] Hsingle.
  - by eapply start_singleCallback.
  - rewrite frame_run in Hframe by done.
    destruct (animationFrameCallbacks (window tab)) as [|[handle selector] rest] eqn:Hc.
    + by injection Hframe as <-.
    + eapply start_singleCallback; [|exact Hframe]. left. simpl.
      change (animationFrameCallbacks (cancelAnimationFrame handle (window tab)) = []).
      apply cancelled_singleCallback; [done|]. by rewrite Hc.
  - unfold uninstall in Huninstall. simpl in Huninstall.
    injection Huninstall as <-. left. by apply cancelRafRequest_single.
  - destruct Hsingle as [Hnil | (handle & selector & Hone & Hraf & Hne)];
      [by left|right].
    exists handle, selector. split_and!; [done| |done]. simpl.
    by rewrite (methodStep_rafRequest _ _ Hmethod).
  - destruct Hsingle as [Hnil | (handle & selector & Hone & Hraf & Hne)];
      [by left|right]. by exists handle, selector.
Qed.

Lemma tabReachable_singleCallback (tab : Tab ParsedSelector) :
  tabReachable stringifySelector asLocator tab -> singleCallback tab.
Proof.
  induction 1 as [|tab tab' _ IH Hstep]; [by left|].
  by eapply tabStep_singleCallback.
Qed.

(** The world of a reachable tab is a reachable world. *)
Lemma tabReachable_world (tab : Tab ParsedSelector) :
  tabReachable stringifySelector asLocator tab -> reachable (world tab).
Proof.
  induction 1 as [|tab tab' Hreach IH Hstep]; [constructor|].
  pose proof (tabReachable_singleCallback _ Hreach) as Hsingle.
  assert (forall page selector t t', singleCallback t -> reachable (world t) ->
            start page selector t = Some t' -> reachable (world t')) as Hstart.
  { intros page selector t t' Hs Hr Ht.
    destruct (start_run page selector t Hs) as (w & ops & Hupdate & Hrun).
    rewrite Hrun in Ht. injection Ht as <-. simpl.
    apply reachable_rafRequest. eapply reachable_method; [exact Hr|].
    by eapply step_updateHighlight. }
  clear Hreach. revert IH Hsingle.
  destruct Hstep as [page selector tab tab' Hs | page tab tab' Hframe
                    | tab tab' Huninstall | tab w' Hmethod | tab];
    intros IH Hsingle.
  - by eapply Hstart.
  - rewrite frame_run in Hframe by done.
    destruct (animationFrameCallbacks (window tab)) as [|[handle selector] rest] eqn:Hc.
    + by injection Hframe as <-.
    + eapply Hstart; [| |exact Hframe]; [|done]. left.
      change (animationFrameCallbacks (cancelAnimationFrame handle (window tab)) = []).
      apply cancelled_singleCallback; [done|]. by rewrite Hc.
  - unfold uninstall in Huninstall. simpl in Huninstall.
    injection Huninstall as <-. simpl. by eapply reachable_remove.
  - by eapply reachable_method.
  - done.
Qed.

(** C7.  Whatever starts, frames and other calls a tab has been through,
    at most one frame callback of the loop is pending.  Every [start]
    completes: it first cancels the pending callback, performs exactly one
    update call, with the selector's current matches and the
    locator-generated tooltip text, and leaves exactly one pending
    callback, for its own selector and under the handle [_rafRequest]
    holds; so [start(selA)] followed by [start(selB)] leaves one callback,
    tracking selB.  An animation frame with a pending callback is one such
    iteration for the pending selector, and [uninstall] leaves none
    pending. *)
Theorem loop_single_callback (tab : Tab ParsedSelector) :
  tabReachable stringifySelector asLocator tab ->
  (length (animationFrameCallbacks (window tab)) <= 1)%nat /\
  (forall page selector,
     exists tab' handle w ops,
       start page selector tab = Some tab' /\
       animationFrameCallbacks (window tab') = [(handle, selector)] /\
       _rafRequest (this (world tab')) = Some handle /\
       updateHighlight (layout page) (querySelectorAll page selector)
         {| HighlightOptions.tooltipText :=
              Some (asLocator (_language (this (world tab)))
                      (stringifySelector selector));
            HighlightOptions.color := None |} (world tab) = Some (tt, w, ops) /\
       world tab' = setRafRequest (Some handle) w /\
       updateCalls tab' =
         updateCalls tab ++
         [(querySelectorAll page selector,
           {| HighlightOptions.tooltipText :=
                Some (asLocator (_language (this (world tab)))
                        (stringifySelector selector));
              HighlightOptions.color := None |})]) /\
  (forall pageA selA pageB selB,
     exists tabA tabB handle,
       start pageA selA tab = Some tabA /\
       start pageB selB tabA = Some tabB /\
       animationFrameCallbacks (window tabB) = [(handle, selB)] /\
       _rafRequest (this (world tabB)) = Some handle) /\
  (forall page,
     exists tab',
       frame page tab = Some tab' /\
       match animationFrameCallbacks (window tab) with
       | [] => tab' = tab
       | (_, selector) :: _ =>
           (exists handle,
              animationFrameCallbacks (window tab') = [(handle, selector)]) /\
           updateCalls tab' =
             updateCalls tab ++
             [(querySelectorAll page selector,
               {| HighlightOptions.tooltipText :=
                    Some (asLocator (_language (this (world tab)))
                            (stringifySelector selector));
                  HighlightOptions.color := None |})]
       end) /\
  (exists tab', uninstall tab = Some tab' /\
                animationFrameCallbacks (window tab') = []).
Proof.
  intros Hreach. pose proof (tabReachable_singleCallback _ Hreach) as Hsingle.
  split_and!.
  - destruct Hsingle as [-> | (? & ? & -> & _)]; simpl; lia.
  - intros page selector.
    destruct (start_run page selector tab Hsingle) as (w & ops & Hupdate & Hrun).
    eexists _, _, w, ops. split; [exact Hrun|]. by split_and!.
  - intros pageA selA pageB selB.
    destruct (start_run pageA selA tab Hsingle) as (wA & opsA & _ & HrunA).
    assert (singleCallback
              {| world :=
                   setRafRequest
                     (Some (S (animationFrameCallbackIdentifier (window tab)))) wA;
                 window :=
                   {| animationFrameCallbacks :=
                        [(S (animationFrameCallbackIdentifier (window tab)), selA)];
                      animationFrameCallbackIdentifier :=
                        S (animationFrameCallbackIdentifier (window tab)) |};
                 updateCalls :=
                   updateCalls tab ++
                   [(querySelectorAll pageA selA,
                     optionsOf (this (world tab)) selA)] |}) as HsingleA
      by (by eapply start_singleCallback).
    destruct (start_run pageB selB _ HsingleA) as (wB & opsB & _ & HrunB).
    eexists _, _, _. split; [exact HrunA|]. split; [exact HrunB|]. by split.
  - intros page. rewrite frame_run by done.
    destruct (animationFrameCallbacks (window tab)) as [|[handle selector] rest] eqn:Hc.
    + by eexists.
    + assert (singleCallback
                {| world := world tab;
                   window := cancelAnimationFrame handle (window tab);
                   updateCalls := updateCalls tab |}) as Hsingle'.
      { left.
        change (animationFrameCallbacks (cancelAnimationFrame handle (window tab)) = []).
        apply cancelled_singleCallback; [done|]. by rewrite Hc. }
      destruct (start_run page selector _ Hsingle') as (w & ops & _ & Hrun).
      eexists. split; [exact Hrun|]. split; [by eexists|done].
  - eexists. split; [reflexivity|]. by apply cancelRafRequest_single.
Qed.

End LoopProperties.

(** ** Concrete runs *)

Example update_one_trace :
  (fun r => match r with Some (_, _, ops) => Some ops | None => None end)
    (updateHighlight exampleLayout [1%nat] fooOptions exampleWorld)
  = Some [CreateElement "x-pw-highlight" 103%nat; AppendChild 103%nat;
          CreateElement "x-pw-tooltip" 104%nat; AppendChild 104%nat;
          SetTextContent 104%nat "foo";
          SetStyle 104%nat "top" "0"; SetStyle 104%nat "left" "0";
          SetStyle 104%nat "display" "flex";
          GetBoundingClientRect 1%nat;
          GetOffsetWidth 104%nat; GetOffsetHeight 104%nat;
          GetOffsetWidth 100%nat; GetOffsetHeight 100%nat;
          SetStyle 104%nat "top" "35px"; SetStyle 104%nat "left" "1px";
          SetStyle 103%nat "backgroundColor" "#6fa8dc7f";
          SetStyle 103%nat "left" "1px"; SetStyle 103%nat "top" "20px";
          SetStyle 103%nat "width" "30px"; SetStyle 103%nat "height" "10px";
          SetStyle 103%nat "display" "block"].
Proof. vm_compute. reflexivity. Qed.

(** C3, as worded, fails: with tooltip text requested the build pass
    writes the tooltip's initial top, left and display styles before any
    geometry is read. *)
Lemma three_phases_not_strict :
  ~ strictThreePhases exampleLayout [1%nat] fooOptions exampleWorld.
Proof.
  intros Hclaim. destruct Hclaim as (w' & ops & Hrun & _ & Hstrict).
  - intros element _. simpl. apply not_elem_of_nil.
  - apply strictPhases_fromCreates in Hstrict.
    pose proof update_one_trace as Htrace. rewrite Hrun in Htrace.
    injection Htrace as ->. vm_compute in Hstrict. discriminate.
Qed.

(** The first call of the example rebuilds. *)
Lemma exampleWorld1_run :
  updateHighlight exampleLayout [1%nat] redOptions exampleWorld
  = Some (tt, exampleWorld1, rebuildOps exampleLayout [1%nat] redOptions exampleWorld).
Proof. vm_compute. reflexivity. Qed.

(** [update_three_phases] at a call for elements 2 and 3 when element 1
    is highlighted. *)
Lemma update_three_phases_witness :
  exists w' writes reads paint,
    updateHighlight exampleLayout [2%nat; 3%nat] fooOptions exampleWorld1 =
      Some (tt, w', writes ++ reads ++ paint) /\
    allWrites writes /\ Forall isBuildWrite writes /\
    allReads reads /\
    allStyleWrites paint /\
    boxReads (writes ++ reads ++ paint) = [2%nat; 3%nat] /\
    boxReads reads = [2%nat; 3%nat].
Proof.
  apply (update_three_phases exampleLayout [2%nat; 3%nat] fooOptions exampleWorld1).
  intros element Hin. simpl.
  intros Hone%list_elem_of_singleton. subst element.
  apply elem_of_cons in Hin as [Hin|Hin]; [discriminate|].
  apply list_elem_of_singleton in Hin. discriminate.
Defined.

(** [update_tooltip_text] at a call for three elements with the text foo. *)
Lemma update_tooltip_text_witness :
  exists w' ops,
    updateHighlight exampleLayout [1%nat; 2%nat; 3%nat] fooOptions exampleWorld1
      = Some (tt, w', ops) /\
    (forall j : nat, (1 <= j <= 3)%nat ->
       exists entry tooltip,
         _highlightEntries (this w') !! (j - 1)%nat = Some entry /\
         tooltipElement entry = Some tooltip /\
         ((1 < 3)%nat ->
          textContent (getData (document w') tooltip)
          = "foo" +:+ " [" +:+ pretty j +:+ " of " +:+ pretty 3%nat +:+ "]") /\
         ((3 <= 1)%nat -> textContent (getData (document w') tooltip) = "foo")) /\
    "foo" +:+ suffix 1 0 = "foo" /\
    "foo" +:+ suffix 3 1 = "foo [2 of 3]".
Proof.
  apply (update_tooltip_text exampleLayout [1%nat; 2%nat; 3%nat] fooOptions "foo"
           exampleWorld1).
  - eapply reachable_method; [apply reachable_constructor|].
    eapply step_updateHighlight. apply exampleWorld1_run.
  - reflexivity.
  - discriminate.
Defined.

(** [update_ignores_color_change] at a red call followed by a blue one. *)
Lemma update_ignores_color_change_witness :
  exists reads,
    updateHighlight exampleLayout [1%nat] blueOptions exampleWorld1
      = Some (tt, exampleWorld1, reads) /\
    noMutation reads /\
    _highlightIsUpToDate exampleLayout [1%nat]
      (HighlightOptions.tooltipText blueOptions) exampleWorld1
      = Some (true, exampleWorld1, reads) /\
    (~ UpToDate exampleLayout [1%nat] (HighlightOptions.tooltipText redOptions)
         (_highlightEntries (this exampleWorld)) ->
     forall entry, entry ∈ _highlightEntries (this exampleWorld1) ->
       backgroundColor (document exampleWorld1) (highlightElement entry)
       = Some (resolveColor [1%nat] redOptions)).
Proof.
  apply (update_ignores_color_change exampleLayout exampleLayout [1%nat]
           redOptions blueOptions exampleWorld exampleWorld1
           (rebuildOps exampleLayout [1%nat] redOptions exampleWorld)).
  - reflexivity.
  - intros element _. apply sameEdges_refl.
  - apply exampleWorld1_run.
Defined.

(** The second call asks for blue; the box stays red. *)
Example color_kept :
  exists reads,
    updateHighlight exampleLayout [1%nat] blueOptions exampleWorld1
      = Some (tt, exampleWorld1, reads) /\
    resolveColor [1%nat] blueOptions = "blue" /\
    backgroundColor (document exampleWorld1) 103%nat = Some "red".
Proof.
  exists [GetBoundingClientRect 1%nat]. split_and!; by vm_compute.
Qed.

(** C5, as worded, fails: a call for the same element, text and box that
    asks for another color finds the registry up to date and paints
    nothing, so the box keeps the color of the earlier call. *)
Lemma update_keeps_earlier_color :
  ~ paintsEveryBox exampleLayout [1%nat] blueOptions exampleWorld1.
Proof.
  intros (w' & ops & Hrun & Hall).
  assert (updateHighlight exampleLayout [1%nat] blueOptions exampleWorld1
          = Some (tt, exampleWorld1, [GetBoundingClientRect 1%nat])) as Hrun'
    by (vm_compute; reflexivity).
  rewrite Hrun' in Hrun. injection Hrun as <- _.
  assert (exampleEntry1 ∈ _highlightEntries (this exampleWorld1)) as Hin.
  { change (exampleEntry1 ∈ [exampleEntry1]). by left. }
  pose proof (Hall exampleEntry1 Hin) as Hblue.
  vm_compute in Hblue. discriminate Hblue.
Qed.

(** The same on the example of the color defaults: after
    [updateHighlight([1], {})] the call [maskElements([1])] asks for '#F0F',
    only reads, and leaves the box '#6fa8dc7f'. *)
Example mask_keeps_earlier_color :
  exists w1 ops1,
    updateHighlight exampleLayout [1%nat] (HighlightOptions.mk None None)
      exampleWorld = Some (tt, w1, ops1) /\
    maskElements exampleLayout [1%nat] None w1
    = Some (tt, w1, [GetBoundingClientRect 1%nat]) /\
    maskColor None = "#F0F" /\
    backgroundColor (document w1) 103%nat = Some "#6fa8dc7f".
Proof.
  eexists _, _. split; [vm_compute; reflexivity|].
  split_and!; by vm_compute.
Qed.

(** [loop_single_callback] at a new tab: two starts in a row. *)
Lemma loop_single_callback_witness :
  tabReachable id exampleLocator exampleTab /\
  exists tabA tabB handle,
    runHighlightOnRaf string id exampleLocator examplePage "a" exampleTab
      = Some tabA /\
    runHighlightOnRaf string id exampleLocator examplePage "bb" tabA
      = Some tabB /\
    animationFrameCallbacks (window tabB) = [(handle, "bb")] /\
    _rafRequest (this (world tabB)) = Some handle.
Proof.
  assert (tabReachable id exampleLocator exampleTab) as Hreach by apply tab_new.
  split; [exact Hreach|].
  exact (proj1 (proj2 (proj2 (loop_single_callback id exampleLocator exampleTab Hreach)))
           examplePage "a" examplePage "bb").
Defined.

(** Two starts in a row on the example tab: one callback, for the second
    selector, under handle 9; two update calls were made. *)
Example two_starts :
  (fun r => match r with
            | Some tab => Some (animationFrameCallbacks (window tab),
                                _rafRequest (this (world tab)),
                                map fst (updateCalls tab))
            | None => None
            end)
    (match runHighlightOnRaf string id exampleLocator examplePage "a" exampleTab with
     | Some tab => runHighlightOnRaf string id exampleLocator examplePage "bb" tab
     | None => None
     end)
  = Some ([(9%nat, "bb")], Some 9%nat, [[1%nat]; [1%nat; 2%nat]]).
Proof. vm_compute. reflexivity. Qed.

(** The paint loop does throw on an entry without a box. *)
Example paint_unmeasured_throws :
  paintLoop "red" false [unmeasuredEntry] exampleWorld = None.
Proof. reflexivity. Qed.

(** With nothing highlighted and nothing requested the check answers true
    even when the tooltip text differs from the previous call's. *)
Example text_change_on_empty :
  updateHighlight exampleLayout [] fooOptions exampleWorld
    = Some (tt, exampleWorld, []) /\
  _highlightIsUpToDate exampleLayout [] (Some "bar") exampleWorld
    = Some (true, exampleWorld, []) /\
  rebuilt exampleLayout [] (HighlightOptions.mk (Some "bar") None) exampleWorld
    = exampleWorld.
Proof. split_and!; [reflexivity | reflexivity | by apply rebuilt_nil]. Qed.

(** A tooltip 50 by 16 for a box at the bottom right corner of the 800 by
    600 page: clamped to the right edge and, with no room above a tall
    box, pinned to the bottom. *)
Example tooltip_clamped :
  (fun r => match r with Some (a, _, _) => Some (anchorLeft a, anchorTop a) | None => None end)
    (tooltipPosition exampleLayout (DOMRect.mk 780 10 30 585 10 810 595 780)
       104%nat exampleWorld)
  = Some (800 - 50 - 5, 600 - 5 - 16).
Proof. reflexivity. Qed.

(** * Further properties of the overlay *)

(** ** Where a tooltip can end up *)

(** X1.  The tooltip never crosses the right margin of the surface and is
    never moved to the right of the box's left edge; it keeps clear of the
    bottom margin whenever the box starts above the surface's bottom edge;
    and it is 5 units below the box, or 5 units above it, or pinned to the
    bottom margin, the last only when there is no room above. *)
Theorem tooltipPosition_inside_surface (L : Layout) (box : DOMRect.t)
    (tooltip : Element) (world : World) :
  let w := layoutWidth L tooltip in
  let h := layoutHeight L tooltip in
  let W := layoutWidth L (_glassPaneElement (this world)) in
  let H := layoutHeight L (_glassPaneElement (this world)) in
  exists a ops,
    tooltipPosition L box tooltip world = Some (a, world, ops) /\
    allReads ops /\
    anchorLeft a + w <= W - 5 /\
    anchorLeft a <= DOMRect.left box /\
    (DOMRect.top box <= H -> anchorTop a + h <= H - 5) /\
    (anchorTop a = DOMRect.bottom box + 5 \/
     anchorTop a + h = DOMRect.top box - 5 \/
     (anchorTop a + h = H - 5 /\ DOMRect.top box <= h + 5)) /\
    (h <= H - 5 -> -5 <= DOMRect.bottom box -> 0 <= anchorTop a).
Proof.
  intros w h W H. rewrite tooltipPosition_run. eexists _, _.
  split; [reflexivity|]. split; [by repeat constructor|].
  unfold anchorAt. cbn [anchorLeft anchorTop]. fold w h W H.
  repeat case_decide; lia.
Qed.

(** ** What the up-to-date check reads *)

Lemma upToDateLoop_prefix L text : forall entries elements w,
  length elements = length entries ->
  exists (b : bool) (k : nat),
    upToDateLoop L text elements entries w
      = Some (b, w, map GetBoundingClientRect (take k elements)) /\
    (b = true -> k = length elements) /\
    (b = false ->
     exists (i : nat) element entry,
       elements !! i = Some element /\ entries !! i = Some entry /\
       ~ entryUpToDate L text element entry /\
       Forall2 (entryUpToDate L text) (take i elements) (take i entries) /\
       (i <= k <= S i)%nat).
Proof.
  induction entries as [|entry rest IH]; intros elements w Hlen.
  - destruct elements; [|done]. exists true, 0%nat. by split_and!.
  - destruct elements as [|element restElements]; [done|].
    injection Hlen as Hlen. simpl.
    assert (forall k, (k <= 1)%nat -> ~ entryUpToDate L text element entry ->
              exists (i : nat) element0 entry0,
                (element :: restElements) !! i = Some element0 /\
                (entry :: rest) !! i = Some entry0 /\
                ~ entryUpToDate L text element0 entry0 /\
                Forall2 (entryUpToDate L text) (take i (element :: restElements))
                  (take i (entry :: rest)) /\
                (i <= k <= S i)%nat) as Hhere.
    { intros k Hk Hnot. exists 0%nat, element, entry.
      split_and!; [done | done | done | constructor | lia | lia]. }
    case_decide as Htext.
    { exists false, 0%nat. split_and!; [done | done |]. intros _.
      apply Hhere; [lia|]. unfold entryUpToDate. tauto. }
    case_decide as Htarget.
    { exists false, 0%nat. split_and!; [done | done |]. intros _.
      apply Hhere; [lia|]. unfold entryUpToDate. tauto. }
    destruct (box entry) as [oldBox|] eqn:Hbox.
    2:{ exists false, 0%nat. split_and!; [done | done |]. intros _.
        apply Hhere; [lia|]. intros (_ & _ & ? & ? & _). congruence. }
    unfold mbind, M_bind, bind. simpl.
    case_decide as Hedges.
    { exists false, 1%nat. split_and!; [done | done |]. intros _.
      apply Hhere; [lia|]. intros (_ & _ & old & Hold & Hsame).
      replace old with oldBox in Hsame by congruence.
      by apply edgesDiffer_sameEdges in Hsame. }
    destruct (IH restElements w Hlen) as (b & k & Hrun & Htrue & Hfalse).
    rewrite Hrun. exists b, (S k). split_and!; [done | |].
    + intros Hb. simpl. by rewrite Htrue.
    + intros Hb. destruct (Hfalse Hb) as (i & e0 & en0 & He0 & Hen0 & Hnot & Hpre & Hik).
      exists (S i), e0, en0. split_and!; [done | done | done | | lia | lia].
      simpl. constructor; [|done]. unfold entryUpToDate. split_and!.
      * by destruct (decide (text = tooltipText entry)); [|destruct Htext].
      * by destruct (decide (element = targetElement entry)); [|destruct Htarget].
      * exists oldBox. split; [done|]. by apply edgesDiffer_sameEdges.
Qed.

(** X2.  The up-to-date check writes nothing and leaves the world as it
    is.  It measures the elements in order and stops at the first position
    that is stale: with different lengths it measures nothing; answering
    true it has measured every element once; answering false on equal
    lengths it has measured no element past the first stale position. *)
Theorem _highlightIsUpToDate_reads_prefix (L : Layout) (elements : list Element)
    (text : option string) (w : World) :
  exists (b : bool) (k : nat),
    _highlightIsUpToDate L elements text w
      = Some (b, w, map GetBoundingClientRect (take k elements)) /\
    (length elements <> length (_highlightEntries (this w)) ->
     b = false /\ k = 0%nat) /\
    (b = true -> k = length elements) /\
    (b = false -> length elements = length (_highlightEntries (this w)) ->
     exists (i : nat) element entry,
       elements !! i = Some element /\
       _highlightEntries (this w) !! i = Some entry /\
       ~ entryUpToDate L text element entry /\
       Forall2 (entryUpToDate L text) (take i elements)
         (take i (_highlightEntries (this w))) /\
       (i <= k <= S i)%nat).
Proof.
  unfold _highlightIsUpToDate, mbind, M_bind, bind. simpl.
  case_decide as Hlen.
  - exists false, 0%nat. rewrite take_0. split_and!; [done | done | done |].
    intros _ Heq. by destruct Hlen.
  - assert (length elements = length (_highlightEntries (this w))) as Hlen'.
    { destruct (decide (length elements = length (_highlightEntries (this w)))); [done|].
      by destruct Hlen. }
    destruct (upToDateLoop_prefix L text _ _ w Hlen') as (b & k & Hrun & Htrue & Hfalse).
    rewrite Hrun. exists b, k. split_and!; [done | | done |].
    + intros Hne. by destruct Hne.
    + intros Hb _. by apply Hfalse.
Qed.

(** ** Updating with nothing, and the first box *)

Lemma rebuild_nothing_is_clear L options w :
  Some (tt, rebuilt L [] options w, rebuildOps L [] options w) = clearHighlight w.
Proof.
  rewrite clearHighlight_run. unfold rebuilt, rebuildOps, rebuiltEntries, paintLog.
  simpl. destruct (_isUnderTest (this w)); rewrite !app_nil_r; reflexivity.
Qed.

(** X3.  An update or a mask with no element is a [clear]: the same
    removals, the same world, nothing read. *)
Theorem update_nothing_is_clear (L : Layout) (options : HighlightOptions.t)
    (color : option string) (w : World) :
  updateHighlight L [] options w = clearHighlight w /\
  maskElements L [] color w = clearHighlight w.
Proof.
  assert (forall o, _innerUpdateHighlight L [] o w = clearHighlight w) as Hboth.
  { intros o.
    destruct (_innerUpdateHighlight_run L [] o w)
      as (b & reads & Hcheck & _ & Hb & Hrun).
    destruct (_highlightIsUpToDate_fresh L [] (HighlightOptions.tooltipText o) w)
      as [b' Hfresh]; [by intros element Hin%elem_of_nil|].
    rewrite Hfresh in Hcheck. injection Hcheck as -> <-.
    rewrite Hrun. destruct b; [|apply rebuild_nothing_is_clear].
    destruct Hb as [Hb _]. destruct (Hb eq_refl) as (Hlen & _).
    symmetry in Hlen. apply nil_length_inv in Hlen.
    rewrite <- (rebuild_nothing_is_clear L o w).
    by destruct (rebuilt_nil L o w Hlen) as [-> ->]. }
  split; apply Hboth.
Qed.

(** X4.  After an update with at least one element [firstBox] returns a
    box, with the top, right, bottom and left the first element measures
    now; when the call rebuilt, it is the very box the measure pass read
    for the first element. *)
Theorem firstBox_after_update (L : Layout) (element : Element)
    (rest : list Element) (options : HighlightOptions.t) (w : World) :
  exists w' ops b,
    updateHighlight L (element :: rest) options w = Some (tt, w', ops) /\
    firstBox w' = Some (Some b, w', []) /\
    sameEdges (boundingClientRect L element) b /\
    (~ UpToDate L (element :: rest) (HighlightOptions.tooltipText options)
         (_highlightEntries (this w)) ->
     b = boundingClientRect L element).
Proof.
  destruct (_innerUpdateHighlight_run L (element :: rest) options w)
    as (b & reads & _ & _ & Hb & Hrun).
  pose proof (update_UpToDate _ _ _ _ _ _ Hrun) as Hup.
  destruct b.
  - destruct Hup as (Hlen & _ & _ & Hbox & Hedges).
    destruct (_highlightEntries (this w)) as [|entry entries] eqn:Hentries; [done|].
    destruct (Hbox entry) as [old Hold]; [by left|].
    exists w, (reads ++ []), old. split_and!; [done | | |].
    + rewrite firstBox_run, Hentries. by rewrite Hold.
    + by apply (Hedges 0%nat element entry).
    + intros Hnot. destruct Hnot. by apply Hb.
  - eexists _, _, _. split_and!; [exact Hrun | reflexivity | apply sameEdges_refl | done].
Qed.

(** ** The elements the overlay owns *)

Lemma removeOps_owned entries :
  removeOps entries = map RemoveElement (ownedElements entries).
Proof.
  induction entries as [|entry rest IH]; [done|].
  unfold removeOps, ownedElements in *. simpl. rewrite IH, map_app.
  f_equal. unfold entryRemoveOps, entryElements.
  by destruct (tooltipElement entry).
Qed.

Lemma ownedElements_built options : forall elements n,
  ownedElements (builtEntries options n elements) = seq n (allocated options elements).
Proof.
  unfold allocated.
  induction elements as [|element rest IH]; intros n.
  - by rewrite Nat.mul_0_r.
  - unfold ownedElements in *. simpl. rewrite IH.
    unfold entryElements, builtEntry, afterEntry. simpl.
    destruct (truthy _); simpl; [|done].
    by replace (length rest + S (length rest + 0))%nat
      with (S (length rest + (length rest + 0)))%nat by lia.
Qed.

Lemma ownedElements_measured L glass entries :
  ownedElements (map (measuredEntry L glass) entries) = ownedElements entries.
Proof.
  induction entries as [|entry rest IH]; [done|].
  unfold ownedElements in *. simpl. by rewrite IH.
Qed.

Lemma ownedElements_rebuilt L elements options w :
  ownedElements (rebuiltEntries L elements options w)
  = seq (nextElement (document w)) (allocated options elements).
Proof.
  unfold rebuiltEntries. by rewrite ownedElements_measured, ownedElements_built.
Qed.

Lemma getData_other op d e :
  dataWrite op <> Some e -> getData (applyOp op d) e = getData d e.
Proof.
  intros Hne. destruct op; try done; simpl in Hne.
  - rewrite getData_CreateElement. case_decide; [congruence|done].
  - rewrite getData_SetTextContent. case_decide; [congruence|done].
  - rewrite getData_SetStyle. case_decide; [congruence|done].
Qed.

Lemma getData_others ops : forall d e,
  Forall (fun op => dataWrite op <> Some e) ops ->
  getData (applyOps ops d) e = getData d e.
Proof.
  induction ops as [|op ops IH]; intros d e Hall; [done|].
  apply Forall_cons_1 in Hall as [Hop Hall].
  rewrite applyOps_cons, IH by done. by apply getData_other.
Qed.

Lemma buildOps_elements options N : forall elements i n op,
  op ∈ buildOps options N i n elements ->
  opElement op ∈ seq n (allocated options elements).
Proof.
  unfold allocated.
  induction elements as [|element rest IH]; intros i n op Hin;
    [by apply elem_of_nil in Hin|].
  cbn [buildOps] in Hin. apply elem_of_app in Hin as [Hin|Hin].
  - rewrite elem_of_seq. unfold entryBuildOps in Hin. simpl length.
    destruct (truthy _); simpl in Hin;
      repeat (apply elem_of_cons in Hin as [->|Hin]; [simpl; lia|]);
      by apply elem_of_nil in Hin.
  - apply IH in Hin. rewrite elem_of_seq in *. simpl length.
    unfold afterEntry in Hin. destruct (truthy _); lia.
Qed.

Lemma paintOps_elements color entries op :
  op ∈ paintOps color entries -> opElement op ∈ ownedElements entries.
Proof.
  unfold paintOps, ownedElements.
  intros (entry & Hentry & Hop)%list_elem_of_In%in_flat_map.
  apply list_elem_of_In in Hop. apply list_elem_of_In, in_flat_map.
  exists entry. split; [done|]. apply list_elem_of_In.
  unfold entryPaintOps, entryElements in *.
  destruct (tooltipElement entry) as [tooltip|], (box entry); simpl in *;
    repeat (apply elem_of_cons in Hop as [->|Hop];
            [simpl; set_solver|]);
    by apply elem_of_nil in Hop.
Qed.

Lemma nextElement_others ops : forall d,
  Forall (fun op => match op with CreateElement _ _ => False | _ => True end) ops ->
  nextElement (applyOps ops d) = nextElement d.
Proof.
  induction ops as [|op ops IH]; intros d Hall; [done|].
  apply Forall_cons_1 in Hall as [Hop Hall].
  rewrite applyOps_cons, IH by done. by destruct op.
Qed.

Lemma nextElement_buildOps options N : forall elements i d,
  nextElement (applyOps (buildOps options N i (nextElement d) elements) d)
  = (nextElement d + allocated options elements)%nat.
Proof.
  unfold allocated.
  induction elements as [|element rest IH]; intros i d.
  - simpl. lia.
  - cbn [buildOps]. rewrite applyOps_app.
    set (d1 := applyOps (entryBuildOps options N i (nextElement d)) d).
    assert (nextElement d1 = afterEntry options (nextElement d)) as Hnext.
    { subst d1. unfold entryBuildOps, afterEntry. by destruct (truthy _). }
    rewrite <- Hnext, IH, Hnext. unfold afterEntry. simpl length.
    destruct (truthy _); lia.
Qed.

Lemma nextElement_rebuilt L elements options w :
  nextElement (document (rebuilt L elements options w))
  = (nextElement (document w) + allocated options elements)%nat.
Proof.
  simpl. unfold rebuildOps. rewrite !app_assoc, !applyOps_app.
  rewrite (nextElement_others (paintOps _ _)).
  2:{ eapply Forall_impl; [apply paintOps_styleWrites|]. by intros []. }
  rewrite (applyOps_reads (measureOps _ _)) by apply measureOps_reads.
  rewrite <- (nextElement_removeOps (_highlightEntries (this w)) (document w)).
  apply nextElement_buildOps.
Qed.

Lemma rebuildOps_elements L elements options w op :
  op ∈ rebuildOps L elements options w -> isWrite op = true ->
  opElement op ∈ ownedElements (_highlightEntries (this w)) \/
  (nextElement (document w) <= opElement op)%nat.
Proof.
  unfold rebuildOps. rewrite !elem_of_app.
  intros [Hin|[Hin|[Hin|Hin]]] Hwrite.
  - left. rewrite removeOps_owned in Hin.
    apply list_elem_of_fmap in Hin as (e & -> & He). done.
  - right. apply buildOps_elements, elem_of_seq in Hin. lia.
  - pose proof (measureOps_reads (_glassPaneElement (this w))
                  (builtEntries options (nextElement (document w)) elements)) as Hreads.
    unfold allReads in Hreads. rewrite Forall_forall in Hreads.
    specialize (Hreads op Hin). unfold isWrite in Hwrite.
    rewrite Hreads in Hwrite. done.
  - right. apply paintOps_elements in Hin.
    rewrite ownedElements_rebuilt in Hin. apply elem_of_seq in Hin. lia.
Qed.

Lemma dataWrite_opElement op e : dataWrite op = Some e -> opElement op = e.
Proof. destruct op; simpl; congruence. Qed.

Lemma rebuildOps_dataWrite L elements options w op e :
  op ∈ rebuildOps L elements options w -> dataWrite op = Some e ->
  (nextElement (document w) <= e)%nat.
Proof.
  unfold rebuildOps. rewrite !elem_of_app.
  intros [Hin|[Hin|[Hin|Hin]]] Hdata.
  - rewrite removeOps_owned in Hin.
    apply list_elem_of_fmap in Hin as (e' & -> & _). done.
  - apply buildOps_elements, elem_of_seq in Hin.
    apply dataWrite_opElement in Hdata. lia.
  - pose proof (measureOps_reads (_glassPaneElement (this w))
                  (builtEntries options (nextElement (document w)) elements)) as Hreads.
    unfold allReads in Hreads. rewrite Forall_forall in Hreads.
    specialize (Hreads op Hin). by destruct op.
  - apply paintOps_elements in Hin.
    rewrite ownedElements_rebuilt in Hin. apply elem_of_seq in Hin.
    apply dataWrite_opElement in Hdata. lia.
Qed.

Lemma getData_rebuilt L elements options w e :
  (e < nextElement (document w))%nat ->
  getData (document (rebuilt L elements options w)) e = getData (document w) e.
Proof.
  intros Hlt. simpl. apply getData_others, Forall_forall.
  intros op Hin Hdata. apply (rebuildOps_dataWrite _ _ _ _ _ _ Hin) in Hdata. lia.
Qed.

(** X5.  An update only ever writes to elements the overlay owns: every
    DOM write of the call is made on an element of the registry (a
    removal) or on an element the call itself created.  Tag, text and
    style of every element that existed before the call, the targets
    among them, are left as they were, and the allocation counter never
    goes back. *)
Theorem update_writes_only_owned (L : Layout) (elements : list Element)
    (options : HighlightOptions.t) (w : World) :
  exists w' ops,
    updateHighlight L elements options w = Some (tt, w', ops) /\
    (forall op, op ∈ ops -> isWrite op = true ->
       (opElement op ∈ ownedElements (_highlightEntries (this w)) /\
        exists e, op = RemoveElement e) \/
       (nextElement (document w) <= opElement op)%nat) /\
    (forall e, (e < nextElement (document w))%nat ->
       getData (document w') e = getData (document w) e) /\
    (nextElement (document w) <= nextElement (document w'))%nat.
Proof.
  destruct (_innerUpdateHighlight_run L elements options w)
    as (b & reads & _ & Hreads & _ & Hrun).
  eexists _, _. split; [exact Hrun|]. split_and!.
  - intros op [Hin|Hin]%elem_of_app Hwrite.
    + unfold allReads in Hreads. rewrite Forall_forall in Hreads.
      specialize (Hreads op Hin). unfold isWrite in Hwrite.
      rewrite Hreads in Hwrite. done.
    + destruct b; [by apply elem_of_nil in Hin|].
      destruct (rebuildOps_elements _ _ _ _ _ Hin Hwrite) as [Hown|?]; [|by right].
      unfold rebuildOps in Hin. rewrite !elem_of_app in Hin.
      destruct Hin as [Hin|Hother].
      * left. split; [done|]. rewrite removeOps_owned in Hin.
        apply list_elem_of_fmap in Hin as (e & -> & _). by exists e.
      * right.
        assert (op ∈ rebuildOps L elements options w) as Hin'
          by (unfold rebuildOps; rewrite !elem_of_app; by right).
        destruct Hother as [Hin|[Hin|Hin]].
        -- apply buildOps_elements, elem_of_seq in Hin. lia.
        -- pose proof (measureOps_reads (_glassPaneElement (this w))
                         (builtEntries options (nextElement (document w)) elements))
             as Hr.
           unfold allReads in Hr. rewrite Forall_forall in Hr.
           specialize (Hr op Hin). unfold isWrite in Hwrite.
           rewrite Hr in Hwrite. done.
        -- apply paintOps_elements in Hin.
           rewrite ownedElements_rebuilt in Hin. apply elem_of_seq in Hin. lia.
  - intros e Hlt. destruct b; [done|]. by apply getData_rebuilt.
  - destruct b; [done|]. rewrite nextElement_rebuilt. lia.
Qed.

(** ** The children of the surface *)

Lemma shadowChildren_noDetach ops : forall d c,
  Forall noDetach ops ->
  c ∈ shadowChildren d -> c ∈ shadowChildren (applyOps ops d).
Proof.
  induction ops as [|op ops IH]; intros d c Hall Hin; [done|].
  apply Forall_cons_1 in Hall as [Hop Hall].
  rewrite applyOps_cons. apply IH; [done|].
  destruct op; try done. simpl.
  destruct (decide (c = e)) as [->|Hne].
  - apply elem_of_app. right. by left.
  - apply elem_of_app. left. by apply elem_of_without.
Qed.

Lemma shadowChildren_appended ops : forall d e,
  Forall noDetach ops -> AppendChild e ∈ ops ->
  e ∈ shadowChildren (applyOps ops d).
Proof.
  induction ops as [|op ops IH]; intros d e Hall Hin;
    [by apply elem_of_nil in Hin|].
  apply Forall_cons_1 in Hall as [Hop Hall].
  rewrite applyOps_cons. apply elem_of_cons in Hin as [<-|Hin]; [|by apply IH].
  apply shadowChildren_noDetach; [done|]. simpl.
  apply elem_of_app. right. by left.
Qed.

Lemma shadowChildren_keepsChildren ops : forall d,
  Forall keepsChildren ops -> shadowChildren (applyOps ops d) = shadowChildren d.
Proof.
  induction ops as [|op ops IH]; intros d Hall; [done|].
  apply Forall_cons_1 in Hall as [Hop Hall].
  rewrite applyOps_cons, IH by done. by destruct op.
Qed.

Lemma buildOps_noDetach options N : forall elements i n,
  Forall noDetach (buildOps options N i n elements).
Proof.
  induction elements as [|element rest IH]; intros i n; [constructor|].
  cbn [buildOps]. apply Forall_app. split; [|apply IH].
  unfold entryBuildOps. destruct (truthy _); by Forall_list.
Qed.

Lemma measureOps_keepsChildren glass entries :
  Forall keepsChildren (measureOps glass entries).
Proof.
  eapply Forall_impl; [apply measureOps_reads|]. by intros [].
Qed.

Lemma paintOps_keepsChildren color entries :
  Forall keepsChildren (paintOps color entries).
Proof.
  eapply Forall_impl; [apply paintOps_styleWrites|]. by intros [].
Qed.

Lemma keepsChildren_noDetach ops : Forall keepsChildren ops -> Forall noDetach ops.
Proof. intros Hall. eapply Forall_impl; [exact Hall|]. by intros []. Qed.

Lemma buildOps_appends options N : forall elements i n e,
  e ∈ seq n (allocated options elements) ->
  AppendChild e ∈ buildOps options N i n elements.
Proof.
  unfold allocated.
  induction elements as [|element rest IH]; intros i n e Hin.
  - rewrite Nat.mul_0_r in Hin. by apply elem_of_nil in Hin.
  - cbn [buildOps]. apply elem_of_app. rewrite elem_of_seq in Hin.
    simpl length in Hin. unfold entryBuildOps, afterEntry in *.
    destruct (truthy _) eqn:Htruthy.
    + destruct (decide (e = n)) as [->|];
        [left; simpl; repeat first [by left | right]|].
      destruct (decide (e = S n)) as [->|];
        [left; simpl; repeat first [by left | right]|].
      right. apply IH. rewrite elem_of_seq. lia.
    + destruct (decide (e = n)) as [->|];
        [left; simpl; repeat first [by left | right]|].
      right. apply IH. rewrite elem_of_seq. lia.
Qed.

(** After a rebuild every element of the new registry is a child of the
    surface. *)
Lemma rebuilt_attached L elements options w e :
  e ∈ ownedElements (rebuiltEntries L elements options w) ->
  e ∈ shadowChildren (document (rebuilt L elements options w)).
Proof.
  rewrite ownedElements_rebuilt. intros Hin. simpl. unfold rebuildOps.
  rewrite applyOps_app. apply shadowChildren_appended.
  - rewrite !Forall_app. split_and!.
    + apply buildOps_noDetach.
    + apply keepsChildren_noDetach, measureOps_keepsChildren.
    + apply keepsChildren_noDetach, paintOps_keepsChildren.
  - apply elem_of_app. left. by apply buildOps_appends.
Qed.

Lemma rebuilt_overlayOwns L elements options w :
  _actionPointElement (this w) = S (_glassPaneElement (this w)) ->
  (S (S (_glassPaneElement (this w))) < nextElement (document w))%nat ->
  overlayOwns (rebuilt L elements options w).
Proof.
  intros Hap Hnext. unfold overlayOwns.
  rewrite nextElement_rebuilt.
  change (_highlightEntries (this (rebuilt L elements options w)))
    with (rebuiltEntries L elements options w).
  split_and!; [done | simpl; lia | | |].
  - rewrite ownedElements_rebuilt. apply NoDup_seq.
  - intros e. rewrite ownedElements_rebuilt, elem_of_seq. simpl. lia.
  - intros e. apply rebuilt_attached.
Qed.

Lemma update_overlayOwns L elements options w w' ops :
  _innerUpdateHighlight L elements options w = Some (tt, w', ops) ->
  overlayOwns w -> overlayOwns w'.
Proof.
  destruct (_innerUpdateHighlight_run L elements options w)
    as (b & reads & _ & _ & _ & Hrun).
  rewrite Hrun. intros [= <- _] Hw. destruct b; [done|].
  destruct Hw as (? & ? & _). by apply rebuilt_overlayOwns.
Qed.

Lemma overlayOwns_children w w' :
  this w' = this w -> nextElement (document w') = nextElement (document w) ->
  (forall c, c <> _glassPaneElement (this w) ->
     c ∈ shadowChildren (document w) -> c ∈ shadowChildren (document w')) ->
  overlayOwns w -> overlayOwns w'.
Proof.
  intros Hthis Hnext Hchildren (Hap & Hglass & Hnodup & Hbounds & Hattached).
  unfold overlayOwns. rewrite Hthis, Hnext. split_and!; [done..|].
  intros e He. apply Hchildren; [|by apply Hattached].
  specialize (Hbounds e He). lia.
Qed.

Lemma methodStep_overlayOwns w0 w1 :
  methodStep w0 w1 -> overlayOwns w0 -> overlayOwns w1.
Proof.
  intros [L elements options w w' ops Hrun | L elements color w w' ops Hrun
         | w w' ops Hrun | w w' ops Hrun | language w w' ops Hrun
         | element w w' ops Hrun] Hw.
  - by eapply update_overlayOwns.
  - by eapply update_overlayOwns.
  - rewrite clearHighlight_run in Hrun. injection Hrun as <- _.
    destruct Hw as (Hap & Hglass & _). unfold overlayOwns. simpl.
    rewrite nextElement_removeOps.
    split_and!; [done | done | constructor | |]; by intros e Hin%elem_of_nil.
  - injection Hrun as <- _.
    apply (overlayOwns_children w); [reflexivity | reflexivity | | exact Hw].
    intros c Hne Hin. simpl. by apply elem_of_without.
  - injection Hrun as <- _.
    destruct Hw as (Hap & Hglass & Hnodup & Hbounds & Hattached).
    by unfold overlayOwns.
  - injection Hrun as <- _.
    apply (overlayOwns_children w); [reflexivity | reflexivity | | exact Hw].
    intros c Hne Hin. simpl. destruct (decide (c = element)) as [->|].
    + apply elem_of_app. right. by left.
    + apply elem_of_app. left. by apply elem_of_without.
Qed.

Lemma constructor_overlayOwns isUnderTest highlightCSS d :
  overlayOwns (constructor isUnderTest highlightCSS d).
Proof.
  unfold overlayOwns. simpl.
  split_and!; [done | lia | constructor | |]; by intros e Hin%elem_of_nil.
Qed.

Lemma reachable_overlayOwns w : reachable w -> overlayOwns w.
Proof.
  induction 1 as [| w w' _ IH Hstep | w request _ IH | w w' ops _ IH Hrun].
  - apply constructor_overlayOwns.
  - by eapply methodStep_overlayOwns.
  - done.
  - injection Hrun as <- _.
    apply (overlayOwns_children w); [reflexivity | reflexivity | | exact IH].
    intros c Hne Hin. simpl. by apply elem_of_without.
Qed.

(** X6.  In every world an overlay goes through, no element belongs to two
    entries of the registry or serves as both highlight and tooltip, and
    every highlight and tooltip element of the registry is a child of the
    surface, was created by the overlay after its own glass pane, action
    point and style element, and so is none of them. *)
Theorem registry_elements_attached (w : World) :
  reachable w ->
  NoDup (ownedElements (_highlightEntries (this w))) /\
  (forall entry, entry ∈ _highlightEntries (this w) ->
     highlightElement entry ∈ shadowChildren (document w) /\
     (forall tooltip, tooltipElement entry = Some tooltip ->
        tooltip ∈ shadowChildren (document w) /\
        tooltip <> highlightElement entry)) /\
  (forall e, e ∈ ownedElements (_highlightEntries (this w)) ->
     e <> _glassPaneElement (this w) /\ e <> _actionPointElement (this w) /\
     (S (_actionPointElement (this w)) < e < nextElement (document w))%nat).
Proof.
  intros (Hap & Hglass & Hnodup & Hbounds & Hattached)%reachable_overlayOwns.
  split_and!; [done | |].
  - intros entry Hin.
    assert (forall e, e ∈ entryElements entry ->
              e ∈ ownedElements (_highlightEntries (this w))) as Hown.
    { intros e He. apply list_elem_of_In, in_flat_map. exists entry.
      split; by apply list_elem_of_In. }
    split.
    + apply Hattached, Hown. by left.
    + intros tooltip Ht. split.
      * apply Hattached, Hown. unfold entryElements. rewrite Ht. right. by left.
      * intros ->. apply list_elem_of_split in Hin as (pre & post & Hsplit).
        rewrite Hsplit in Hnodup. unfold ownedElements in Hnodup.
        rewrite flat_map_app in Hnodup. apply NoDup_app in Hnodup as (_ & _ & Hnodup).
        simpl in Hnodup. rewrite Ht in Hnodup. simpl in Hnodup.
        apply NoDup_cons in Hnodup as [Hnotin _]. apply Hnotin. by left.
  - intros e He. specialize (Hbounds e He). rewrite Hap. lia.
Qed.

Lemma rebuilt_keeps_child L elements options w c :
  c ∈ shadowChildren (document w) ->
  c ∉ ownedElements (_highlightEntries (this w)) ->
  c ∈ shadowChildren (document (rebuilt L elements options w)).
Proof.
  intros Hin Hnot. simpl. unfold rebuildOps. rewrite applyOps_app.
  apply shadowChildren_noDetach.
  - rewrite !Forall_app. split_and!.
    + apply buildOps_noDetach.
    + apply keepsChildren_noDetach, measureOps_keepsChildren.
    + apply keepsChildren_noDetach, paintOps_keepsChildren.
  - apply shadowChildren_kept; [apply removeOps_isRemove | done |].
    rewrite removeOps_owned. intros (e & [= ->] & He)%list_elem_of_fmap. done.
Qed.

(** X7.  Content put on the surface through [appendChild] stays there:
    [appendChild] makes the element the last child of the surface and
    leaves the registry alone, and no later update, mask or clear detaches
    a child of the surface that is not a highlight or tooltip element of
    the registry. *)
Theorem surface_children_survive (L : Layout) (elements : list Element)
    (options : HighlightOptions.t) (color : option string) (w : World)
    (c : Element) :
  c ∈ shadowChildren (document w) ->
  c ∉ ownedElements (_highlightEntries (this w)) ->
  (exists w' ops, updateHighlight L elements options w = Some (tt, w', ops) /\
                  c ∈ shadowChildren (document w')) /\
  (exists w' ops, maskElements L elements color w = Some (tt, w', ops) /\
                  c ∈ shadowChildren (document w')) /\
  (exists w' ops, clearHighlight w = Some (tt, w', ops) /\
                  c ∈ shadowChildren (document w')) /\
  (forall element,
     exists w', appendChild element w = Some (tt, w', [AppendChild element]) /\
                last (shadowChildren (document w')) = Some element /\
                c ∈ shadowChildren (document w') /\
                this w' = this w).
Proof.
  intros Hin Hnot.
  assert (forall o, exists w' ops,
            _innerUpdateHighlight L elements o w = Some (tt, w', ops) /\
            c ∈ shadowChildren (document w')) as Hupdate.
  { intros o. destruct (_innerUpdateHighlight_run L elements o w)
      as (b & reads & _ & _ & _ & Hrun).
    eexists _, _. split; [exact Hrun|]. destruct b; [done|].
    by apply rebuilt_keeps_child. }
  split_and!.
  - apply Hupdate.
  - apply Hupdate.
  - eexists _, _. split; [apply clearHighlight_run|]. simpl.
    apply shadowChildren_kept; [apply removeOps_isRemove | done |].
    rewrite removeOps_owned. intros (e & [= ->] & He)%list_elem_of_fmap. done.
  - intros element. eexists. split; [reflexivity|]. simpl. split_and!.
    + by rewrite last_snoc.
    + destruct (decide (c = element)) as [->|].
      * apply elem_of_app. right. by left.
      * apply elem_of_app. left. by apply elem_of_without.
    + done.
Qed.

Lemma without_notin (e : Element) (l : list Element) : e ∉ l -> without e l = l.
Proof.
  intros Hnot. unfold without. induction l as [|c l IH]; [done|].
  rewrite filter_cons_True.
  - f_equal. apply IH. intros Hin. apply Hnot. by right.
  - intros ->. apply Hnot. by left.
Qed.

Lemma shadowChildren_removeOps entries d :
  shadowChildren (applyOps (removeOps entries) d)
  = filter (fun c => c ∉ ownedElements entries) (shadowChildren d).
Proof.
  rewrite removeOps_owned. generalize (ownedElements entries). intros l.
  revert d. induction l as [|e l IH]; intros d.
  - simpl. symmetry. induction (shadowChildren d) as [|c cs IHc]; [done|].
    rewrite filter_cons_True by apply not_elem_of_nil. by f_equal.
  - cbn [map]. rewrite applyOps_cons, IH. simpl. unfold without.
    rewrite list_filter_filter. apply list_filter_iff. intros c.
    rewrite not_elem_of_cons. tauto.
Qed.

Lemma shadowChildren_buildOps options N : forall elements i n d,
  (forall c, c ∈ shadowChildren d -> (c < n)%nat) ->
  shadowChildren (applyOps (buildOps options N i n elements) d)
  = shadowChildren d ++ seq n (allocated options elements).
Proof.
  unfold allocated.
  induction elements as [|element rest IH]; intros i n d Hbelow.
  - rewrite Nat.mul_0_r. simpl. by rewrite app_nil_r.
  - cbn [buildOps]. rewrite applyOps_app.
    assert (n ∉ shadowChildren d) as Hn by (intros Hin%Hbelow; lia).
    unfold entryBuildOps, afterEntry. simpl length.
    destruct (truthy _) eqn:Htruthy.
    + rewrite IH.
      * simpl. unfold applyOps. simpl. rewrite (without_notin n) by done.
        rewrite without_notin.
        -- replace (length rest + S (length rest + 0))%nat
             with (S (length rest + (length rest + 0)))%nat by lia.
           simpl. by rewrite <- !app_assoc.
        -- rewrite elem_of_app. intros [Hin%Hbelow|Hin%list_elem_of_singleton]; lia.
      * intros c. simpl. unfold applyOps. simpl.
        rewrite (without_notin n) by done.
        rewrite without_notin.
        -- rewrite !elem_of_app, !list_elem_of_singleton.
           intros [[Hin%Hbelow| ->]| ->]; lia.
        -- rewrite elem_of_app. intros [Hin%Hbelow|Hin%list_elem_of_singleton]; lia.
    + rewrite IH.
      * simpl. unfold applyOps. simpl. rewrite (without_notin n) by done.
        by rewrite <- !app_assoc.
      * intros c. simpl. unfold applyOps. simpl.
        rewrite (without_notin n) by done.
        rewrite !elem_of_app, !list_elem_of_singleton.
        intros [Hin%Hbelow| ->]; lia.
Qed.

(** X8.  When every child of the surface is an existing element, a
    rebuilding update leaves on the surface, in order, the children that
    were not highlight or tooltip elements of the old registry, followed
    by the elements of the new registry in match order (each highlight
    element, then its tooltip); it creates one element per target, two
    when tooltip text is requested. *)
Theorem rebuild_surface_children (L : Layout) (elements : list Element)
    (options : HighlightOptions.t) (w : World) :
  (forall c, c ∈ shadowChildren (document w) -> (c < nextElement (document w))%nat) ->
  ~ UpToDate L elements (HighlightOptions.tooltipText options)
      (_highlightEntries (this w)) ->
  exists w' ops,
    updateHighlight L elements options w = Some (tt, w', ops) /\
    shadowChildren (document w')
    = filter (fun c => c ∉ ownedElements (_highlightEntries (this w)))
        (shadowChildren (document w))
      ++ ownedElements (_highlightEntries (this w')) /\
    ownedElements (_highlightEntries (this w'))
    = seq (nextElement (document w)) (allocated options elements) /\
    nextElement (document w')
    = (nextElement (document w) + allocated options elements)%nat /\
    (forall c, c ∈ shadowChildren (document w') ->
       (c < nextElement (document w'))%nat).
Proof.
  intros Hbelow Hnot.
  destruct (_innerUpdateHighlight_run L elements options w)
    as (b & reads & _ & _ & Hb & Hrun).
  destruct b; [by destruct Hnot; apply Hb|].
  eexists _, _. split; [exact Hrun|].
  assert (shadowChildren (document (rebuilt L elements options w))
          = filter (fun c => c ∉ ownedElements (_highlightEntries (this w)))
              (shadowChildren (document w))
            ++ seq (nextElement (document w)) (allocated options elements))
    as Hchildren.
  { simpl. unfold rebuildOps. rewrite !app_assoc, !applyOps_app.
    rewrite (shadowChildren_keepsChildren (paintOps _ _))
      by apply paintOps_keepsChildren.
    rewrite (shadowChildren_keepsChildren (measureOps _ _))
      by apply measureOps_keepsChildren.
    rewrite shadowChildren_buildOps, shadowChildren_removeOps; [done|].
    intros c. rewrite shadowChildren_removeOps.
    intros [_ Hin]%list_elem_of_filter. by apply Hbelow. }
  change (_highlightEntries (this (rebuilt L elements options w)))
    with (rebuiltEntries L elements options w).
  rewrite ownedElements_rebuilt, nextElement_rebuilt.
  split_and!; [done | done | done |].
  intros c. rewrite Hchildren, elem_of_app, list_elem_of_filter, elem_of_seq.
  intros [[_ Hin%Hbelow]|?]; lia.
Qed.

(** ** What the registry's elements show *)

Lemma styleOf_kept e prop ops : forall d,
  Forall (keepsStyle e prop) ops ->
  styleOf (applyOps ops d) e prop = styleOf d e prop.
Proof.
  induction ops as [|op ops IH]; intros d Hall; [done|].
  apply Forall_cons_1 in Hall as [Hop Hall].
  rewrite applyOps_cons, IH by done. unfold styleOf.
  destruct op; try done; simpl in Hop.
  - rewrite getData_CreateElement. by case_decide.
  - rewrite getData_SetTextContent. by case_decide; subst.
  - rewrite getData_SetStyle. case_decide; [subst; simpl|done].
    rewrite lookup_insert. case_decide; [|done]. by destruct Hop.
Qed.

Lemma styleOf_set e prop value ops d :
  Forall (keepsStyle e prop) ops ->
  styleOf (applyOps (SetStyle e prop value :: ops) d) e prop = Some value.
Proof.
  intros Hall. rewrite applyOps_cons, styleOf_kept by done.
  unfold styleOf. rewrite getData_SetStyle. case_decide; [|done].
  simpl. by rewrite lookup_insert_eq.
Qed.

Lemma keepsStyle_other e prop op : opElement op <> e -> keepsStyle e prop op.
Proof. destruct op; simpl; auto. Qed.

Lemma keepsStyle_others e prop ops :
  (forall op, op ∈ ops -> opElement op <> e) -> Forall (keepsStyle e prop) ops.
Proof.
  intros Hall. apply Forall_forall. intros op Hin.
  by apply keepsStyle_other, Hall.
Qed.

Lemma entryPaintOps_highlight color entry b d prop value :
  box entry = Some b ->
  (forall tooltip, tooltipElement entry = Some tooltip ->
     tooltip <> highlightElement entry) ->
  (prop, value) ∈ [("left", px (Some (DOMRect.x b)));
                   ("top", px (Some (DOMRect.y b)));
                   ("width", px (Some (DOMRect.width b)));
                   ("height", px (Some (DOMRect.height b)));
                   ("display", "block")] ->
  styleOf (applyOps (entryPaintOps color entry) d) (highlightElement entry) prop
  = Some value.
Proof.
  intros Hb Hne Hin. unfold entryPaintOps. rewrite Hb, applyOps_app.
  set (d1 := applyOps _ d). clearbody d1.
  repeat (apply elem_of_cons in Hin as [[= -> ->]|Hin]);
    [..|by apply elem_of_nil in Hin].
  - rewrite applyOps_cons. apply styleOf_set. Forall_list; simpl; by right.
  - do 2 rewrite applyOps_cons. apply styleOf_set. Forall_list; simpl; by right.
  - do 3 rewrite applyOps_cons. apply styleOf_set. Forall_list; simpl; by right.
  - do 4 rewrite applyOps_cons. apply styleOf_set. Forall_list; simpl; by right.
  - do 5 rewrite applyOps_cons. apply styleOf_set. Forall_list.
Qed.

Lemma entryPaintOps_tooltip color entry tooltip d :
  tooltipElement entry = Some tooltip ->
  tooltip <> highlightElement entry ->
  styleOf (applyOps (entryPaintOps color entry) d) tooltip "top"
  = Some (px (tooltipTop entry)) /\
  styleOf (applyOps (entryPaintOps color entry) d) tooltip "left"
  = Some (px (tooltipLeft entry)) /\
  styleOf (applyOps (entryPaintOps color entry) d) tooltip "display"
  = styleOf d tooltip "display".
Proof.
  intros Ht Hne. unfold entryPaintOps. rewrite Ht. simpl app.
  assert (highlightElement entry <> tooltip) as Hne' by done.
  split_and!.
  - apply styleOf_set. destruct (box entry); Forall_list; simpl; auto.
  - rewrite applyOps_cons. apply styleOf_set.
    destruct (box entry); Forall_list; simpl; auto.
  - apply styleOf_kept. destruct (box entry); Forall_list; simpl; auto.
Qed.

Lemma getData_applyOp_ext op d1 d2 e :
  getData d1 e = getData d2 e ->
  getData (applyOp op d1) e = getData (applyOp op d2) e.
Proof.
  intros Heq.
  destruct op;
    try (rewrite !getData_other by done; exact Heq).
  - rewrite !getData_CreateElement. by case_decide.
  - rewrite !getData_SetTextContent. case_decide; [subst; by rewrite Heq|done].
  - rewrite !getData_SetStyle. case_decide; [subst; by rewrite Heq|done].
Qed.

Lemma getData_applyOps_ext ops : forall d1 d2 e,
  getData d1 e = getData d2 e ->
  getData (applyOps ops d1) e = getData (applyOps ops d2) e.
Proof.
  induction ops as [|op ops IH]; intros d1 d2 e Heq; [done|].
  rewrite !applyOps_cons. by apply IH, getData_applyOp_ext.
Qed.

Lemma entryPaintOps_elements color entry op :
  op ∈ entryPaintOps color entry -> opElement op ∈ entryElements entry.
Proof.
  intros Hin. pose proof (paintOps_elements color [entry] op) as Hop.
  unfold paintOps, ownedElements in Hop. simpl in Hop.
  rewrite !app_nil_r in Hop. by apply Hop.
Qed.

(** Entries that share no element are painted independently: what the
    paint pass leaves on an entry's element is what the entry's own
    iteration writes. *)
Lemma paintOps_entry color : forall entries d entry e,
  NoDup (ownedElements entries) ->
  entry ∈ entries -> e ∈ entryElements entry ->
  getData (applyOps (paintOps color entries) d) e
  = getData (applyOps (entryPaintOps color entry) d) e.
Proof.
  induction entries as [|first rest IH]; intros d entry e Hdup Hentry He;
    [by apply elem_of_nil in Hentry|].
  change (ownedElements (first :: rest))
    with (entryElements first ++ ownedElements rest) in Hdup.
  apply NoDup_app in Hdup as (_ & Hdisjoint & Hrest).
  change (paintOps color (first :: rest))
    with (entryPaintOps color first ++ paintOps color rest).
  rewrite applyOps_app.
  apply elem_of_cons in Hentry as [->|Hentry].
  - apply getData_others, Forall_forall. intros op Hop Hwrite.
    apply paintOps_elements in Hop.
    apply (Hdisjoint e He).
    destruct op; simplify_eq/=; done.
  - rewrite (IH _ entry e Hrest Hentry He).
    apply getData_applyOps_ext.
    apply getData_others, Forall_forall. intros op Hop Hwrite.
    apply entryPaintOps_elements in Hop.
    apply (Hdisjoint (opElement op) Hop).
    assert (opElement op = e) as -> by (destruct op; simplify_eq/=; done).
    apply list_elem_of_In, in_flat_map. exists entry.
    by rewrite <- !list_elem_of_In.
Qed.

Lemma display_entryBuildOps options N i n d :
  truthy (HighlightOptions.tooltipText options) = true ->
  styleOf (applyOps (entryBuildOps options N i n) d) (S n) "display" = Some "flex".
Proof.
  intros Htruthy. unfold entryBuildOps. rewrite Htruthy.
  cbn [app]. do 7 rewrite applyOps_cons. by apply styleOf_set.
Qed.

(** After the build pass every tooltip is displayed as a flex box. *)
Lemma display_buildOps options N : forall elements i n d entry tooltip,
  entry ∈ builtEntries options n elements ->
  tooltipElement entry = Some tooltip ->
  styleOf (applyOps (buildOps options N i n elements) d) tooltip "display"
  = Some "flex".
Proof.
  induction elements as [|element rest IH]; intros i n d entry tooltip Hin Ht;
    [by apply elem_of_nil in Hin|].
  cbn [buildOps]. rewrite applyOps_app.
  apply elem_of_cons in Hin as [->|Hin]; [|by eapply IH].
  unfold builtEntry in Ht. simpl in Ht.
  destruct (truthy _) eqn:Htruthy; [|done]. injection Ht as <-.
  unfold styleOf.
  rewrite getData_buildOps by (unfold afterEntry; rewrite Htruthy; lia).
  by apply display_entryBuildOps.
Qed.

Lemma rebuilt_registryPainted L elements options w :
  registryPainted (rebuilt L elements options w).
Proof.
  intros entry Hentry.
  change (_highlightEntries (this (rebuilt L elements options w)))
    with (rebuiltEntries L elements options w) in Hentry.
  pose proof (ownedElements_rebuilt L elements options w) as Howned.
  assert (NoDup (ownedElements (rebuiltEntries L elements options w))) as Hdup
    by (rewrite Howned; apply NoDup_seq).
  assert (NoDup (entryElements entry)) as Hentrydup.
  { clear Howned. revert Hdup Hentry.
    generalize (rebuiltEntries L elements options w) as entries.
    induction entries as [|first rest IH]; intros Hdup Hin;
      [by apply elem_of_nil in Hin|].
    change (ownedElements (first :: rest))
      with (entryElements first ++ ownedElements rest) in Hdup.
    apply NoDup_app in Hdup as (Hfirst & _ & Hrest).
    apply elem_of_cons in Hin as [->|Hin]; [done|by apply IH]. }
  assert (forall tooltip, tooltipElement entry = Some tooltip ->
            tooltip <> highlightElement entry) as Hne.
  { intros tooltip Ht ->. unfold entryElements in Hentrydup.
    rewrite Ht in Hentrydup. simpl in Hentrydup.
    apply NoDup_cons in Hentrydup as [Hnotin _]. apply Hnotin. by left. }
  assert (is_Some (box entry)) as [b Hb].
  { pose proof (measuredEntry_measured L (_glassPaneElement (this w))
      (builtEntries options (nextElement (document w)) elements)) as Hm.
    unfold measured in Hm. rewrite Forall_forall in Hm. by apply Hm. }
  unfold rebuilt, rebuildOps. cbn [document].
  rewrite !applyOps_app.
  set (d3 := applyOps (measureOps _ _) _).
  assert (forall e prop, e ∈ entryElements entry ->
    styleOf (applyOps (paintOps (resolveColor elements options)
                         (rebuiltEntries L elements options w)) d3) e prop
    = styleOf (applyOps (entryPaintOps (resolveColor elements options) entry) d3)
        e prop) as Hstyle.
  { intros e prop He. unfold styleOf. by rewrite (paintOps_entry _ _ _ entry). }
  assert (highlightElement entry ∈ entryElements entry) as Hhe by by left.
  exists b. split; [done|].
  rewrite !Hstyle by done.
  split_and!;
    try (apply (entryPaintOps_highlight _ _ b); [done|done|];
         repeat first [by left | right]).
  intros tooltip Ht.
  assert (tooltip ∈ entryElements entry) as Hte.
  { unfold entryElements. rewrite Ht. right. by left. }
  rewrite !Hstyle by done.
  destruct (entryPaintOps_tooltip (resolveColor elements options) entry tooltip d3
              Ht (Hne tooltip Ht)) as (Htop & Hleft & Hdisplay).
  split_and!; [done|done|]. rewrite Hdisplay. unfold d3.
  rewrite (applyOps_reads (measureOps _ _)) by apply measureOps_reads.
  unfold rebuiltEntries in Hentry.
  apply list_elem_of_fmap in Hentry as (built & -> & Hbuilt).
  by eapply display_buildOps.
Qed.

Lemma nodes_removeOps entries d :
  nodes (applyOps (removeOps entries) d) = nodes d.
Proof.
  rewrite removeOps_owned.
  induction (ownedElements entries) as [|e rest IH] in d |- *; [done|].
  cbn [map]. by rewrite applyOps_cons, IH.
Qed.

(** A property of the registry and of the data of the elements that holds
    of an empty registry and after every rebuild holds in every world an
    overlay goes through. *)
Lemma reachable_registry (P : gmap Element ElementData -> list HighlightEntry -> Prop) :
  (forall nodes, P nodes []) ->
  (forall L elements options w,
     P (nodes (document (rebuilt L elements options w)))
       (rebuiltEntries L elements options w)) ->
  forall w, reachable w -> P (nodes (document w)) (_highlightEntries (this w)).
Proof.
  intros Hnil Hrebuilt.
  assert (forall L elements options w w' ops,
            _innerUpdateHighlight L elements options w = Some (tt, w', ops) ->
            P (nodes (document w)) (_highlightEntries (this w)) ->
            P (nodes (document w')) (_highlightEntries (this w'))) as Hupdate.
  { intros L elements options w w' ops Hrun Hw.
    destruct (_innerUpdateHighlight_run L elements options w)
      as (b & reads & _ & _ & _ & Hrun').
    rewrite Hrun' in Hrun. injection Hrun as <- _.
    destruct b; [done|apply Hrebuilt]. }
  induction 1 as [| w0 w1 _ IH Hstep | w request _ IH | w w' ops _ IH Hrun].
  - apply Hnil.
  - destruct Hstep as [L elements options w w' ops Hrun
                      | L elements color w w' ops Hrun
                      | w w' ops Hrun | w w' ops Hrun | language w w' ops Hrun
                      | element w w' ops Hrun].
    + by eapply Hupdate.
    + by eapply Hupdate.
    + rewrite clearHighlight_run in Hrun. injection Hrun as <- _. apply Hnil.
    + by injection Hrun as <- _.
    + by injection Hrun as <- _.
    + by injection Hrun as <- _.
  - done.
  - by injection Hrun as <- _.
Qed.

Lemma builtEntries_elem options : forall elements n entry,
  entry ∈ builtEntries options n elements ->
  exists element n', entry = builtEntry options element n'.
Proof.
  induction elements as [|element rest IH]; intros n entry Hin;
    [by apply elem_of_nil in Hin|].
  apply elem_of_cons in Hin as [->|Hin]; [by eauto|by eapply IH].
Qed.

(** X9.  In every world an overlay goes through, each box of the registry
    is displayed at the position and with the size of the box recorded for
    its target ([left], [top], [width] and [height] are the recorded [x],
    [y], [width] and [height] in pixels, [display] is [block]), and each
    tooltip of the registry is displayed as a flex box at an anchor that
    was recorded: no [undefinedpx] is ever left on a tooltip. *)
Theorem registry_painted (w : World) :
  reachable w ->
  forall entry, entry ∈ _highlightEntries (this w) ->
    exists b,
      box entry = Some b /\
      styleOf (document w) (highlightElement entry) "left"
      = Some (px (Some (DOMRect.x b))) /\
      styleOf (document w) (highlightElement entry) "top"
      = Some (px (Some (DOMRect.y b))) /\
      styleOf (document w) (highlightElement entry) "width"
      = Some (px (Some (DOMRect.width b))) /\
      styleOf (document w) (highlightElement entry) "height"
      = Some (px (Some (DOMRect.height b))) /\
      styleOf (document w) (highlightElement entry) "display" = Some "block" /\
      forall tooltip, tooltipElement entry = Some tooltip ->
        exists top left,
          tooltipTop entry = Some top /\ tooltipLeft entry = Some left /\
          styleOf (document w) tooltip "top" = Some (px (Some top)) /\
          styleOf (document w) tooltip "left" = Some (px (Some left)) /\
          styleOf (document w) tooltip "display" = Some "flex".
Proof.
  intros Hreach.
  pose (P := fun (ns : gmap Element ElementData) (entries : list HighlightEntry) =>
    forall entry, entry ∈ entries ->
      (forall d, nodes d = ns -> entryPainted d entry) /\
      (forall tooltip, tooltipElement entry = Some tooltip ->
         is_Some (tooltipTop entry) /\ is_Some (tooltipLeft entry))).
  assert (P (nodes (document w)) (_highlightEntries (this w))) as Hw.
  { apply reachable_registry; [| |done].
    - by intros ? entry Hin%elem_of_nil.
    - intros L elements options w0 entry Hin. split.
      + intros d Hd.
        pose proof (rebuilt_registryPainted L elements options w0 entry Hin)
          as Hpainted.
        unfold entryPainted, styleOf, getData in *. by rewrite Hd.
      + intros tooltip Ht. unfold rebuiltEntries in Hin.
        apply list_elem_of_fmap in Hin as (built & -> & Hbuilt).
        simpl in *. rewrite Ht. by eauto. }
  intros entry Hin. destruct (Hw entry Hin) as [Hpainted Hanchor].
  destruct (Hpainted (document w) eq_refl)
    as (b & Hb & Hleft & Htop & Hwidth & Hheight & Hdisplay & Htooltip).
  exists b. split_and!; [done..|].
  intros tooltip Ht.
  destruct (Hanchor tooltip Ht) as [[top Htt] [left Htl]].
  destruct (Htooltip tooltip Ht) as (? & ? & ?).
  exists top, left. rewrite <- Htt, <- Htl. by split_and!.
Qed.

Lemma rebuiltEntries_uniform L elements options w :
  entriesUniform (rebuiltEntries L elements options w).
Proof.
  exists (HighlightOptions.tooltipText options).
  unfold rebuiltEntries. apply Forall_map, Forall_forall.
  intros built (element & n & ->)%builtEntries_elem. simpl.
  split; [done|]. destruct (truthy _); split; (done || by eauto || by intros []).
Qed.

(** X10.  In every world an overlay goes through, all entries of the
    registry carry one tooltip text, and either every entry has a tooltip
    element (the text is non-empty) or none has (the text is absent or
    empty). *)
Theorem registry_uniform (w : World) :
  reachable w ->
  exists text,
    (forall entry, entry ∈ _highlightEntries (this w) -> tooltipText entry = text) /\
    (truthy text = true ->
     forall entry, entry ∈ _highlightEntries (this w) ->
       is_Some (tooltipElement entry)) /\
    (truthy text = false ->
     forall entry, entry ∈ _highlightEntries (this w) ->
       tooltipElement entry = None).
Proof.
  intros Hreach.
  assert (entriesUniform (_highlightEntries (this w))) as [text Hall].
  { apply (reachable_registry (fun _ => entriesUniform)); [| |done].
    - intros _. by exists None.
    - intros. apply rebuiltEntries_uniform. }
  rewrite Forall_forall in Hall. exists text. split_and!.
  - intros entry Hin. by apply Hall.
  - intros Htruthy entry Hin. by apply Hall.
  - intros Hfalsy entry Hin. destruct (Hall entry Hin) as [_ Hiff].
    destruct (tooltipElement entry); [|done].
    assert (truthy text = true) by (apply Hiff; eauto). congruence.
Qed.

(** ** What an update prints *)

Lemma paintLog_rebuilt L glass options : forall elements n,
  flat_map entryLog (map (measuredEntry L glass) (builtEntries options n elements))
  = map (boxLine L) elements.
Proof.
  induction elements as [|element rest IH]; intros n; [done|].
  simpl. by rewrite IH.
Qed.

Lemma _innerUpdateHighlight_console L elements options w :
  exists w' ops,
    _innerUpdateHighlight L elements options w = Some (tt, w', ops) /\
    (UpToDate L elements (HighlightOptions.tooltipText options)
       (_highlightEntries (this w)) ->
     console w' = console w) /\
    (~ UpToDate L elements (HighlightOptions.tooltipText options)
         (_highlightEntries (this w)) ->
     console w'
     = console w ++ (if _isUnderTest (this w) then map (boxLine L) elements else [])).
Proof.
  destruct (_innerUpdateHighlight_run L elements options w)
    as (b & reads & _ & _ & Hb & Hrun).
  eexists _, _. split; [exact Hrun|]. split.
  - intros Hup. apply Hb in Hup. by subst b.
  - intros Hnot. destruct b; [by destruct Hnot; apply Hb|].
    simpl. unfold paintLog, rebuiltEntries.
    destruct (_isUnderTest (this w)); [|done].
    by rewrite paintLog_rebuilt.
Qed.

(** X11.  What an update or a mask prints: nothing when the registry is up
    to date or the overlay is not under test; otherwise one line per
    element, in the order of the elements, with the [x], [y], [width] and
    [height] of the box the page gives the element at the call. *)
Theorem update_console L elements options color w :
  (exists w' ops,
     updateHighlight L elements options w = Some (tt, w', ops) /\
     (UpToDate L elements (HighlightOptions.tooltipText options)
        (_highlightEntries (this w)) ->
      console w' = console w) /\
     (~ UpToDate L elements (HighlightOptions.tooltipText options)
          (_highlightEntries (this w)) ->
      console w'
      = console w ++
        (if _isUnderTest (this w) then map (boxLine L) elements else []))) /\
  (exists w' ops,
     maskElements L elements color w = Some (tt, w', ops) /\
     (UpToDate L elements None (_highlightEntries (this w)) ->
      console w' = console w) /\
     (~ UpToDate L elements None (_highlightEntries (this w)) ->
      console w'
      = console w ++
        (if _isUnderTest (this w) then map (boxLine L) elements else []))).
Proof.
  split.
  - apply _innerUpdateHighlight_console.
  - apply (_innerUpdateHighlight_console L elements
             {| HighlightOptions.tooltipText := None;
                HighlightOptions.color :=
                  Some (if truthy color then default "" color else "#F0F") |}).
Qed.

(** ** Masks *)

Lemma reachable_entriesUniform w :
  reachable w -> entriesUniform (_highlightEntries (this w)).
Proof.
  intros Hreach.
  apply (reachable_registry (fun _ => entriesUniform)); [| |done].
  - intros _. by exists None.
  - intros. apply rebuiltEntries_uniform.
Qed.

Lemma buildOps_no_tooltip options N :
  truthy (HighlightOptions.tooltipText options) = false ->
  forall elements i n,
    Forall (fun op => ~ isTooltipOp op) (buildOps options N i n elements).
Proof.
  intros Hfalsy.
  induction elements as [|element rest IH]; intros i n; [constructor|].
  cbn [buildOps]. apply Forall_app. split; [|apply IH].
  unfold entryBuildOps. rewrite Hfalsy. Forall_list; simpl; first [by intros [=] | by intros []].
Qed.

Lemma styleWrites_no_tooltip ops :
  allStyleWrites ops -> Forall (fun op => ~ isTooltipOp op) ops.
Proof.
  intros Hall. eapply Forall_impl; [exact Hall|].
  intros op Hop. destruct op; simpl in *; first [done | by intros []].
Qed.

Lemma reads_no_tooltip ops :
  allReads ops -> Forall (fun op => ~ isTooltipOp op) ops.
Proof.
  intros Hall. eapply Forall_impl; [exact Hall|].
  intros op Hop. destruct op; simpl in *; first [done | by intros []].
Qed.

(** X12.  A mask has no tooltips: in every world an overlay goes through,
    [maskElements] completes, creates no tooltip element and sets no text,
    and leaves a registry whose entries have no tooltip element and no
    tooltip text. *)
Theorem maskElements_no_tooltips L elements color (w : World) :
  reachable w ->
  exists w' ops,
    maskElements L elements color w = Some (tt, w', ops) /\
    Forall (fun op => ~ isTooltipOp op) ops /\
    Forall (fun entry => tooltipElement entry = None /\ tooltipText entry = None)
      (_highlightEntries (this w')).
Proof.
  intros Hreach. unfold maskElements.
  set (options := {| HighlightOptions.tooltipText := None;
                     HighlightOptions.color := _ |}).
  destruct (_innerUpdateHighlight_run L elements options w)
    as (b & reads & _ & Hreads & Hb & Hrun).
  eexists _, _. split; [exact Hrun|]. split.
  - apply Forall_app. split; [by apply reads_no_tooltip|].
    destruct b; [constructor|]. unfold rebuildOps. rewrite !Forall_app.
    split_and!.
    + rewrite removeOps_owned. apply Forall_map, Forall_forall. by intros e _ [].
    + by apply buildOps_no_tooltip.
    + apply reads_no_tooltip, measureOps_reads.
    + apply styleWrites_no_tooltip, paintOps_styleWrites.
  - destruct b.
    + assert (UpToDate L elements None (_highlightEntries (this w)))
        as (_ & Htext & _) by by apply Hb.
      destruct (reachable_entriesUniform w Hreach) as [text Hall].
      rewrite Forall_forall in *. intros entry Hin.
      destruct (Hall entry Hin) as [Ht Hiff].
      specialize (Htext entry Hin). split; [|done].
      destruct (tooltipElement entry); [|done].
      assert (truthy text = true) as Htruthy by (apply Hiff; eauto).
      rewrite <- Ht, <- Htext in Htruthy. done.
    + simpl. unfold rebuiltEntries. apply Forall_map, Forall_forall.
      by intros built (element & n & ->)%builtEntries_elem.
Qed.

(** ** Installation *)

Lemma nextIn_last e children : e ∉ children -> nextIn e (children ++ [e]) = None.
Proof.
  induction children as [|c rest IH]; intros Hnotin; simpl.
  - by rewrite decide_True.
  - apply not_elem_of_cons in Hnotin as [Hne Hnotin].
    rewrite decide_False by done. by apply IH.
Qed.

Lemma nextIn_followed e c children :
  e ∈ children -> is_Some (nextIn e (children ++ [c])).
Proof.
  induction children as [|c' rest IH]; intros Hin; [by apply elem_of_nil in Hin|].
  simpl. destruct (decide (c' = e)) as [->|Hne].
  - destruct rest; simpl; eauto.
  - apply IH. by apply elem_of_cons in Hin as [->|Hin].
Qed.

Lemma not_elem_of_without e children : e ∉ without e children.
Proof. unfold without. rewrite list_elem_of_filter. by intros [? _]. Qed.

Lemma without_without e children :
  without e (without e children ++ [e]) = without e children.
Proof.
  unfold without. rewrite filter_app, list_filter_filter.
  rewrite (filter_cons_False _ e) by (by intros ?).
  rewrite filter_nil, app_nil_r.
  apply list_filter_iff. tauto.
Qed.

Lemma isInstalled_run w :
  exists b, isInstalled w = Some (b, w, []) /\
    (b = true <->
     _glassPaneElement (this w) ∈ rootChildren (document w) /\
     nextIn (_glassPaneElement (this w)) (rootChildren (document w)) = None).
Proof.
  unfold isInstalled, nextElementSibling, parentIsDocumentElement.
  eexists. split; [reflexivity|]. simpl.
  case_bool_decide as Hin; [|by split; [|intros []]].
  destruct (nextIn _ _); by split; [|intros []].
Qed.

(** X13.  Installation: right after [install] the overlay is installed,
    whatever came before, and a second [install] changes nothing; once
    another script appends an element to the document element the overlay
    is no longer installed, until it is installed again; and once the glass
    pane is removed from the document the overlay is not installed. *)
Theorem install_isInstalled e (w : World) :
  (exists w1,
     install w = Some (tt, w1, [AppendToDocumentElement (_glassPaneElement (this w))]) /\
     this w1 = this w /\
     isInstalled w1 = Some (true, w1, []) /\
     install w1 = Some (tt, w1, [AppendToDocumentElement (_glassPaneElement (this w))])) /\
  (e <> _glassPaneElement (this w) ->
   isInstalled (foreignAppend e w) = Some (false, foreignAppend e w, []) /\
   exists w2, install (foreignAppend e w) = Some (tt, w2, [AppendToDocumentElement (_glassPaneElement (this w))]) /\
              isInstalled w2 = Some (true, w2, [])) /\
  (exists w3,
     remove (_glassPaneElement (this w)) w = Some (tt, w3, [RemoveElement (_glassPaneElement (this w))]) /\
     isInstalled w3 = Some (false, w3, [])).
Proof.
  assert (forall w0 : World,
    exists w1, install w0
               = Some (tt, w1, [AppendToDocumentElement (_glassPaneElement (this w0))]) /\
               this w1 = this w0 /\
               rootChildren (document w1)
               = without (_glassPaneElement (this w0)) (rootChildren (document w0))
                 ++ [_glassPaneElement (this w0)] /\
               shadowChildren (document w1)
               = without (_glassPaneElement (this w0)) (shadowChildren (document w0)) /\
               nodes (document w1) = nodes (document w0) /\
               nextElement (document w1) = nextElement (document w0) /\
               console w1 = console w0 /\
               isInstalled w1 = Some (true, w1, [])) as Hinstall.
  { intros w0. eexists. split; [reflexivity|]. split_and!; try reflexivity.
    destruct (isInstalled_run
      (setDocument (applyOp (AppendToDocumentElement (_glassPaneElement (this w0)))
                      (document w0)) w0)) as (b & Hrun & Hb).
    change (isInstalled _) with (isInstalled
      (setDocument (applyOp (AppendToDocumentElement (_glassPaneElement (this w0)))
                      (document w0)) w0)).
    rewrite Hrun. assert (b = true) as ->; [|done].
    apply Hb. simpl. split.
    - apply elem_of_app. right. by left.
    - apply nextIn_last, not_elem_of_without. }
  split_and!.
  - destruct (Hinstall w) as (w1 & Hrun & Hthis & Hroot & Hshadow & Hnodes & Hnext
                              & Hconsole & Hinstalled).
    exists w1. split_and!; [done..|].
    destruct (Hinstall w1) as (w1' & Hrun' & Hthis' & Hroot' & Hshadow' & Hnodes'
                               & Hnext' & Hconsole' & _).
    rewrite Hthis in *. rewrite Hrun'. do 3 f_equal.
    destruct w1 as [[n1 x1 s1 r1] h1 c1], w1' as [[n2 x2 s2 r2] h2 c2].
    simpl in *. subst.
    rewrite without_without. f_equal. f_equal.
    unfold without. rewrite list_filter_filter. apply list_filter_iff. tauto.
  - intros Hne. split.
    + destruct (isInstalled_run (foreignAppend e w)) as (b & Hrun & Hb).
      rewrite Hrun. destruct b; [|done].
      destruct Hb as [Hb _]. destruct (Hb eq_refl) as [Hin Hnext].
      simpl in Hin, Hnext.
      apply elem_of_app in Hin as [Hin|Hin%list_elem_of_singleton]; [|done].
      destruct (nextIn_followed _ e _ Hin) as [c Hc]. congruence.
    + destruct (Hinstall (foreignAppend e w)) as (w2 & Hrun & _ & _ & _ & _ & _ & _ & Hb).
      by exists w2.
  - eexists. split; [reflexivity|].
    destruct (isInstalled_run
      (setDocument (applyOp (RemoveElement (_glassPaneElement (this w)))
                      (document w)) w)) as (b & Hrun & Hb).
    change (isInstalled _) with (isInstalled
      (setDocument (applyOp (RemoveElement (_glassPaneElement (this w)))
                      (document w)) w)).
    rewrite Hrun. destruct b; [|done].
    destruct Hb as [Hb _]. destruct (Hb eq_refl) as [Hin _].
    simpl in Hin. by apply not_elem_of_without in Hin.
Qed.

(** ** The action point *)

Lemma methodStep_getData w w' e :
  methodStep w w' ->
  (e < nextElement (document w))%nat ->
  getData (document w') e = getData (document w) e.
Proof.
  assert (forall L elements options w w' ops,
            _innerUpdateHighlight L elements options w = Some (tt, w', ops) ->
            (e < nextElement (document w))%nat ->
            getData (document w') e = getData (document w) e) as Hupdate.
  { intros L elements options w0 w1 ops Hrun Hlt.
    destruct (_innerUpdateHighlight_run L elements options w0)
      as (b & reads & _ & _ & _ & Hrun').
    rewrite Hrun' in Hrun. injection Hrun as <- _.
    destruct b; [done|by apply getData_rebuilt]. }
  intros [L elements options w0 w1 ops Hrun | L elements color w0 w1 ops Hrun
         | w0 w1 ops Hrun | w0 w1 ops Hrun | language w0 w1 ops Hrun
         | element w0 w1 ops Hrun] Hlt.
  - by eapply Hupdate.
  - by eapply Hupdate.
  - rewrite clearHighlight_run in Hrun. injection Hrun as <- _.
    unfold getData. simpl. by rewrite nodes_removeOps.
  - by injection Hrun as <- _.
  - by injection Hrun as <- _.
  - by injection Hrun as <- _.
Qed.

Lemma showActionPoint_run x y o :
  showActionPoint x y o
  = Some (tt,
          {| overlayWorld :=
               setDocument
                 (applyOps
                    [SetStyle (_actionPointElement (this (overlayWorld o))) "top"
                       (px (Some y));
                     SetStyle (_actionPointElement (this (overlayWorld o))) "left"
                       (px (Some x))]
                    (document (overlayWorld o))) (overlayWorld o);
             actionPointHidden := false |},
          [DomCall (SetStyle (_actionPointElement (this (overlayWorld o))) "top"
                      (px (Some y)));
           DomCall (SetStyle (_actionPointElement (this (overlayWorld o))) "left"
                      (px (Some x)));
           SetHidden (_actionPointElement (this (overlayWorld o))) false]).
Proof. reflexivity. Qed.

(** X14.  The action point, for integer coordinates that JavaScript numbers
    hold exactly.  [showActionPoint(x, y)] makes exactly three writes, all
    on the action point: its style top and left become [y] and [x] pixels
    and its [hidden] property becomes false; the fields of the overlay,
    the children of the surface and of the document element and the data
    of every other element are as before.  [hideActionPoint] then makes
    exactly one write, [hidden] becoming true, and leaves the document as
    it is, so that the point keeps its position while hidden.  And no later
    update, mask, clear, install, language change or [appendChild] changes
    the top or left of the action point. *)
Theorem showActionPoint_position x y (o : Overlay) :
  overlayOwns (overlayWorld o) ->
  safeInteger x -> safeInteger y ->
  exists o1,
    showActionPoint x y o
    = Some (tt, o1,
            [DomCall (SetStyle (_actionPointElement (this (overlayWorld o))) "top"
                        (px (Some y)));
             DomCall (SetStyle (_actionPointElement (this (overlayWorld o))) "left"
                        (px (Some x)));
             SetHidden (_actionPointElement (this (overlayWorld o))) false]) /\
    actionPointHidden o1 = false /\
    styleOf (document (overlayWorld o1)) (_actionPointElement (this (overlayWorld o)))
      "top" = Some (px (Some y)) /\
    styleOf (document (overlayWorld o1)) (_actionPointElement (this (overlayWorld o)))
      "left" = Some (px (Some x)) /\
    this (overlayWorld o1) = this (overlayWorld o) /\
    shadowChildren (document (overlayWorld o1))
    = shadowChildren (document (overlayWorld o)) /\
    rootChildren (document (overlayWorld o1))
    = rootChildren (document (overlayWorld o)) /\
    (forall e, e <> _actionPointElement (this (overlayWorld o)) ->
       getData (document (overlayWorld o1)) e
       = getData (document (overlayWorld o)) e) /\
    overlayOwns (overlayWorld o1) /\
    (exists o2,
       hideActionPoint o1
       = Some (tt, o2, [SetHidden (_actionPointElement (this (overlayWorld o))) true]) /\
       actionPointHidden o2 = true /\
       overlayWorld o2 = overlayWorld o1) /\
    (forall w2, methodStep (overlayWorld o1) w2 ->
       styleOf (document w2) (_actionPointElement (this (overlayWorld o))) "top"
       = Some (px (Some y)) /\
       styleOf (document w2) (_actionPointElement (this (overlayWorld o))) "left"
       = Some (px (Some x))).
Proof.
  intros Hw _ _. eexists. split; [apply showActionPoint_run|].
  set (w := overlayWorld o) in *.
  set (ap := _actionPointElement (this w)).
  cbn [overlayWorld actionPointHidden].
  set (w1 := setDocument _ w).
  assert (styleOf (document w1) ap "top" = Some (px (Some y))) as Htop.
  { subst w1. cbn [document setDocument]. apply styleOf_set.
    Forall_list. simpl. by right. }
  assert (styleOf (document w1) ap "left" = Some (px (Some x))) as Hleft.
  { subst w1. cbn [document setDocument]. rewrite applyOps_cons.
    by apply styleOf_set. }
  assert (overlayOwns w1) as Hw1.
  { apply (overlayOwns_children w); [reflexivity | reflexivity | | exact Hw].
    by intros c _ Hin. }
  split_and!; [reflexivity | done | done | reflexivity | reflexivity | reflexivity
               | | done | |].
  - intros e Hne. subst w1. cbn [document setDocument].
    apply getData_others. Forall_list; simpl; congruence.
  - eexists. split_and!; reflexivity.
  - intros w2 Hstep.
    assert (ap < nextElement (document w1))%nat as Hlt.
    { destruct Hw1 as (Hap & Hglass & _). subst ap.
      change (this w) with (this w1). rewrite Hap. lia. }
    unfold styleOf in *.
    by rewrite (methodStep_getData w1 w2 ap Hstep Hlt).
Qed.

(** ** The loop on a page that does not change *)

Section LoopSteady.

Context {ParsedSelector : Type}.

Variable stringifySelector : ParsedSelector -> string.

Variable asLocator : string -> string -> string.

Abbreviation start := (runHighlightOnRaf ParsedSelector stringifySelector asLocator).

Abbreviation frame := (animationFrame ParsedSelector stringifySelector asLocator).

Abbreviation optionsOf := (loopOptions ParsedSelector stringifySelector asLocator).

Lemma start_steady page selector (tab tab1 : Tab ParsedSelector) :
  singleCallback tab ->
  start page selector tab = Some tab1 ->
  steady stringifySelector asLocator page selector tab1 /\
  _language (this (world tab1)) = _language (this (world tab)).
Proof.
  intros Hsingle Hstart.
  destruct (start_run stringifySelector asLocator page selector tab Hsingle)
    as (w & ops & Hupdate & Hrun).
  rewrite Hrun in Hstart. injection Hstart as <-.
  pose proof (update_UpToDate _ _ _ _ _ _ Hupdate) as Hup.
  destruct (_innerUpdateHighlight_run (layout page) (querySelectorAll page selector)
              (optionsOf (this (world tab)) selector) (world tab))
    as (b & reads & _ & _ & _ & Hrun').
  unfold updateHighlight in Hupdate. rewrite Hrun' in Hupdate.
  injection Hupdate as <- _.
  assert (_language (this (if b then world tab
                            else rebuilt (layout page) (querySelectorAll page selector)
                                   (optionsOf (this (world tab)) selector) (world tab)))
          = _language (this (world tab))) as Hlang by by destruct b.
  split; [split|exact Hlang].
  - by eexists.
  - simpl in *. unfold loopOptions in *. simpl in *. by rewrite Hlang.
Qed.

Lemma frame_steady page selector (tab : Tab ParsedSelector) :
  steady stringifySelector asLocator page selector tab ->
  exists handle,
    animationFrameCallbacks (window tab) = [(handle, selector)] /\
    frame page tab
    = Some {| world :=
                setRafRequest
                  (Some (S (animationFrameCallbackIdentifier (window tab))))
                  (world tab);
              window :=
                {| animationFrameCallbacks :=
                     [(S (animationFrameCallbackIdentifier (window tab)), selector)];
                   animationFrameCallbackIdentifier :=
                     S (animationFrameCallbackIdentifier (window tab)) |};
              updateCalls :=
                updateCalls tab ++
                [(querySelectorAll page selector,
                  optionsOf (this (world tab)) selector)] |}.
Proof.
  intros [(handle & Hone & Hraf & Hne) Hup].
  exists handle. split; [done|].
  rewrite frame_run by (right; by exists handle, selector).
  rewrite Hone.
  set (tab0 := {| world := world tab;
                  window := cancelAnimationFrame handle (window tab);
                  updateCalls := updateCalls tab |}).
  assert (singleCallback tab0) as Hsingle.
  { left. simpl. rewrite Hone. rewrite filter_cons_False; [done|]. simpl.
    by intros []. }
  destruct (start_run stringifySelector asLocator page selector tab0 Hsingle)
    as (w & ops & Hupdate & ->).
  destruct (_innerUpdateHighlight_run (layout page) (querySelectorAll page selector)
              (optionsOf (this (world tab)) selector) (world tab))
    as (b & reads & _ & _ & Hb & Hrun').
  unfold updateHighlight in Hupdate. simpl in Hupdate. rewrite Hrun' in Hupdate.
  injection Hupdate as <- _.
  assert (b = true) as -> by by apply Hb.
  reflexivity.
Qed.

Lemma frame_steady_steady page selector (tab tab' : Tab ParsedSelector) :
  steady stringifySelector asLocator page selector tab -> frame page tab = Some tab' ->
  steady stringifySelector asLocator page selector tab'.
Proof.
  intros Hsteady Hframe.
  destruct (frame_steady page selector tab Hsteady) as (handle & _ & Hrun).
  rewrite Hrun in Hframe. injection Hframe as <-.
  destruct Hsteady as [_ Hup]. split; [by eexists|done].
Qed.

Lemma frames_steady page selector : forall n (tab : Tab ParsedSelector),
  steady stringifySelector asLocator page selector tab ->
  exists tab',
    frames stringifySelector asLocator page n tab = Some tab' /\
    steady stringifySelector asLocator page selector tab' /\
    document (world tab') = document (world tab) /\
    _highlightEntries (this (world tab')) = _highlightEntries (this (world tab)) /\
    console (world tab') = console (world tab) /\
    animationFrameCallbackIdentifier (window tab')
    = (animationFrameCallbackIdentifier (window tab) + n)%nat /\
    length (updateCalls tab') = (length (updateCalls tab) + n)%nat.
Proof.
  induction n as [|n IH]; intros tab Hsteady.
  - exists tab. split_and!; (done || simpl; lia).
  - destruct (frame_steady page selector tab Hsteady) as (handle & _ & Hrun).
    cbn [frames]. rewrite Hrun.
    pose proof (frame_steady_steady page selector tab _ Hsteady Hrun) as Hnext.
    destruct (IH _ Hnext) as (tab' & Hframes & Hs & Hd & He & Hc & Hi & Hu).
    exists tab'. split_and!; [done | done | by rewrite Hd | by rewrite He
                             | by rewrite Hc | |].
    + rewrite Hi. simpl. lia.
    + rewrite Hu. simpl. rewrite length_app. simpl. lia.
Qed.

(** X15.  The loop on a page that does not change.  In a tab an overlay
    has been through, [start] leaves a registry whose targets are the
    matches of the selector, in order; from then on, as long as the page
    gives the same matches and boxes, any number of animation frames
    complete and leave the document, the registry and the console as they
    are: each frame only checks (one more update call), and asks for the
    next frame, so that one callback for the selector stays pending. *)
Theorem loop_steady_state page selector (tab : Tab ParsedSelector) :
  tabReachable stringifySelector asLocator tab ->
  exists tab1,
    start page selector tab = Some tab1 /\
    map targetElement (_highlightEntries (this (world tab1)))
    = querySelectorAll page selector /\
    forall n, exists tabn handle,
      frames stringifySelector asLocator page n tab1 = Some tabn /\
      document (world tabn) = document (world tab1) /\
      _highlightEntries (this (world tabn)) = _highlightEntries (this (world tab1)) /\
      console (world tabn) = console (world tab1) /\
      animationFrameCallbacks (window tabn) = [(handle, selector)] /\
      _rafRequest (this (world tabn)) = Some handle /\
      length (updateCalls tabn) = (length (updateCalls tab1) + n)%nat.
Proof.
  intros Hsingle%tabReachable_singleCallback.
  destruct (start_run stringifySelector asLocator page selector tab Hsingle)
    as (w & ops & _ & Hrun).
  eexists. split; [exact Hrun|].
  destruct (start_steady page selector tab _ Hsingle Hrun) as [Hsteady _].
  split.
  - destruct Hsteady as [_ Hup]. by apply UpToDate_targets in Hup.
  - intros n.
    destruct (frames_steady page selector n _ Hsteady)
      as (tabn & Hframes & [(handle & Hone & Hraf & _) _] & Hd & He & Hc & _ & Hu).
    by exists tabn, handle.
Qed.

(** X16.  [uninstall] stops the loop and nothing else: it completes, no
    callback is left pending, so that animation frames no longer do
    anything, and the glass pane is no longer a child of the document
    element; but the registry, its elements' places on the surface and the
    stale handle in [_rafRequest] are kept. *)
Theorem uninstall_stops_loop (tab : Tab ParsedSelector) :
  tabReachable stringifySelector asLocator tab ->
  exists tab1,
    uninstall tab = Some tab1 /\
    animationFrameCallbacks (window tab1) = [] /\
    (forall page n, frames stringifySelector asLocator page n tab1 = Some tab1) /\
    (_glassPaneElement (this (world tab)) ∉ rootChildren (document (world tab1))) /\
    isInstalled (world tab1) = Some (false, world tab1, []) /\
    this (world tab1) = this (world tab) /\
    (forall entry, entry ∈ _highlightEntries (this (world tab)) ->
       highlightElement entry ∈ shadowChildren (document (world tab1)) /\
       forall tooltip, tooltipElement entry = Some tooltip ->
         tooltip ∈ shadowChildren (document (world tab1))).
Proof.
  intros Hreach.
  pose proof (tabReachable_singleCallback stringifySelector asLocator tab Hreach)
    as Hsingle.
  pose proof (tabReachable_world stringifySelector asLocator tab Hreach) as Hworld.
  apply reachable_overlayOwns in Hworld
    as (Hap & Hglass & Hnodup & Hbounds & Hattached).
  eexists. split; [reflexivity|].
  assert (animationFrameCallbacks
            (cancelRafRequest (this (world tab)) (window tab)) = []) as Hnil
    by by apply cancelRafRequest_single.
  split_and!.
  - done.
  - intros page. induction n as [|n IH]; [done|].
    cbn [frames]. unfold animationFrame. cbn [window]. rewrite Hnil. exact IH.
  - simpl. apply not_elem_of_without.
  - set (w1 := setDocument (applyOp (RemoveElement (_glassPaneElement (this (world tab))))
                              (document (world tab))) (world tab)).
    change (isInstalled w1 = Some (false, w1, [])).
    destruct (isInstalled_run w1) as (b & Hrun & Hb). rewrite Hrun.
    destruct b; [|done]. destruct Hb as [Hb _].
    destruct (Hb eq_refl) as [Hin _]. simpl in Hin.
    by apply not_elem_of_without in Hin.
  - reflexivity.
  - intros entry Hin.
    assert (forall e, e ∈ entryElements entry ->
              e ∈ shadowChildren (document (world tab)) /\
              e <> _glassPaneElement (this (world tab))) as Hown.
    { intros e He.
      assert (e ∈ ownedElements (_highlightEntries (this (world tab)))) as Howned.
      { apply list_elem_of_In, in_flat_map. exists entry.
        split; by apply list_elem_of_In. }
      split; [by apply Hattached|]. specialize (Hbounds e Howned). lia. }
    split.
    + destruct (Hown (highlightElement entry)) as [Hc Hne]; [by left|].
      simpl. by apply elem_of_without.
    + intros tooltip Ht.
      destruct (Hown tooltip) as [Hc Hne].
      { unfold entryElements. rewrite Ht. right. by left. }
      simpl. by apply elem_of_without.
Qed.

(** X18.  A language change reaches the tooltips at the next frame.  In a
    tab an overlay has been through, after [start] every entry carries the
    locator of the selector in the overlay's language; [setLanguage] makes
    no DOM call and changes neither the document nor the registry nor the
    pending callback; and the animation frame that follows completes and
    leaves a registry for the same matches in which every entry carries the
    locator in the new language. *)
Theorem setLanguage_next_frame page selector language (tab : Tab ParsedSelector) :
  tabReachable stringifySelector asLocator tab ->
  exists tab1 w2 tab3,
    start page selector tab = Some tab1 /\
    (forall entry, entry ∈ _highlightEntries (this (world tab1)) ->
       tooltipText entry
       = Some (asLocator (_language (this (world tab))) (stringifySelector selector))) /\
    setLanguage language (world tab1) = Some (tt, w2, []) /\
    document w2 = document (world tab1) /\
    _highlightEntries (this w2) = _highlightEntries (this (world tab1)) /\
    _rafRequest (this w2) = _rafRequest (this (world tab1)) /\
    frame page {| world := w2; window := window tab1;
                  updateCalls := updateCalls tab1 |} = Some tab3 /\
    map targetElement (_highlightEntries (this (world tab3)))
    = querySelectorAll page selector /\
    (forall entry, entry ∈ _highlightEntries (this (world tab3)) ->
       tooltipText entry = Some (asLocator language (stringifySelector selector))) /\
    _language (this (world tab3)) = language.
Proof.
  intros Hsingle%tabReachable_singleCallback.
  destruct (start_run stringifySelector asLocator page selector tab Hsingle)
    as (w & ops & _ & Hrun).
  destruct (start_steady page selector tab _ Hsingle Hrun)
    as [[(handle & Hone & Hraf & Hne) Hup] Hlang].
  match type of Hrun with _ = Some ?t => set (tab1 := t) in * end.
  assert (exists w2,
            setLanguage language (world tab1) = Some (tt, w2, []) /\
            document w2 = document (world tab1) /\
            _highlightEntries (this w2) = _highlightEntries (this (world tab1)) /\
            _rafRequest (this w2) = _rafRequest (this (world tab1)) /\
            _language (this w2) = language)
    as (w2 & Hset & Hd & He & Hr & Hl)
    by (eexists; split_and!; reflexivity).
  set (tab2 := {| world := w2; window := window tab1;
                  updateCalls := updateCalls tab1 |}).
  assert (singleCallback tab2) as Hsingle2.
  { right. exists handle, selector. split_and!; [exact Hone | | exact Hne].
    cbn [tab2 world]. by rewrite Hr. }
  pose proof (frame_run stringifySelector asLocator page tab2 Hsingle2) as Hframe.
  change (animationFrameCallbacks (window tab2))
    with (animationFrameCallbacks (window tab1)) in Hframe.
  rewrite Hone in Hframe.
  set (tab2' := {| world := world tab2;
                   window := cancelAnimationFrame handle (window tab2);
                   updateCalls := updateCalls tab2 |}) in *.
  assert (singleCallback tab2') as Hsingle2'.
  { left. cbn [tab2' window cancelAnimationFrame animationFrameCallbacks].
    change (animationFrameCallbacks (window tab2))
      with (animationFrameCallbacks (window tab1)).
    rewrite Hone. rewrite filter_cons_False; [done|]. simpl. by intros []. }
  destruct (start_run stringifySelector asLocator page selector tab2' Hsingle2')
    as (w3 & ops3 & Hupdate3 & Hrun3).
  rewrite Hrun3 in Hframe.
  pose proof (update_UpToDate _ _ _ _ _ _ Hupdate3) as Hup3.
  cbn [tab2' tab2 world loopOptions HighlightOptions.tooltipText] in Hup3.
  rewrite Hl in Hup3.
  assert (_language (this w3) = language) as Hl3.
  { destruct (_innerUpdateHighlight_run (layout page) (querySelectorAll page selector)
                (optionsOf (this w2) selector) w2)
      as (b & reads & _ & _ & _ & Hrun').
    unfold updateHighlight in Hupdate3. cbn [tab2' tab2 world] in Hupdate3.
    rewrite Hrun' in Hupdate3. injection Hupdate3 as <- _.
    by destruct b. }
  eexists tab1, w2, _.
  split_and!; [exact Hrun | | exact Hset | exact Hd | exact He | exact Hr
               | exact Hframe | | |].
  - intros entry Hin. destruct Hup as (_ & Htext & _).
    rewrite <- (Htext entry Hin). cbn [loopOptions HighlightOptions.tooltipText].
    by rewrite Hlang.
  - by apply UpToDate_targets in Hup3.
  - intros entry Hin. destruct Hup3 as (_ & Htext & _).
    by rewrite <- (Htext entry Hin).
  - exact Hl3.
Qed.

End LoopSteady.

(** ** A new overlay *)

(** The child lists after a sequence of calls. *)
Lemma children_applyOps ops : forall d,
  rootChildren (applyOps ops d)
  = fold_left (fun children op =>
                 match op with
                 | AppendChild e | RemoveElement e => without e children
                 | AppendToDocumentElement e => without e children ++ [e]
                 | _ => children
                 end) ops (rootChildren d) /\
  shadowChildren (applyOps ops d)
  = fold_left (fun children op =>
                 match op with
                 | AppendChild e => without e children ++ [e]
                 | RemoveElement e | AppendToDocumentElement e => without e children
                 | _ => children
                 end) ops (shadowChildren d).
Proof.
  induction ops as [|op ops IH]; intros d; [done|].
  rewrite applyOps_cons. destruct (IH (applyOp op d)) as [-> ->].
  cbn [fold_left]. by destruct op.
Qed.

Lemma constructor_style isUnderTest highlightCSS d :
  getData (document (constructor isUnderTest highlightCSS d)) (S (S (nextElement d)))
  = {| tagName := "style"; textContent := highlightCSS; style := ∅ |}.
Proof.
  unfold constructor, constructorOps. cbn [document].
  repeat rewrite applyOps_cons. unfold applyOps. cbn [fold_left].
  rewrite getData_AppendChild, getData_SetTextContent.
  rewrite decide_True by done.
  rewrite getData_CreateElement. by rewrite decide_True by done.
Qed.

(** X17.  A new overlay is not in the page: on a page whose document
    element's children were all allocated before, the constructor leaves
    the children of the document element and the data of every existing
    element as they are, so that the overlay is not installed; its surface
    holds the action point and the style element with the style sheet, in
    this order, and its registry is empty. *)
Theorem constructor_not_installed isUnderTest highlightCSS (d : Document) :
  (forall c, c ∈ rootChildren d -> (c < nextElement d)%nat) ->
  rootChildren (document (constructor isUnderTest highlightCSS d)) = rootChildren d /\
  isInstalled (constructor isUnderTest highlightCSS d)
  = Some (false, constructor isUnderTest highlightCSS d, []) /\
  (forall e, (e < nextElement d)%nat ->
     getData (document (constructor isUnderTest highlightCSS d)) e = getData d e) /\
  shadowChildren (document (constructor isUnderTest highlightCSS d))
  = [S (nextElement d); S (S (nextElement d))] /\
  _actionPointElement (this (constructor isUnderTest highlightCSS d))
  = S (nextElement d) /\
  tagName (getData (document (constructor isUnderTest highlightCSS d))
             (S (S (nextElement d)))) = "style" /\
  textContent (getData (document (constructor isUnderTest highlightCSS d))
                 (S (S (nextElement d)))) = highlightCSS /\
  _highlightEntries (this (constructor isUnderTest highlightCSS d)) = [] /\
  nextElement (document (constructor isUnderTest highlightCSS d))
  = S (S (S (nextElement d))).
Proof.
  intros Hroot.
  assert (forall e, (nextElement d <= e)%nat -> without e (rootChildren d) = rootChildren d)
    as Hwithout.
  { intros e He. apply without_notin. intros Hin%Hroot. lia. }
  assert (rootChildren (document (constructor isUnderTest highlightCSS d))
          = rootChildren d) as Hchildren.
  { unfold constructor. cbn [document].
    rewrite (proj1 (children_applyOps _ _)).
    unfold constructorOps. cbn [fold_left rootChildren].
    rewrite (Hwithout (S (nextElement d))) by lia.
    apply Hwithout. lia. }
  split_and!.
  - exact Hchildren.
  - destruct (isInstalled_run (constructor isUnderTest highlightCSS d))
      as (b & Hrun & Hb).
    rewrite Hrun. destruct b; [|done]. destruct Hb as [Hb _].
    destruct (Hb eq_refl) as [Hin _]. rewrite Hchildren in Hin.
    apply Hroot in Hin. cbn [constructor this _glassPaneElement] in Hin. lia.
  - intros e Hlt. unfold constructor. cbn [document].
    rewrite getData_others; [done|].
    unfold constructorOps. Forall_list; simpl; intros [= <-]; lia.
  - unfold constructor. cbn [document].
    rewrite (proj2 (children_applyOps _ _)).
    unfold constructorOps. cbn [fold_left shadowChildren]. unfold without.
    cbn [filter list_filter app].
    rewrite decide_True by lia. done.
  - reflexivity.
  - by rewrite constructor_style.
  - by rewrite constructor_style.
  - reflexivity.
  - reflexivity.
Qed.

(** ** The properties at concrete inputs *)

(** [registry_elements_attached] in the example world after one update. *)
Lemma registry_elements_attached_witness :
  NoDup (ownedElements (_highlightEntries (this exampleWorld1))) /\
  (forall entry, entry ∈ _highlightEntries (this exampleWorld1) ->
     highlightElement entry ∈ shadowChildren (document exampleWorld1) /\
     (forall tooltip, tooltipElement entry = Some tooltip ->
        tooltip ∈ shadowChildren (document exampleWorld1) /\
        tooltip <> highlightElement entry)) /\
  (forall e, e ∈ ownedElements (_highlightEntries (this exampleWorld1)) ->
     e <> _glassPaneElement (this exampleWorld1) /\
     e <> _actionPointElement (this exampleWorld1) /\
     (S (_actionPointElement (this exampleWorld1)) < e
      < nextElement (document exampleWorld1))%nat).
Proof.
  apply (registry_elements_attached exampleWorld1).
  eapply reachable_method; [apply reachable_constructor|].
  eapply step_updateHighlight. apply exampleWorld1_run.
Defined.

(** [surface_children_survive] for the action point (element 101) of the
    example world. *)
Lemma surface_children_survive_witness :
  (exists w' ops,
     updateHighlight exampleLayout [2%nat] fooOptions exampleWorld1
     = Some (tt, w', ops) /\
     101%nat ∈ shadowChildren (document w')) /\
  (exists w' ops,
     maskElements exampleLayout [2%nat] None exampleWorld1 = Some (tt, w', ops) /\
     101%nat ∈ shadowChildren (document w')) /\
  (exists w' ops,
     clearHighlight exampleWorld1 = Some (tt, w', ops) /\
     101%nat ∈ shadowChildren (document w')) /\
  (forall element,
     exists w', appendChild element exampleWorld1
                = Some (tt, w', [AppendChild element]) /\
                last (shadowChildren (document w')) = Some element /\
                101%nat ∈ shadowChildren (document w') /\
                this w' = this exampleWorld1).
Proof.
  apply (surface_children_survive exampleLayout [2%nat] fooOptions None
           exampleWorld1 101%nat).
  - vm_compute. by left.
  - vm_compute. intros Hin.
    repeat (apply elem_of_cons in Hin as [Heq|Hin]; [discriminate Heq|]).
    by apply elem_of_nil in Hin.
Defined.

(** [rebuild_surface_children] for a second update, of two elements, in
    the example world. *)
Lemma rebuild_surface_children_witness :
  exists w' ops,
    updateHighlight exampleLayout [2%nat; 3%nat] fooOptions exampleWorld1
    = Some (tt, w', ops) /\
    shadowChildren (document w')
    = filter (fun c => c ∉ ownedElements (_highlightEntries (this exampleWorld1)))
        (shadowChildren (document exampleWorld1))
      ++ ownedElements (_highlightEntries (this w')) /\
    ownedElements (_highlightEntries (this w'))
    = seq (nextElement (document exampleWorld1)) (allocated fooOptions [2%nat; 3%nat]) /\
    nextElement (document w')
    = (nextElement (document exampleWorld1) + allocated fooOptions [2%nat; 3%nat])%nat /\
    (forall c, c ∈ shadowChildren (document w') ->
       (c < nextElement (document w'))%nat).
Proof.
  apply (rebuild_surface_children exampleLayout [2%nat; 3%nat] fooOptions
           exampleWorld1).
  - intros c Hin. vm_compute in Hin.
    repeat (apply elem_of_cons in Hin as [->|Hin]; [vm_compute; lia|]).
    by apply elem_of_nil in Hin.
  - intros [Hlen _]. vm_compute in Hlen. discriminate Hlen.
Defined.

(** [registry_painted] for the entry of the example world. *)
Lemma registry_painted_witness :
  exists b,
    box exampleEntry1 = Some b /\
    styleOf (document exampleWorld1) (highlightElement exampleEntry1) "left"
    = Some (px (Some (DOMRect.x b))) /\
    styleOf (document exampleWorld1) (highlightElement exampleEntry1) "top"
    = Some (px (Some (DOMRect.y b))) /\
    styleOf (document exampleWorld1) (highlightElement exampleEntry1) "width"
    = Some (px (Some (DOMRect.width b))) /\
    styleOf (document exampleWorld1) (highlightElement exampleEntry1) "height"
    = Some (px (Some (DOMRect.height b))) /\
    styleOf (document exampleWorld1) (highlightElement exampleEntry1) "display"
    = Some "block" /\
    forall tooltip, tooltipElement exampleEntry1 = Some tooltip ->
      exists top left,
        tooltipTop exampleEntry1 = Some top /\
        tooltipLeft exampleEntry1 = Some left /\
        styleOf (document exampleWorld1) tooltip "top" = Some (px (Some top)) /\
        styleOf (document exampleWorld1) tooltip "left" = Some (px (Some left)) /\
        styleOf (document exampleWorld1) tooltip "display" = Some "flex".
Proof.
  apply (registry_painted exampleWorld1).
  - eapply reachable_method; [apply reachable_constructor|].
    eapply step_updateHighlight. apply exampleWorld1_run.
  - change (exampleEntry1 ∈ [exampleEntry1]). by left.
Defined.

(** [registry_uniform] in the example world after one update. *)
Lemma registry_uniform_witness :
  exists text,
    (forall entry, entry ∈ _highlightEntries (this exampleWorld1) ->
       tooltipText entry = text) /\
    (truthy text = true ->
     forall entry, entry ∈ _highlightEntries (this exampleWorld1) ->
       is_Some (tooltipElement entry)) /\
    (truthy text = false ->
     forall entry, entry ∈ _highlightEntries (this exampleWorld1) ->
       tooltipElement entry = None).
Proof.
  apply (registry_uniform exampleWorld1).
  eapply reachable_method; [apply reachable_constructor|].
  eapply step_updateHighlight. apply exampleWorld1_run.
Defined.

(** [maskElements_no_tooltips] for a mask of element 2 after the update
    of the example. *)
Lemma maskElements_no_tooltips_witness :
  exists w' ops,
    maskElements exampleLayout [2%nat] None exampleWorld1 = Some (tt, w', ops) /\
    Forall (fun op => ~ isTooltipOp op) ops /\
    Forall (fun entry => tooltipElement entry = None /\ tooltipText entry = None)
      (_highlightEntries (this w')).
Proof.
  apply (maskElements_no_tooltips exampleLayout [2%nat] None exampleWorld1).
  eapply reachable_method; [apply reachable_constructor|].
  eapply step_updateHighlight. apply exampleWorld1_run.
Defined.

(** [showActionPoint_position] for [showActionPoint(10, 20)] in the
    example world, whose action point is element 101. *)
Lemma showActionPoint_position_witness :
  exists o1 o2,
    showActionPoint 10 20 exampleOverlay1
    = Some (tt, o1,
            [DomCall (SetStyle 101%nat "top" "20px");
             DomCall (SetStyle 101%nat "left" "10px");
             SetHidden 101%nat false]) /\
    actionPointHidden exampleOverlay1 = true /\
    actionPointHidden o1 = false /\
    styleOf (document (overlayWorld o1)) 101%nat "top" = Some "20px" /\
    styleOf (document (overlayWorld o1)) 101%nat "left" = Some "10px" /\
    hideActionPoint o1 = Some (tt, o2, [SetHidden 101%nat true]) /\
    actionPointHidden o2 = true /\
    overlayWorld o2 = overlayWorld o1.
Proof.
  destruct (showActionPoint_position 10 20 exampleOverlay1)
    as (o1 & Hrun & Hshown & Htop & Hleft & _ & _ & _ & _ & _
        & (o2 & Hhide & Hhidden & Hsame) & _).
  - apply reachable_overlayOwns.
    eapply reachable_method; [apply reachable_constructor|].
    eapply step_updateHighlight. apply exampleWorld1_run.
  - unfold safeInteger. lia.
  - unfold safeInteger. lia.
  - exists o1, o2.
    split_and!; [exact Hrun | reflexivity | exact Hshown | exact Htop | exact Hleft
                 | exact Hhide | exact Hhidden | exact Hsame].
Defined.

(** [loop_steady_state] for the selector [a] in a new tab. *)
Lemma loop_steady_state_witness :
  exists tab1,
    runHighlightOnRaf string id exampleLocator examplePage "a" exampleTab
    = Some tab1 /\
    map targetElement (_highlightEntries (this (world tab1))) = [1%nat] /\
    forall n, exists tabn handle,
      frames id exampleLocator examplePage n tab1 = Some tabn /\
      document (world tabn) = document (world tab1) /\
      _highlightEntries (this (world tabn)) = _highlightEntries (this (world tab1)) /\
      console (world tabn) = console (world tab1) /\
      animationFrameCallbacks (window tabn) = [(handle, "a")] /\
      _rafRequest (this (world tabn)) = Some handle /\
      length (updateCalls tabn) = (length (updateCalls tab1) + n)%nat.
Proof.
  apply (loop_steady_state id exampleLocator examplePage "a" exampleTab).
  apply tab_new.
Defined.

(** [uninstall_stops_loop] in a tab whose overlay is installed and runs
    the loop: a callback is pending under handle 8, the registry has an
    entry with a tooltip, and the glass pane is the last child of the
    document element. *)
Lemma uninstall_stops_loop_witness :
  (animationFrameCallbacks (window exampleTabRunning) = [(8%nat, "a")] /\
   _rafRequest (this (world exampleTabRunning)) = Some 8%nat /\
   map highlightElement (_highlightEntries (this (world exampleTabRunning)))
   = [103%nat] /\
   map tooltipElement (_highlightEntries (this (world exampleTabRunning)))
   = [Some 104%nat] /\
   rootChildren (document (world exampleTabRunning)) = [100%nat] /\
   isInstalled (world exampleTabRunning)
   = Some (true, world exampleTabRunning, [])) /\
  exists tab1,
    uninstall exampleTabRunning = Some tab1 /\
    animationFrameCallbacks (window tab1) = [] /\
    (forall page n, frames id exampleLocator page n tab1 = Some tab1) /\
    (_glassPaneElement (this (world exampleTabRunning))
       ∉ rootChildren (document (world tab1))) /\
    isInstalled (world tab1) = Some (false, world tab1, []) /\
    this (world tab1) = this (world exampleTabRunning) /\
    (forall entry, entry ∈ _highlightEntries (this (world exampleTabRunning)) ->
       highlightElement entry ∈ shadowChildren (document (world tab1)) /\
       forall tooltip, tooltipElement entry = Some tooltip ->
         tooltip ∈ shadowChildren (document (world tab1))).
Proof.
  split.
  - split_and!; vm_compute; reflexivity.
  - apply (uninstall_stops_loop id exampleLocator exampleTabRunning).
    eapply tab_step; [eapply tab_step; [apply tab_new|]|].
    + apply (tab_method string id exampleLocator exampleTab
               (world exampleTabInstalled)).
      eapply step_install. reflexivity.
    + apply (tab_start string id exampleLocator examplePage "a"
               exampleTabInstalled exampleTabRunning).
      vm_compute. reflexivity.
Defined.

(** [constructor_not_installed] on a page with two children. *)
Lemma constructor_not_installed_witness :
  rootChildren (document (constructor true "css" examplePageDocument))
  = [1%nat; 2%nat] /\
  isInstalled (constructor true "css" examplePageDocument)
  = Some (false, constructor true "css" examplePageDocument, []).
Proof.
  destruct (constructor_not_installed true "css" examplePageDocument)
    as (Hroot & Hinstalled & _).
  - intros c Hin. vm_compute in Hin.
    repeat (apply elem_of_cons in Hin as [->|Hin]; [vm_compute; lia|]).
    by apply elem_of_nil in Hin.
  - split; [exact Hroot | exact Hinstalled].
Defined.

(** [setLanguage_next_frame] for the selector [a] and a change to
    [python] in a new tab. *)
Lemma setLanguage_next_frame_witness :
  exists tab1 w2 tab3,
    runHighlightOnRaf string id exampleLocator examplePage "a" exampleTab
    = Some tab1 /\
    (forall entry, entry ∈ _highlightEntries (this (world tab1)) ->
       tooltipText entry
       = Some (exampleLocator (_language (this (world exampleTab))) "a")) /\
    setLanguage "python" (world tab1) = Some (tt, w2, []) /\
    document w2 = document (world tab1) /\
    _highlightEntries (this w2) = _highlightEntries (this (world tab1)) /\
    _rafRequest (this w2) = _rafRequest (this (world tab1)) /\
    animationFrame string id exampleLocator examplePage
      {| world := w2; window := window tab1; updateCalls := updateCalls tab1 |}
    = Some tab3 /\
    map targetElement (_highlightEntries (this (world tab3))) = [1%nat] /\
    (forall entry, entry ∈ _highlightEntries (this (world tab3)) ->
       tooltipText entry = Some (exampleLocator "python" "a")) /\
    _language (this (world tab3)) = "python".
Proof.
  apply (setLanguage_next_frame id exampleLocator examplePage "a" "python"
           exampleTab).
  apply tab_new.
Defined.
